(** * Smart resume parser: matching, ranking and structuring

    A shallow embedding of [recommendation_system.py] (skill matching,
    candidate filtering and scoring, ranking) and of the structuring part of
    [resume_parser.py] (experience durations, total experience, the
    last-resort guard of [extract_information]), with the properties the
    specification states about them; then of the rest of [resume_parser.py]
    (reading the PDF, the name, contact, skill and education extractors) and
    of the upload and search routes of [app.py], with further properties of
    the code.

    Conventions of the embedding.
    - Python [str] is [string]; the text is read as ASCII, where
      [str.lower] maps [A-Z] to [a-z] and leaves every other character alone.
    - Python [float] is an exact rational ([Q]): scores, durations and the
      similarity ratio are computed without rounding, and the literals [0.8],
      [0.7], [0.3], [0.5] and [5.0] are the rationals they denote.  The
      comparisons of the source ([<], [>=], [min]) are the corresponding
      comparisons on [Q].
    - Python lists are lists, [dict]s with a fixed set of keys are records,
      the [contact] dictionary and [set]s are stdpp's [gmap] and [gset];
      the [resumes_data] dictionary, which is iterated in insertion order,
      is an association list.
    - Library calls ([difflib], [dateutil], [re], spaCy) are either modelled
      from the library ([Difflib], [Dateutil]) or taken as parameters of the
      function that calls them. *)

From Stdlib Require Import Ascii QArith Qminmax Lqa.
From stdpp Require Import gmap strings list sorting.

Local Open Scope nat_scope.

(** ** Python strings *)

Module Text.

(** [c.lower()] for one ASCII character. *)
Definition lower_char (c : ascii) : ascii :=
  let n := nat_of_ascii c in
  if (65 <=? n) && (n <=? 90) then ascii_of_nat (n + 32) else c.

(** [s.lower()] *)
Fixpoint lower (s : string) : string :=
  match s with
  | EmptyString => EmptyString
  | String c s' => String (lower_char c) (lower s')
  end.

(** [needle in hay] on strings: [needle] occurs as a substring. *)
Fixpoint contains (needle hay : string) : bool :=
  String.prefix needle hay ||
  match hay with
  | EmptyString => false
  | String _ hay' => contains needle hay'
  end.

(** The characters of a string, as the sequence [difflib] indexes. *)
Fixpoint chars (s : string) : list ascii :=
  match s with
  | EmptyString => []
  | String c s' => c :: chars s'
  end.

(** [c.isspace()] for one ASCII character. *)
Definition is_space (c : ascii) : bool :=
  let n := nat_of_ascii c in
  ((9 <=? n) && (n <=? 13)) || ((28 <=? n) && (n <=? 32)).

Fixpoint lstrip (s : string) : string :=
  match s with
  | String c s' => if is_space c then lstrip s' else s
  | EmptyString => EmptyString
  end.

(** [s.strip()] *)
Definition strip (s : string) : string :=
  String.rev (lstrip (String.rev (lstrip s))).

(** [s.split(sep)] for a non-empty [sep], scanning from the left: [skip]
    counts the characters of a separator still to be passed over, and [cur]
    holds, reversed, the part read since the last separator. *)
Fixpoint split_go (sep : string) (skip : nat) (cur : string) (s : string)
    : list string :=
  match s with
  | EmptyString => [String.rev cur]
  | String c s' =>
      match skip with
      | S skip' => split_go sep skip' cur s'
      | 0 =>
          if String.prefix sep s
          then String.rev cur
               :: split_go sep (String.length sep - 1) EmptyString s'
          else split_go sep 0 (String c cur) s'
      end
  end.

Definition split (sep s : string) : list string :=
  split_go sep 0 EmptyString s.

End Text.

(** ** [difflib.SequenceMatcher(None, a, b).ratio()]

    Modelled from CPython's [difflib]: [isjunk] is [None], [autojunk] is on.
    [ratio] only adds up the sizes of the matching blocks, so the sorting and
    merging of adjacent blocks in [get_matching_blocks] is left out. *)

Module Difflib.

Section matcher.
Variables a b : list ascii.

(** [__chain_b]: for each element of [b] the ascending list of its
    positions; elements occurring more than [n // 100 + 1] times in a
    [b] of length at least 200 are purged as popular. *)
Definition chain_b : gmap ascii (list nat) :=
  let b2j :=
    foldl (λ (m : gmap ascii (list nat)) '(i, elt),
             <[elt := default [] (m !! elt) ++ [i]]> m) ∅ (imap pair b) in
  let n := length b in
  if 200 <=? n
  then let ntest := n / 100 + 1 in
       filter (λ kv, length kv.2 ≤ ntest) b2j
  else b2j.

Record best := Best { besti : nat; bestj : nat; bestsize : nat }.

(** The inner loop of [find_longest_match] over the positions [j] of
    [a[i]] in [b]: [continue] below [blo], [break] from [bhi] on. *)
Fixpoint scan_js (blo bhi i : nat) (j2len : gmap nat nat) (js : list nat)
    (st : best * gmap nat nat) : best * gmap nat nat :=
  match js with
  | [] => st
  | j :: js' =>
      if j <? blo then scan_js blo bhi i j2len js' st
      else if bhi <=? j then st
      else
        let k := match j with
                 | 0 => 0
                 | S j' => default 0 (j2len !! j')
                 end + 1 in
        let newj2len := <[j := k]> st.2 in
        let bst := if bestsize st.1 <? k
                   then Best (i + 1 - k) (j + 1 - k) k else st.1 in
        scan_js blo bhi i j2len js' (bst, newj2len)
  end.

(** The loop [for i in range(alo, ahi)] of [find_longest_match]. *)
Definition scan_is (b2j : gmap ascii (list nat)) (alo ahi blo bhi : nat)
    : best :=
  (foldl (λ (st : best * gmap nat nat) i,
            let js := match a !! i with
                      | Some x => default [] (b2j !! x)
                      | None => []
                      end in
            scan_js blo bhi i st.2 js (st.1, ∅))
         (Best alo blo 0, ∅) (seq alo (ahi - alo))).1.

(** [while besti > alo and bestj > blo and a[besti-1] == b[bestj-1]] *)
Fixpoint extend_left (fuel alo blo : nat) (m : best) : best :=
  match fuel with
  | 0 => m
  | S fuel' =>
      if (alo <? besti m) && (blo <? bestj m) &&
         bool_decide (is_Some (a !! (besti m - 1)) ∧
                      a !! (besti m - 1) = b !! (bestj m - 1))
      then extend_left fuel' alo blo
             (Best (besti m - 1) (bestj m - 1) (bestsize m + 1))
      else m
  end.

(** [while besti+bestsize < ahi and bestj+bestsize < bhi and
    a[besti+bestsize] == b[bestj+bestsize]] *)
Fixpoint extend_right (fuel ahi bhi : nat) (m : best) : best :=
  match fuel with
  | 0 => m
  | S fuel' =>
      if (besti m + bestsize m <? ahi) && (bestj m + bestsize m <? bhi) &&
         bool_decide (is_Some (a !! (besti m + bestsize m)) ∧
                      a !! (besti m + bestsize m) = b !! (bestj m + bestsize m))
      then extend_right fuel' ahi bhi
             (Best (besti m) (bestj m) (bestsize m + 1))
      else m
  end.

(** [find_longest_match(alo, ahi, blo, bhi)].  With [isjunk=None] the set
    [bjunk] is empty, so the two loops that absorb junk never run. *)
Definition find_longest_match (b2j : gmap ascii (list nat))
    (alo ahi blo bhi : nat) : best :=
  let m := scan_is b2j alo ahi blo bhi in
  let m := extend_left (besti m) alo blo m in
  extend_right ahi ahi bhi m.

(** The total size of the blocks [get_matching_blocks] collects from the
    window [(alo, ahi, blo, bhi)] and the windows it queues from it. *)
Fixpoint matched_size (fuel : nat) (b2j : gmap ascii (list nat))
    (alo ahi blo bhi : nat) : nat :=
  match fuel with
  | 0 => 0
  | S fuel' =>
      let x := find_longest_match b2j alo ahi blo bhi in
      let '(i, j, k) := (besti x, bestj x, bestsize x) in
      if k =? 0 then 0
      else
        k
        + (if (alo <? i) && (blo <? j)
           then matched_size fuel' b2j alo i blo j else 0)
        + (if (i + k <? ahi) && (j + k <? bhi)
           then matched_size fuel' b2j (i + k) ahi (j + k) bhi else 0)
  end.

(** [sum(triple[-1] for triple in self.get_matching_blocks())] *)
Definition matches : nat :=
  matched_size (S (length a)) chain_b 0 (length a) 0 (length b).

(** [_calculate_ratio(matches, len(a) + len(b))] *)
Definition ratio : Q :=
  let len := length a + length b in
  if len =? 0 then 1%Q
  else (2 * inject_Z (Z.of_nat matches) / inject_Z (Z.of_nat len))%Q.
End matcher.

End Difflib.

(** ** [datetime] and [dateutil.relativedelta]

    Modelled from the libraries.  A [datetime] is naive (no time zone) and
    compares field by field.  Of [relativedelta(dt1, dt2)] the source reads
    [years] and [months] only, so the record keeps those two. *)

Module Dateutil.

Local Open Scope Z_scope.

Record datetime := Datetime {
  year : Z; month : Z; day : Z;
  hour : Z; minute : Z; second : Z; microsecond : Z
}.

(** [calendar.isleap] *)
Definition isleap (y : Z) : bool :=
  (y mod 4 =? 0) && (negb (y mod 100 =? 0) || (y mod 400 =? 0)).

(** [calendar.monthrange(year, month)[1]] *)
Definition days_in_month (y m : Z) : Z :=
  if m =? 2 then (if isleap y then 29 else 28)
  else if (m =? 4) || (m =? 6) || (m =? 9) || (m =? 11) then 30
  else 31.

(** A date the [datetime] constructor accepts. *)
Definition valid (d : datetime) : Prop :=
  1 <= year d <= 9999 ∧ 1 <= month d <= 12 ∧
  1 <= day d <= days_in_month (year d) (month d) ∧
  0 <= hour d < 24 ∧ 0 <= minute d < 60 ∧ 0 <= second d < 60 ∧
  0 <= microsecond d < 1000000.

(** [x < y] on tuples of integers. *)
Fixpoint lex_lt (x y : list Z) : bool :=
  match x, y with
  | a :: x', b :: y' => (a <? b) || ((a =? b) && lex_lt x' y')
  | [], _ :: _ => true
  | _, [] => false
  end.

Definition fields (d : datetime) : list Z :=
  [year d; month d; day d; hour d; minute d; second d; microsecond d].

(** [d1 < d2] and [d1 > d2] on naive datetimes. *)
Definition dt_lt (d1 d2 : datetime) : bool := lex_lt (fields d1) (fields d2).
Definition dt_gt (d1 d2 : datetime) : bool := dt_lt d2 d1.

Record relativedelta := Relativedelta { years : Z; months : Z }.

(** [_sign]: [int(copysign(1, x))] *)
Definition sign (x : Z) : Z := if x <? 0 then -1 else 1.

(** [relativedelta._set_months] *)
Definition set_months (n : Z) : relativedelta :=
  if 11 <? Z.abs n
  then let s := sign n in
       Relativedelta ((n * s) / 12 * s) ((n * s) mod 12 * s)
  else Relativedelta 0 n.

(** [relativedelta.__radd__] on a datetime, for a delta that only carries
    years and months: the month wraps around the year and the day is cut
    down to the length of the month reached. *)
Definition radd (rd : relativedelta) (other : datetime) : datetime :=
  let y := year other + years rd in
  let m := month other in
  let '(y, m) :=
    if months rd =? 0 then (y, m)
    else let m := m + months rd in
         if 12 <? m then (y + 1, m - 12)
         else if m <? 1 then (y - 1, m + 12)
         else (y, m) in
  let d := Z.min (days_in_month y m) (day other) in
  Datetime y m d (hour other) (minute other) (second other)
           (microsecond other).

(** [while compare(dt1, dtm): months += increment; ...] *)
Fixpoint adjust (fuel : nat) (compare : datetime → datetime → bool)
    (increment : Z) (dt1 dt2 : datetime) (n : Z) : Z :=
  match fuel with
  | O => n
  | S fuel' =>
      if compare dt1 (radd (set_months n) dt2)
      then adjust fuel' compare increment dt1 dt2 (n + increment)
      else n
  end.

(** The whole months from [dt2] to [dt1] that the constructor settles on.
    The loop body runs at most once, so the loop is given two turns; that
    it has ended by then is [DateutilFacts.month_delta_settled]. *)
Definition month_delta (dt1 dt2 : datetime) : Z :=
  let n := (year dt1 - year dt2) * 12 + (month dt1 - month dt2) in
  if dt_lt dt1 dt2
  then adjust 2 dt_gt 1 dt1 dt2 n
  else adjust 2 dt_lt (-1) dt1 dt2 n.

(** [relativedelta(dt1, dt2)] *)
Definition relativedelta_between (dt1 dt2 : datetime) : relativedelta :=
  set_months (month_delta dt1 dt2).

End Dateutil.

(** ** [models.py] *)

Record Education := {
  degree : string;
  institution : string;
  edu_start_date : option Dateutil.datetime;
  edu_end_date : option Dateutil.datetime;
  gpa : string;
  field_of_study : string
}.

Record Experience := {
  title : string;
  company : string;
  start_date : option Dateutil.datetime;
  end_date : option Dateutil.datetime;
  description : string;
  duration_years : Q
}.

Record ResumeInfo := {
  name : string;
  contact : gmap string string;
  skills : list string;
  education : list Education;
  experience : list Experience;
  total_experience_years : Q;
  raw_text : string
}.

(** ** [recommendation_system.py] *)

(** [similarity_score(a, b)] *)
Definition similarity_score (a b : string) : Q :=
  Difflib.ratio (Text.chars (Text.lower a)) (Text.chars (Text.lower b)).

(** The condition of the inner loop of [match_skills]: the required skill
    occurs in the candidate skill, or the candidate skill occurs in the
    required one, or their similarity reaches the threshold. *)
Definition skill_hit (threshold : Q) (candidate_skill req_skill : string) : bool :=
  Text.contains (Text.lower req_skill) (Text.lower candidate_skill)
  || Text.contains (Text.lower candidate_skill) (Text.lower req_skill)
  || Qle_bool threshold (similarity_score candidate_skill req_skill).

(** [l.remove(x)] when [x in l]: the first occurrence goes. *)
Fixpoint list_remove_first (x : string) (l : list string) : list string :=
  match l with
  | [] => []
  | y :: l' => if decide (x = y) then l' else y :: list_remove_first x l'
  end.

(** The state of [match_skills]: [(matched_skills, missing_skills)]. *)
Definition skills_state : Type := list string * list string.

(** [for req_skill in required_skills: ...] for one candidate skill; the
    [break] ends the loop at the first required skill that is hit, whether or
    not that skill was still missing. *)
Fixpoint match_one (threshold : Q) (candidate_skill : string)
    (required_skills : list string) (st : skills_state) : skills_state :=
  match required_skills with
  | [] => st
  | req_skill :: rest =>
      if skill_hit threshold candidate_skill req_skill
      then if bool_decide (req_skill ∈ st.2)
           then (st.1 ++ [req_skill], list_remove_first req_skill st.2)
           else st
      else match_one threshold candidate_skill rest st
  end.

(** [match_skills(candidate_skills, required_skills, threshold)] *)
Definition match_skills_at (threshold : Q)
    (candidate_skills required_skills : list string) : skills_state :=
  foldl (λ st candidate_skill,
           match_one threshold candidate_skill required_skills st)
        ([], required_skills) candidate_skills.

(** [match_skills] with its default [threshold=0.8]. *)
Definition match_skills : list string → list string → skills_state :=
  match_skills_at (8 # 10).

(** The values of [resumes_data]: [{'filename': ..., 'info': ...}]. *)
Record resume_entry := { filename : string; info : ResumeInfo }.

(** The dictionary [candidate_match]; the key ['rank'] is absent until
    [rank_candidates] sets it. *)
Record candidate_match := {
  cm_resume_id : string;
  cm_name : string;
  cm_skills : list string;
  cm_total_experience : Q;
  cm_matched_skills : list string;
  cm_missing_skills : list string;
  cm_match_score : Q;
  cm_rank : option nat
}.

Definition Qlt_bool (x y : Q) : bool := negb (Qle_bool y x).

(** [resume_info.contact.get("email", "").lower() or resume_info.name.lower()] *)
Definition candidate_key (resume_info : ResumeInfo) : string :=
  let email := Text.lower (default "" (contact resume_info !! "email")) in
  if decide (email = "") then Text.lower (name resume_info) else email.

(** [len(matched_skills) / len(required_skills) if required_skills else 1.0] *)
Definition skill_match_score (matched_skills required_skills : list string) : Q :=
  match required_skills with
  | [] => 1
  | _ => inject_Z (Z.of_nat (length matched_skills))
         / inject_Z (Z.of_nat (length required_skills))
  end.

(** [min(1.0, (total - min_experience) / 5.0) if min_experience > 0 else 0.5] *)
Definition experience_score (total min_experience : Q) : Q :=
  if Qlt_bool 0 min_experience
  then Qmin 1 ((total - min_experience) / 5)
  else 1 # 2.

(** [(skill_match_score * 0.7) + (experience_score * 0.3)] *)
Definition match_score (skill_score exp_score : Q) : Q :=
  skill_score * (7 # 10) + exp_score * (3 # 10).

(** The state of the loop of [match_candidates]:
    [(matching_candidates, seen_keys)]. *)
Definition match_state : Type := list candidate_match * gset string.

(** One turn of [for resume_id, resume_data in resumes_data.items()]. *)
Definition match_step (required_skills : list string) (min_experience : Q)
    (st : match_state) (item : string * resume_entry) : match_state :=
  let '(resume_id, resume_data) := item in
  let resume_info := info resume_data in
  let key := candidate_key resume_info in
  if bool_decide (key ∈ st.2) then st
  else
    let seen_keys := {[key]} ∪ st.2 in
    if Qlt_bool (total_experience_years resume_info) min_experience
    then (st.1, seen_keys)
    else
      let '(matched_skills, missing_skills) :=
        match_skills (skills resume_info) required_skills in
      let skill_score := skill_match_score matched_skills required_skills in
      if (length matched_skills =? 0) && bool_decide (required_skills ≠ [])
      then (st.1, seen_keys)
      else
        let exp_score :=
          experience_score (total_experience_years resume_info)
                           min_experience in
        (st.1 ++ [{| cm_resume_id := resume_id;
                     cm_name := name resume_info;
                     cm_skills := skills resume_info;
                     cm_total_experience := total_experience_years resume_info;
                     cm_matched_skills := matched_skills;
                     cm_missing_skills := missing_skills;
                     cm_match_score := match_score skill_score exp_score;
                     cm_rank := None |}],
         seen_keys).

(** [match_candidates(resumes_data, required_skills, min_experience)] *)
Definition match_candidates (resumes_data : list (string * resume_entry))
    (required_skills : list string) (min_experience : Q)
    : list candidate_match :=
  (foldl (match_step required_skills min_experience) ([], ∅) resumes_data).1.

(** *** Ranking

    [rank_candidates] writes ['rank'] into the dictionaries of its argument,
    so the candidates are objects: a store maps each location to the
    dictionary it holds, and the Python list is a list of locations. *)

Abbreviation loc := nat (only parsing).
Abbreviation store := (gmap nat candidate_match) (only parsing).

(** [x['match_score']], the sort key. *)
Definition score_at (h : store) (l : loc) : Q :=
  from_option cm_match_score 0%Q (h !! l).

(** [candidate['rank'] = r] *)
Definition set_rank (r : nat) (c : candidate_match) : candidate_match :=
  {| cm_resume_id := cm_resume_id c;
     cm_name := cm_name c;
     cm_skills := cm_skills c;
     cm_total_experience := cm_total_experience c;
     cm_matched_skills := cm_matched_skills c;
     cm_missing_skills := cm_missing_skills c;
     cm_match_score := cm_match_score c;
     cm_rank := Some r |}.

(** [sorted(l, key=key, reverse=True)]: a stable sort into descending keys.
    Each element goes in front of the first element whose key is not
    greater than its own, so equal keys keep their order. *)
Fixpoint insert_desc (key : loc → Q) (x : loc) (l : list loc) : list loc :=
  match l with
  | [] => [x]
  | y :: l' =>
      if Qlt_bool (key x) (key y) then y :: insert_desc key x l'
      else x :: y :: l'
  end.

Definition sorted_desc (key : loc → Q) (l : list loc) : list loc :=
  foldr (insert_desc key) [] l.

(** [for i, candidate in enumerate(sorted_candidates):
       candidate['rank'] = i + 1] *)
Definition rank_step (h : store) (ic : nat * loc) : store :=
  let '(i, candidate) := ic in alter (set_rank (i + 1)) candidate h.

Definition assign_ranks (h : store) (sorted_candidates : list loc) : store :=
  foldl rank_step h (imap pair sorted_candidates).

(** [rank_candidates(candidates, required_skills)]: the store after the call
    and the list returned. *)
Definition rank_candidates (h : store) (candidates : list loc)
    (required_skills : list string) : store * list loc :=
  let sorted_candidates := sorted_desc (score_at h) candidates in
  (assign_ranks h sorted_candidates, sorted_candidates).

(** The dictionaries [match_candidates] creates are fresh objects: the
    [i]-th one lives at location [i]. *)
Definition fresh_objects (ms : list candidate_match) : store * list loc :=
  (map_seq 0 ms, seq 0 (length ms)).

(** The two calls of [search] in [app.py]: match, then rank. *)
Definition search (resumes_data : list (string * resume_entry))
    (required_skills : list string) (min_experience : Q)
    : store * list loc :=
  let matching_candidates :=
    match_candidates resumes_data required_skills min_experience in
  let '(h, candidates) := fresh_objects matching_candidates in
  rank_candidates h candidates required_skills.

(** ** [resume_parser.py] *)

(** What a call does: it returns a value, or it raises an [Exception]. *)
Inductive outcome (A : Type) : Type :=
  | Returned (a : A)
  | Raised (e : string).
Arguments Returned {A} a.
Arguments Raised {A} e.

#[global] Instance outcome_ret : MRet outcome := @Returned.
#[global] Instance outcome_bind : MBind outcome := λ A B f m,
  match m with
  | Returned a => f a
  | Raised e => Raised e
  end.

(** The libraries [resume_parser.py] calls.  The regular-expression
    functions take the pattern as the source writes it; [re_findall] also
    takes whether [re.IGNORECASE] is passed and, as every pattern of the
    source has at most one group, returns strings; [re_search] returns
    [group(1)] of the first match.  [date_parse s] is
    [date_parser.parse(s, fuzzy=True)].  [now] is [datetime.now()], read as
    one instant for the whole extraction. *)
Class Library := {
  doc : Type;
  nlp : string → outcome doc;
  ents : doc → list (string * string);
  re_findall : string → bool → string → list string;
  re_split : string → string → list string;
  re_search : string → string → option string;
  date_parse : string → outcome Dateutil.datetime;
  now : Dateutil.datetime
}.

(** The field extractors other than [extract_experience], as calls that
    return a value or raise. *)
Class FieldExtractors `{Library} := {
  extract_name : doc → string → outcome string;
  extract_contact_info : string → outcome (gmap string string);
  extract_skills : string → outcome (list string);
  extract_education : string → doc → outcome (list Education)
}.

(** [Experience()] and the assignments to its attributes. *)
Definition new_experience : Experience :=
  {| title := ""; company := ""; start_date := None; end_date := None;
     description := ""; duration_years := 0 |}.

Definition set_title (v : string) (e : Experience) : Experience :=
  {| title := v; company := company e; start_date := start_date e;
     end_date := end_date e; description := description e;
     duration_years := duration_years e |}.
Definition set_company (v : string) (e : Experience) : Experience :=
  {| title := title e; company := v; start_date := start_date e;
     end_date := end_date e; description := description e;
     duration_years := duration_years e |}.
Definition set_start_date (v : Dateutil.datetime) (e : Experience) : Experience :=
  {| title := title e; company := company e; start_date := Some v;
     end_date := end_date e; description := description e;
     duration_years := duration_years e |}.
Definition set_end_date (v : Dateutil.datetime) (e : Experience) : Experience :=
  {| title := title e; company := company e; start_date := start_date e;
     end_date := Some v; description := description e;
     duration_years := duration_years e |}.
Definition set_description (v : string) (e : Experience) : Experience :=
  {| title := title e; company := company e; start_date := start_date e;
     end_date := end_date e; description := v;
     duration_years := duration_years e |}.
Definition set_duration_years (v : Q) (e : Experience) : Experience :=
  {| title := title e; company := company e; start_date := start_date e;
     end_date := end_date e; description := description e;
     duration_years := v |}.

(** The patterns of [extract_experience], as raw strings. *)
Definition exp_headers : list string :=
  ["experience"; "work experience"; "professional experience";
   "employment history"; "work history"].

Definition section_pattern (header : string) : string :=
  header +:+ "(?::|\.|\n)([\s\S]*?)(?:\n\n|\n\w+:|\Z)".

Definition entry_start_pattern : string :=
  "\n(?=\d{4}|\w{3,}\s+\d{4}|[A-Z][a-z]+\s+\d{4}|\b(?:Jan|January|Feb|February|Mar|March|Apr|April|May|Jun|June|Jul|July|Aug|August|Sep|September|Oct|October|Nov|November|Dec|December)\b)".

Definition title_pattern : string := "^([A-Za-z\s,]+)(?:at|,|\n)".

Definition company_pattern : string := "(?:at|@)\s+([A-Za-z0-9\s&.,]+)".

Definition date_pattern : string :=
  "\b(?:Jan|January|Feb|February|Mar|March|Apr|April|May|Jun|June|Jul|July|Aug|August|Sep|September|Oct|October|Nov|November|Dec|December)?\s*\d{4}\s*(?:-|–|to)?\s*(?:Jan|January|Feb|February|Mar|March|Apr|April|May|Jun|June|Jul|July|Aug|August|Sep|September|Oct|October|Nov|November|Dec|December)?\s*\d{0,4}\b|\b\d{4}\s*(?:-|–|to)?\s*(?:present|current|now)\b|\b\d{4}\s*(?:-|–|to)?\s*\d{4}\b".

Definition separators : list string := ["-"; "–"; "to"].

(** [delta.years + (delta.months / 12)] for
    [delta = relativedelta(dt1, dt2)] *)
Definition delta_years (dt1 dt2 : Dateutil.datetime) : Q :=
  let delta := Dateutil.relativedelta_between dt1 dt2 in
  inject_Z (Dateutil.years delta) + inject_Z (Dateutil.months delta) / 12.

Section extract_experience.
Context `{Library}.

(** The loop over [exp_headers]: the first group of the first match of the
    first header that occurs in the text and has a match. *)
Fixpoint find_section (headers : list string) (text_lower : string)
    : option string :=
  match headers with
  | [] => None
  | header :: rest =>
      if Text.contains header text_lower
      then match re_findall (section_pattern header) true text_lower with
           | m :: _ => Some m
           | [] => find_section rest text_lower
           end
      else find_section rest text_lower
  end.

(** [# Calculate duration] *)
Definition calculate_duration (exp : Experience) : Experience :=
  match start_date exp, end_date exp with
  | Some s, Some e => set_duration_years (delta_years e s) exp
  | Some s, None => set_duration_years (delta_years now s) exp
  | None, _ => exp
  end.

(** The body of [try: ... except Exception] for the first date match.  A
    parse that raises ends the block and leaves [exp] as it is by then. *)
Definition parse_dates (date_text : string) (exp : Experience) : Experience :=
  if existsb (λ separator, Text.contains separator date_text) separators
  then
    let date_parts :=
      match List.find (λ separator, Text.contains separator date_text)
                      separators with
      | Some separator => Text.split separator date_text
      | None => []
      end in
    let start_text := Text.strip (nth 0 date_parts "") in
    let end_text :=
      if 1 <? length date_parts then Text.strip (nth 1 date_parts "")
      else "" in
    match date_parse start_text with
    | Raised _ => exp
    | Returned s =>
        let exp := set_start_date s exp in
        if decide (end_text = "") then calculate_duration exp
        else if existsb (λ current,
                           Text.contains current (Text.lower end_text))
                        ["present"; "current"; "now"]
             then calculate_duration (set_end_date now exp)
             else match date_parse end_text with
                  | Raised _ => exp
                  | Returned e => calculate_duration (set_end_date e exp)
                  end
    end
  else
    match date_parse date_text with
    | Raised _ => exp
    | Returned s => calculate_duration (set_start_date s exp)
    end.

(** One turn of [for entry in job_entries], for an entry that is not
    blank. *)
Definition extract_entry (entry : string) : outcome Experience :=
  let exp := new_experience in
  let exp := match re_search title_pattern entry with
             | Some g => set_title (Text.strip g) exp
             | None => exp
             end in
  exp ← match re_search company_pattern entry with
        | Some g => mret (set_company (Text.strip g) exp)
        | None =>
            entry_doc ← nlp entry;
            let orgs := filter (λ ent, ent.2 = "ORG") (ents entry_doc) in
            mret (match orgs with
                  | org :: _ => set_company org.1 exp
                  | [] => exp
                  end)
        end;
  let exp := match re_findall date_pattern true entry with
             | date_text :: _ => parse_dates date_text exp
             | [] => exp
             end in
  mret (set_description entry exp).

Fixpoint extract_entries (job_entries : list string)
    : outcome (list Experience) :=
  match job_entries with
  | [] => mret []
  | entry :: rest =>
      if decide (Text.strip entry = "") then extract_entries rest
      else exp ← extract_entry entry;
           experience_list ← extract_entries rest;
           mret (exp :: experience_list)
  end.

(** [extract_experience(text, doc)] *)
Definition extract_experience (text : string) (d : doc)
    : outcome (list Experience) :=
  match find_section exp_headers (Text.lower text) with
  | None | Some EmptyString => mret []
  | Some experience_section =>
      extract_entries (re_split entry_start_pattern experience_section)
  end.
End extract_experience.

(** [calculate_total_experience(experience_list)] *)
Definition calculate_total_experience (experience_list : list Experience) : Q :=
  match experience_list with
  | [] => 0
  | _ => foldl (λ total exp, total + duration_years exp)%Q 0%Q experience_list
  end.

Section extract_information.
Context `{FieldExtractors}.

(** The body of [try:] in [extract_information]. *)
Definition build_info (text : string) : outcome ResumeInfo :=
  d ← nlp text;
  info_name ← extract_name d text;
  info_contact ← extract_contact_info text;
  info_skills ← extract_skills text;
  info_education ← extract_education text d;
  info_experience ← extract_experience text d;
  mret {| name := info_name;
          contact := info_contact;
          skills := info_skills;
          education := info_education;
          experience := info_experience;
          total_experience_years :=
            calculate_total_experience info_experience;
          raw_text := text |}.

(** [extract_information(text)]: [None] is Python's [None]; the argument
    is [None] when no text was handed over. *)
Definition extract_information (text : option string) : option ResumeInfo :=
  match text with
  | None | Some EmptyString => None
  | Some text =>
      match build_info text with
      | Returned resume_info => Some resume_info
      | Raised _ => None
      end
  end.
End extract_information.

(** * The vocabulary of the properties *)

(** ** Skill matching *)

(** The first required skill, in list order, that a candidate skill hits. *)
Definition first_hit (threshold : Q) (candidate_skill : string)
    (required_skills : list string) : option string :=
  head (filter (λ r, skill_hit threshold candidate_skill r = true)
               required_skills).

(** ** The matcher as a filter over first occurrences *)

Definition item_key (x : string * resume_entry) : string :=
  candidate_key (info x.2).

(** The records whose key was not seen before, in the order of the input. *)
Fixpoint first_seen (seen : gset string) (data : list (string * resume_entry))
    : list (string * resume_entry) :=
  match data with
  | [] => []
  | x :: data' =>
      if bool_decide (item_key x ∈ seen) then first_seen seen data'
      else x :: first_seen ({[item_key x]} ∪ seen) data'
  end.

(** The two tests a first occurrence has to pass: enough experience, and a
    matched skill when skills are required. *)
Definition passes (required_skills : list string) (min_experience : Q)
    (resume_info : ResumeInfo) : bool :=
  negb (Qlt_bool (total_experience_years resume_info) min_experience)
  && negb ((length (match_skills (skills resume_info) required_skills).1 =? 0)
           && bool_decide (required_skills ≠ [])).

(** The dictionary built for a record that passes. *)
Definition result_of (required_skills : list string) (min_experience : Q)
    (x : string * resume_entry) : candidate_match :=
  let resume_info := info x.2 in
  let ms := match_skills (skills resume_info) required_skills in
  {| cm_resume_id := x.1;
     cm_name := name resume_info;
     cm_skills := skills resume_info;
     cm_total_experience := total_experience_years resume_info;
     cm_matched_skills := ms.1;
     cm_missing_skills := ms.2;
     cm_match_score :=
       match_score (skill_match_score ms.1 required_skills)
                   (experience_score (total_experience_years resume_info)
                                     min_experience);
     cm_rank := None |}.

(** The records that end up in the result. *)
Definition kept (required_skills : list string) (min_experience : Q)
    (data : list (string * resume_entry)) : list (string * resume_entry) :=
  filter (λ x, passes required_skills min_experience (info x.2) = true)
         (first_seen ∅ data).

(** ** Scores *)

(** The score in the words of the specification. *)
Definition clamp (x lo hi : Q) : Q := Qmax lo (Qmin hi x).

Definition spec_skill_score (matched_count required_count : nat) : Q :=
  if required_count =? 0 then 1
  else inject_Z (Z.of_nat matched_count) / inject_Z (Z.of_nat required_count).

Definition spec_experience_score (total min_experience : Q) : Q :=
  if Qlt_bool 0 min_experience
  then clamp ((total - min_experience) / 5) 0 1
  else 1 # 2.

Definition spec_match_score (skill_score exp_score : Q) : Q :=
  (7 # 10) * skill_score + (3 # 10) * exp_score.

(** ** Ranking *)

#[global] Instance Qeq_decision (x y : Q) : Decision (x == y)%Q := Qeq_dec x y.

(** A dictionary without its ['rank']. *)
Definition clear_rank (c : candidate_match) : candidate_match :=
  {| cm_resume_id := cm_resume_id c;
     cm_name := cm_name c;
     cm_skills := cm_skills c;
     cm_total_experience := cm_total_experience c;
     cm_matched_skills := cm_matched_skills c;
     cm_missing_skills := cm_missing_skills c;
     cm_match_score := cm_match_score c;
     cm_rank := None |}.

(** [key] never goes up along the list. *)
Definition descending (key : loc → Q) : list loc → Prop :=
  StronglySorted (λ a b, (key b <= key a)%Q).

(** ** Dates and durations *)

(** The months since year 0, the index [relativedelta] counts in. *)
Definition month_index (d : Dateutil.datetime) : Z :=
  (Dateutil.year d * 12 + Dateutil.month d)%Z.

(** The sum of the durations, in the words of the specification. *)
Definition sum_durations (experience_list : list Experience) : Q :=
  foldr (λ exp total, duration_years exp + total)%Q 0%Q experience_list.

(** The duration the dates of an entry stand for. *)
Definition expected_duration `{Library} (exp : Experience) : Q :=
  match start_date exp, end_date exp with
  | Some s, Some e => delta_years e s
  | Some s, None => delta_years now s
  | None, _ => 0
  end.

(** The start of an entry is not after its end, or not after the current
    time when the entry has no end. *)
Definition dates_in_order `{Library} (exp : Experience) : Prop :=
  match start_date exp, end_date exp with
  | Some s, Some e => Dateutil.dt_lt e s = false
  | Some s, None => Dateutil.dt_lt now s = false
  | None, _ => True
  end.

(** The library hands out dates that exist. *)
Definition dates_valid `{Library} : Prop :=
  (∀ s d, date_parse s = Returned d → Dateutil.valid d) ∧ Dateutil.valid now.

(** What holds of every entry [extract_experience] builds: its dates
    exist, and its duration is the one its dates stand for, or it is still
    the initial 0. *)
Definition entry_ok `{Library} (exp : Experience) : Prop :=
  (∀ d, start_date exp = Some d → Dateutil.valid d)
  ∧ (∀ d, end_date exp = Some d → Dateutil.valid d)
  ∧ (duration_years exp = 0%Q ∨ duration_years exp = expected_duration exp).

(** ** Sample data *)

Definition sample_info (n email : string) (sk : list string) (total : Q)
    : ResumeInfo :=
  {| name := n;
     contact := {[ "email" := email; "phone" := ""; "linkedin" := "";
                   "address" := "" ]};
     skills := sk; education := []; experience := [];
     total_experience_years := total; raw_text := "" |}.

Definition sample_ann : string * resume_entry :=
  ("id1", {| filename := "ann.pdf";
             info := sample_info "Ann Lee" "Ann@x.com" ["python"] 3 |}).
Definition sample_bob : string * resume_entry :=
  ("id2", {| filename := "bob.pdf";
             info := sample_info "Bob Ray" "" ["java"; "python"] 1 |}).
Definition sample_ann2 : string * resume_entry :=
  ("id3", {| filename := "ann2.pdf";
             info := sample_info "Ann B Lee" "ann@X.com" ["java"; "python"] 9 |}).
Definition sample_cy : string * resume_entry :=
  ("id4", {| filename := "cy.pdf"; info := sample_info "Cy Doe" "" ["sql"] 9 |}).

Definition sample_di : string * resume_entry :=
  ("id5", {| filename := "di.pdf"; info := sample_info "Di Roe" "" ["java"] 2 |}).

Definition sample_data : list (string * resume_entry) :=
  [sample_ann; sample_bob; sample_ann2; sample_cy; sample_di].

(** The objects created for the sample data: scores 0.5, 0.85 and 0.5. *)
Definition sample_objects : store * list loc :=
  fresh_objects (match_candidates sample_data ["python"; "java"] 0).

(** Decide a closed, decidable proposition by evaluation. *)
Ltac by_compute := apply (bool_decide_unpack _); vm_compute; exact I.

(** ** A sample run of the libraries

    What the libraries return on two small resumes in a run on
    2026-11-03: the section pattern captures the line after the header
    [Experience]; that line holds no entry boundary; the title and company
    patterns capture the text before and after [at]; the first date match
    starts at the word boundary before the blank that precedes the first
    year; and [parse] of a bare year fills month and day in from the day of
    the run. *)

Definition nl : string := String "010" "".

(** Scenario A of the specification. *)
Definition resume_a : string :=
  "John Smith" +:+ nl +:+ "john@x.com" +:+ nl +:+ "Skills: Python, SQL"
  +:+ nl +:+ "Experience" +:+ nl +:+ "Software Engineer at Acme 2019 - 2021".

(** A resume whose date range runs backwards. *)
Definition resume_b : string :=
  "Jane Roe" +:+ nl +:+ "Experience" +:+ nl +:+ "Engineer at Acme 2021 - 2019".

Definition entry_a : string := "software engineer at acme 2019 - 2021".
Definition entry_b : string := "engineer at acme 2021 - 2019".

Definition sample_findall (pattern : string) (ignorecase : bool)
    (text : string) : list string :=
  if decide (pattern = section_pattern "experience")
  then if decide (text = Text.lower resume_a) then [entry_a]
       else if decide (text = Text.lower resume_b) then [entry_b]
       else []
  else if decide (pattern = date_pattern)
  then if decide (text = entry_a) then [" 2019 - 2021"]
       else if decide (text = entry_b) then [" 2021 - 2019"]
       else []
  else [].

Definition sample_search (pattern text : string) : option string :=
  if decide (pattern = title_pattern)
  then if decide (text = entry_a) then Some "software engineer "
       else if decide (text = entry_b) then Some "engineer "
       else None
  else if decide (pattern = company_pattern)
  then if decide (text = entry_a) then Some "acme 2019 "
       else if decide (text = entry_b) then Some "acme 2021 "
       else None
  else None.

Definition sample_date_parse (s : string) : outcome Dateutil.datetime :=
  if decide (s = "2019") then Returned (Dateutil.Datetime 2019 11 3 0 0 0 0)
  else if decide (s = "2021") then Returned (Dateutil.Datetime 2021 11 3 0 0 0 0)
  else Raised "ParserError".

#[local] Instance sample_library : Library := {|
  doc := unit;
  nlp := λ _, Returned tt;
  ents := λ _, [];
  re_findall := sample_findall;
  re_split := λ _ text, [text];
  re_search := sample_search;
  date_parse := sample_date_parse;
  now := Dateutil.Datetime 2026 11 3 9 0 0 0
|}.

#[local] Instance sample_extractors : FieldExtractors := {|
  extract_name := λ _ text,
    Returned (if decide (text = resume_a) then "John Smith" else "Jane Roe");
  extract_contact_info := λ text,
    Returned {[ "email" := if decide (text = resume_a) then "john@x.com"
                           else "";
                "phone" := ""; "linkedin" := ""; "address" := "" ]};
  extract_skills := λ text,
    Returned (if decide (text = resume_a) then ["python"; "sql"] else []);
  extract_education := λ _ _, Returned []
|}.

(** * The rest of the code: [app.py] and the other extractors *)

(** ** More of Python's strings *)

Module PyStr.

(** [s.rsplit(c, 1)] for a separator of one character: the parts before and
    after its last occurrence, or [s] alone when it does not occur. *)
Fixpoint rsplit1 (c : ascii) (s : string) : list string :=
  match s with
  | EmptyString => [EmptyString]
  | String x s' =>
      match rsplit1 c s' with
      | [before; after] => [String x before; after]
      | _ => if decide (x = c) then [EmptyString; s'] else [s]
      end
  end.

(** [s.split()]: the maximal runs of characters that are not white space;
    [cur] holds, reversed, the run being read. *)
Fixpoint words_go (cur : string) (s : string) : list string :=
  match s with
  | EmptyString => if decide (cur = "") then [] else [String.rev cur]
  | String c s' =>
      if Text.is_space c
      then (if decide (cur = "") then [] else [String.rev cur])
           ++ words_go EmptyString s'
      else words_go (String c cur) s'
  end.

Definition words (s : string) : list string := words_go EmptyString s.

(** [c.isupper()] and [c.isdigit()] for one ASCII character. *)
Definition is_upper (c : ascii) : bool :=
  let n := nat_of_ascii c in (65 <=? n) && (n <=? 90).

Definition is_digit (c : ascii) : bool :=
  let n := nat_of_ascii c in (48 <=? n) && (n <=? 57).

(** The line boundaries of [s.splitlines()] among the ASCII characters:
    line feed, vertical tab, form feed, carriage return and the file, group
    and record separators. *)
Definition is_linebreak (c : ascii) : bool :=
  let n := nat_of_ascii c in
  ((10 <=? n) && (n <=? 13)) || ((28 <=? n) && (n <=? 30)).

(** [s.splitlines()]: a carriage return followed by a line feed is one
    boundary, and no empty line is reported after a final boundary. *)
Fixpoint splitlines_go (cur : string) (s : string) : list string :=
  match s with
  | EmptyString => if decide (cur = "") then [] else [String.rev cur]
  | String c s' =>
      if is_linebreak c
      then String.rev cur
           :: match s' with
              | String c' s'' =>
                  if decide (c = "013"%char ∧ c' = "010"%char)
                  then splitlines_go EmptyString s''
                  else splitlines_go EmptyString s'
              | EmptyString => []
              end
      else splitlines_go (String c cur) s'
  end.

Definition splitlines (s : string) : list string :=
  splitlines_go EmptyString s.

End PyStr.

(** ** The rest of [resume_parser.py] *)

(** Two more library calls: [re_found pattern s] is whether
    [re.search(pattern, s)] finds a match, and [list_of_set l] is
    [list(set(l))], the distinct elements of [l] in the order the set
    happens to iterate them. *)
Class Runtime := {
  re_found : string → string → bool;
  list_of_set : list string → list string;
  list_of_set_perm : ∀ l, list_of_set l ≡ₚ remove_dups l
}.

Module ResumeParser.

(** *** [parse_resume] *)

(** One page of [pdf.pages]: [extract_text] is [page.extract_text()], [None]
    for a page without a text layer, and [ocr] is the conversion of the page
    to an image followed by [pytesseract.image_to_string]. *)
Record page := {
  extract_text : outcome (option string);
  ocr : outcome string
}.

(** The text one turn of [for page in pdf.pages] adds. *)
Definition page_text (p : page) : outcome string :=
  t ← extract_text p;
  let page_text := default "" t in
  if decide (Text.strip page_text = "") then ocr p else mret page_text.

Fixpoint read_pages (pages : list page) (text : string) : outcome string :=
  match pages with
  | [] => mret text
  | p :: rest =>
      t ← page_text p;
      read_pages rest (text +:+ t +:+ nl)
  end.

(** [parse_resume(pdf_path)]: [pdf] is what [pdfplumber.open(pdf_path)] and
    [pdf.pages] give for the file at that path. *)
Definition parse_resume (pdf : outcome (list page)) : option string :=
  match pages ← pdf; read_pages pages "" with
  | Raised _ => None
  | Returned text => if decide (Text.strip text = "") then None else Some text
  end.

(** *** [is_valid_skill] *)

Definition stop_phrases : list string :=
  ["responsible for"; "worked with"; "managed"; "collaborated"; "helped";
   "assisted"; "developed"; "created"; "designed"; "implemented";
   "maintained"; "contributed"; "participated in"; "involved in";
   "experience in"; "experience with"; "knowledge of"; "proficient in";
   "familiar with"; "expertise in"].

(** [is_valid_skill(text)].  As everywhere in this embedding the text is
    read as ASCII, where [len] counts the characters of the string and
    [lower] changes [A-Z] only; a property that needs this of its argument
    says so. *)
Definition is_valid_skill (text : string) : bool :=
  if bool_decide (text = "") || (String.length text <? 2) then false
  else if 30 <? String.length text then false
  else if existsb (λ phrase, Text.contains phrase (Text.lower text))
                  stop_phrases then false
  else if 4 <? length (PyStr.words text) then false
  else true.

(** *** [extract_name] *)

Definition name_denylist : list string :=
  ["gmail"; "email"; "accra"; "phone"; "address"; "resume"; "cv"].

Definition header_denylist : list string :=
  ["resume"; "cv"; "curriculum vitae"; "gmail"; "email"; "phone"].

(** [word[0].isupper()] *)
Definition starts_upper (word : string) : bool :=
  match word with
  | String c _ => PyStr.is_upper c
  | EmptyString => false
  end.

(** [all(word[0].isupper() for word in words if word)] *)
Definition title_case (words : list string) : bool :=
  forallb starts_upper (filter (λ word, word ≠ "") words).

(** The first loop, over [lines[:5]].  [re.search(r'\d', line)] looks for a
    digit. *)
Fixpoint name_from_lines (lines : list string) : option string :=
  match lines with
  | [] => None
  | line :: rest =>
      if Text.contains "@" line
         || existsb PyStr.is_digit (Text.chars line)
      then name_from_lines rest
      else
        let words := PyStr.words (Text.strip line) in
        if (1 <=? length words) && (length words <=? 3) && title_case words
        then
          if existsb (λ bad, Text.contains bad (Text.lower line))
                     name_denylist
          then name_from_lines rest
          else Some (Text.strip line)
        else name_from_lines rest
  end.

Section extract_name.
Context `{Library}.

(** The second loop, over [doc.ents]; an entity is its text and its label. *)
Fixpoint name_from_ents (entities : list (string * string)) : option string :=
  match entities with
  | [] => None
  | ent :: rest =>
      if bool_decide (ent.2 = "PERSON")
         && (length (PyStr.words ent.1) <=? 4)
      then
        if existsb (λ bad, Text.contains bad (Text.lower ent.1)) name_denylist
        then name_from_ents rest
        else Some (Text.strip ent.1)
      else name_from_ents rest
  end.

(** The third loop, over [lines[:10]]. *)
Fixpoint name_from_headers (lines : list string) : option string :=
  match lines with
  | [] => None
  | line :: rest =>
      let line := Text.strip line in
      if (0 <? String.length line) && (length (PyStr.words line) <=? 5)
         && title_case (PyStr.words line)
         && negb (existsb (λ title, Text.contains title (Text.lower line))
                          header_denylist)
      then Some line
      else name_from_headers rest
  end.

Definition extract_name (d : doc) (text : string) : string :=
  let lines := PyStr.splitlines text in
  match name_from_lines (take 5 lines) with
  | Some candidate_name => candidate_name
  | None =>
      match name_from_ents (ents d) with
      | Some candidate_name => candidate_name
      | None =>
          match name_from_headers (take 10 lines) with
          | Some candidate_name => candidate_name
          | None => "Unknown Name"
          end
      end
  end.
End extract_name.

(** *** [extract_contact_info] *)

Definition email_pattern : string :=
  "\b[A-Za-z0-9._%+-]+@[A-Za-z0-9.-]+\.[A-Z|a-z]{2,}\b".

Definition phone_pattern : string :=
  "(?:\+\d{1,2}\s?)?(?:\(\d{3}\)|\d{3})[-.\s]?\d{3}[-.\s]?\d{4}".

Definition linkedin_pattern : string :=
  "(?:linkedin\.com/in/|linkedin\.com/profile/view\?id=|linkedin\.com/pub/)[a-zA-Z0-9_-]+".

Definition empty_contact : gmap string string :=
  <["email" := ""]> (<["phone" := ""]> (<["linkedin" := ""]>
    (<["address" := ""]> ∅))).

Section extract_contact_info.
Context `{Library}.

(** [if matches: contact[key] = matches[0]] *)
Definition set_first (key : string) (found : list string)
    (contact : gmap string string) : gmap string string :=
  match found with
  | m :: _ => <[key := m]> contact
  | [] => contact
  end.

Definition extract_contact_info (text : string) : gmap string string :=
  let contact := empty_contact in
  let contact := set_first "email" (re_findall email_pattern false text)
                           contact in
  let contact := set_first "phone" (re_findall phone_pattern false text)
                           contact in
  let contact :=
    set_first "linkedin"
              (re_findall linkedin_pattern false (Text.lower text)) contact in
  contact.
End extract_contact_info.

(** *** [extract_skills] *)

Definition common_skills : list string :=
  ["python"; "java"; "javascript"; "c++"; "c#"; "ruby"; "php"; "swift";
   "kotlin"; "go"; "rust";
   "html"; "css"; "react"; "angular"; "vue"; "node.js"; "express"; "django";
   "flask"; "spring";
   "machine learning"; "deep learning"; "data analysis";
   "natural language processing"; "computer vision";
   "pandas"; "numpy"; "scipy"; "scikit-learn"; "tensorflow"; "pytorch";
   "keras";
   "sql"; "mysql"; "postgresql"; "mongodb"; "oracle"; "redis";
   "elasticsearch";
   "aws"; "azure"; "google cloud"; "docker"; "kubernetes"; "terraform";
   "agile"; "scrum"; "git"; "ci/cd"; "rest api"; "graphql"; "microservices";
   "devops";
   "leadership"; "communication"; "teamwork"; "problem solving";
   "time management"; "project management";
   "critical thinking"; "creativity"; "attention to detail"; "organization"].

Definition potential_skill_words : list string :=
  ["bootstrap"; "jquery"; "sass"; "typescript"; "api"; "mvc"; "oop";
   "tableau"; "power bi";
   "excel"; "word"; "powerpoint"; "photoshop"; "illustrator"; "analytics";
   "presentation";
   "troubleshooting"; "debugging"; "testing"; "qa"; "ux"; "ui"; "design"].

(** [re.escape]: a backslash in front of each special character. *)
Definition special_chars : list ascii :=
  Text.chars "()[]{}?*+-|^$\.&~# " ++
  ["009"; "010"; "013"; "011"; "012"]%char.

Fixpoint re_escape (s : string) : string :=
  match s with
  | EmptyString => EmptyString
  | String c s' =>
      if bool_decide (c ∈ special_chars)
      then String "\" (String c (re_escape s'))
      else String c (re_escape s')
  end.

Definition word_pattern (skill : string) : string :=
  "\b" +:+ re_escape skill +:+ "\b".

Definition skills_section_pattern : string :=
  "(?:skills|technical skills|technologies|competencies|expertise)(?::|\.|\n)([\s\S]*?)(?:\n\n|\n\w+:|\Z)".

Definition item_pattern : string := "[,•\n]".

Section extract_skills.
Context `{Library} `{Runtime}.

(** The two loops over the vocabularies. *)
Definition found_in (text_lower : string) (vocabulary : list string)
    : list string :=
  filter (λ skill, re_found (word_pattern skill) text_lower = true)
         vocabulary.

(** One turn of [for item in re.split(r'[,•\n]', section)]. *)
Definition add_item (skills : list string) (item : string) : list string :=
  let item := Text.strip item in
  if is_valid_skill item && bool_decide (item ∉ skills)
  then skills ++ [item]
  else skills.

Definition add_section (skills : list string) (section : string)
    : list string :=
  foldl add_item skills (re_split item_pattern section).

Definition extract_skills (text : string) : list string :=
  let text_lower := Text.lower text in
  let skills := found_in text_lower common_skills in
  let skills := skills ++ found_in text_lower potential_skill_words in
  let skills_section_matches :=
    re_findall skills_section_pattern true text_lower in
  let skills := foldl add_section skills skills_section_matches in
  list_of_set skills.
End extract_skills.

(** *** [extract_education] *)

Definition edu_headers : list string :=
  ["education"; "academic background"; "academic qualification"].

Definition degree_patterns : list string :=
  ["(?:Bachelor|BS|BA|B\.S\.|B\.A\.|Master|MS|MA|M\.S\.|M\.A\.|PhD|Ph\.D\.|MD|M\.D\.|MBA|M\.B\.A\.)[^\n,]*";
   "(?:Bachelor\'s|Master\'s|Doctorate|Doctoral|Associate\'s|Associate)[^\n,]*"].

Definition edu_date_pattern : string :=
  "\b(?:Jan|January|Feb|February|Mar|March|Apr|April|May|Jun|June|Jul|July|Aug|August|Sep|September|Oct|October|Nov|November|Dec|December)?\s*\d{4}\s*(?:-|–|to)?\s*(?:Jan|January|Feb|February|Mar|March|Apr|April|May|Jun|June|Jul|July|Aug|August|Sep|September|Oct|October|Nov|November|Dec|December)?\s*\d{0,4}\b|\b\d{4}\s*(?:-|–|to)?\s*(?:present|current|now)\b|\b\d{4}\b".

Definition range_pattern : string := "-|–|to".

(** [Education()] and the assignments to its attributes. *)
Definition new_education : Education :=
  {| degree := ""; institution := ""; edu_start_date := None;
     edu_end_date := None; gpa := ""; field_of_study := "" |}.

Definition set_degree (v : string) (e : Education) : Education :=
  {| degree := v; institution := institution e;
     edu_start_date := edu_start_date e; edu_end_date := edu_end_date e;
     gpa := gpa e; field_of_study := field_of_study e |}.
Definition set_institution (v : string) (e : Education) : Education :=
  {| degree := degree e; institution := v;
     edu_start_date := edu_start_date e; edu_end_date := edu_end_date e;
     gpa := gpa e; field_of_study := field_of_study e |}.
Definition set_edu_start_date (v : Dateutil.datetime) (e : Education)
    : Education :=
  {| degree := degree e; institution := institution e;
     edu_start_date := Some v; edu_end_date := edu_end_date e;
     gpa := gpa e; field_of_study := field_of_study e |}.
Definition set_edu_end_date (v : Dateutil.datetime) (e : Education)
    : Education :=
  {| degree := degree e; institution := institution e;
     edu_start_date := edu_start_date e; edu_end_date := Some v;
     gpa := gpa e; field_of_study := field_of_study e |}.

Section extract_education.
Context `{Library}.

(** The body of [try: ... except Exception] for the date text of an entry.
    A parse that raises ends the block and leaves [edu] as it is by then. *)
Definition parse_edu_dates (date_text : string) (edu : Education)
    : Education :=
  if Text.contains "-" date_text || Text.contains "–" date_text
     || Text.contains "to" date_text
  then
    let date_parts := re_split range_pattern date_text in
    match date_parse (Text.strip (nth 0 date_parts "")) with
    | Raised _ => edu
    | Returned s =>
        let edu := set_edu_start_date s edu in
        if (1 <? length date_parts)
           && bool_decide (Text.strip (nth 1 date_parts "") ≠ "")
        then
          if existsb (λ current,
                        Text.contains current
                                      (Text.lower (nth 1 date_parts "")))
                     ["present"; "current"; "now"]
          then set_edu_end_date now edu
          else match date_parse (Text.strip (nth 1 date_parts "")) with
               | Raised _ => edu
               | Returned e => set_edu_end_date e edu
               end
        else edu
    end
  else
    match date_parse (Text.strip date_text) with
    | Raised _ => edu
    | Returned e => set_edu_end_date e edu
    end.

(** One turn of [for i, degree in enumerate(potential_degrees)]. *)
Definition education_entry (institutions dates : list string) (i : nat)
    (degree_text : string) : Education :=
  let edu := set_degree (Text.strip degree_text) new_education in
  let edu :=
    match institutions !! i, institutions with
    | Some inst, _ => set_institution inst edu
    | None, inst :: _ => set_institution inst edu
    | None, [] => edu
    end in
  match dates !! i with
  | Some date_text => parse_edu_dates date_text edu
  | None => edu
  end.

(** [extract_education(text, doc)] *)
Definition extract_education (text : string) (d : doc)
    : outcome (list Education) :=
  match find_section edu_headers (Text.lower text) with
  | None | Some EmptyString => mret []
  | Some education_section =>
      let potential_degrees :=
        degree_patterns ≫= (λ pattern,
          re_findall pattern true education_section) in
      let dates := re_findall edu_date_pattern true education_section in
      edu_doc ← nlp education_section;
      let institutions :=
        (filter (λ ent, ent.2 ∈ ["ORG"; "GPE"]) (ents edu_doc)).*1 in
      mret (imap (education_entry institutions dates) potential_degrees)
  end.
End extract_education.

(** The extractors of the source as the calls [extract_information] makes:
    none of the first three raises, and [extract_education] raises when
    [nlp] does. *)
Definition extractors `{Library} `{Runtime} : FieldExtractors :=
  Build_FieldExtractors _
    (λ d text, mret (extract_name d text))
    (λ text, mret (extract_contact_info text))
    (λ text, mret (extract_skills text))
    extract_education.

End ResumeParser.

(** ** [app.py] *)

Module App.

Definition ALLOWED_EXTENSIONS : gset string := {[ "pdf" ]}.

(** [allowed_file(filename)]; the second operand of [and] is only read when
    the name has a dot, so that [rsplit] gives two parts. *)
Definition allowed_file (filename : string) : bool :=
  Text.contains "." filename
  && bool_decide
       (Text.lower (nth 1 (PyStr.rsplit1 "." filename) "")
        ∈ ALLOWED_EXTENSIONS).

(** *** [upload_file] *)

(** One file of [request.files.getlist('files[]')] with what the calls made
    for it give: [secure_name] is [secure_filename(file.filename)],
    [drawn_id] is [str(uuid.uuid4())], [save] is the outcome of
    [file.save(file_path)], and [pdf] is what [pdfplumber] reads from the
    saved file. *)
Record upload := {
  file_name : string;
  secure_name : string;
  drawn_id : string;
  save : outcome unit;
  pdf : outcome (list ResumeParser.page)
}.

(** [resumes_data[key] = value] on a dictionary in insertion order: a key
    that is present keeps its place. *)
Fixpoint dict_set (key : string) (value : resume_entry)
    (d : list (string * resume_entry)) : list (string * resume_entry) :=
  match d with
  | [] => [(key, value)]
  | (k, v) :: d' =>
      if decide (k = key) then (key, value) :: d'
      else (k, v) :: dict_set key value d'
  end.

(** The dictionary and the two counters of the loop. *)
Record upload_state := {
  resumes : list (string * resume_entry);
  parsed_count : nat;
  failed_count : nat
}.

Definition failed (st : upload_state) : upload_state :=
  {| resumes := resumes st; parsed_count := parsed_count st;
     failed_count := failed_count st + 1 |}.

(** What the request answers with: one of the two early messages, or the
    counters the two final messages are built from. *)
Inductive upload_response :=
  | NoFilePart
  | NoFilesSelected
  | Processed (parsed_count failed_count : nat).

Section upload_file.
Context `{FieldExtractors}.

(** One turn of [for file in files].  [if file] asks for a file name that
    is not empty. *)
Definition upload_step (st : upload_state) (file : upload) : upload_state :=
  if bool_decide (file_name file ≠ "") && allowed_file (file_name file)
  then
    match save file with
    | Raised _ => failed st
    | Returned _ =>
        match ResumeParser.parse_resume (pdf file) with
        | None | Some EmptyString => failed st
        | Some resume_text =>
            match extract_information (Some resume_text) with
            | Some resume_info =>
                {| resumes :=
                     dict_set (drawn_id file)
                              {| filename := secure_name file;
                                 info := resume_info |}
                              (resumes st);
                   parsed_count := parsed_count st + 1;
                   failed_count := failed_count st |}
            | None => failed st
            end
        end
    end
  else st.

(** [upload_file()]: [files] is [None] when the request has no ['files[]']
    part, and [clear_previous] is [request.form.get('clear_previous')].  The
    result is the dictionary after the request and the answer. *)
Definition upload_file (resumes_data : list (string * resume_entry))
    (files : option (list upload)) (clear_previous : option string)
    : list (string * resume_entry) * upload_response :=
  match files with
  | None => (resumes_data, NoFilePart)
  | Some files =>
      if bool_decide (files = [])
         || bool_decide (file_name <$> head files = Some "")
      then (resumes_data, NoFilesSelected)
      else
        let resumes_data :=
          if decide (clear_previous = Some "true") then [] else resumes_data in
        let st :=
          foldl upload_step
                {| resumes := resumes_data; parsed_count := 0;
                   failed_count := 0 |} files in
        (resumes st, Processed (parsed_count st) (failed_count st))
  end.
End upload_file.

(** *** [search] *)

(** The two lines that read [required_skills] from the form. *)
Definition parse_required_skills (value : string) : list string :=
  let required_skills := Text.strip value in
  (λ skill, Text.lower (Text.strip skill))
    <$> filter (λ skill, Text.strip skill ≠ "")
               (Text.split "," required_skills).

(** The arguments of [render_template('results.html', ...)]. *)
Record results_page := {
  candidates : gmap nat candidate_match * list nat;
  required_skills : list string;
  min_experience : Q;
  total_candidates : nat;
  matching_count : nat
}.

Section search.
(** [float(s)] for a form value: a finite number, or a [ValueError]. *)
Variable float : string → outcome Q.

(** [search()]: [None] is the redirect to the index page. *)
Definition search (resumes_data : list (string * resume_entry))
    (form : gmap string string) : option results_page :=
  if decide (resumes_data = []) then None
  else
    let required_skills :=
      parse_required_skills (default "" (form !! "required_skills")) in
    let min_experience :=
      match float (default "0" (form !! "min_experience")) with
      | Returned x => x
      | Raised _ => 0%Q
      end in
    let top_candidates := search resumes_data required_skills min_experience in
    Some {| candidates := top_candidates;
            required_skills := required_skills;
            min_experience := min_experience;
            total_candidates := length resumes_data;
            matching_count := length top_candidates.2 |}.
End search.

(** [clear_data()] *)
Definition clear_data (resumes_data : list (string * resume_entry))
    : list (string * resume_entry) := [].

End App.

(** * The vocabulary of the further properties *)

(** Leading white space, on lists of characters. *)
Fixpoint ldrop (l : list ascii) : list ascii :=
  match l with
  | c :: l' => if Text.is_space c then ldrop l' else l
  | [] => []
  end.

(** White space only. *)
Definition blank (l : list ascii) : Prop :=
  Forall (λ c, Text.is_space c = true) l.

(** A skill as the form parser hands it on: not empty, in lower case,
    without white space at its ends and without a comma. *)
Definition clean_skill (skill : string) : Prop :=
  skill ≠ "" ∧ Text.lower skill = skill ∧ Text.strip skill = skill
  ∧ Text.contains "," skill = false.

(** The files of a batch whose names pass [allowed_file]. *)
Definition accepted (files : list App.upload) : list App.upload :=
  filter (λ file, App.allowed_file (App.file_name file) = true) files.

(** What makes the loop store a record for a file: the name is allowed, the
    file was saved, text came out of it and the structurer returned a record
    for that text. *)
Definition stored_as `{FieldExtractors} (file : App.upload)
    (item : string * resume_entry) : Prop :=
  App.allowed_file (App.file_name file) = true
  ∧ (∃ u, App.save file = Returned u)
  ∧ (∃ resume_text,
       ResumeParser.parse_resume (App.pdf file) = Some resume_text
       ∧ extract_information (Some resume_text) = Some (info item.2))
  ∧ item.1 = App.drawn_id file
  ∧ filename item.2 = App.secure_name file.

(** The dictionary the loop starts from. *)
Definition batch_base (resumes_data : list (string * resume_entry))
    (clear_previous : option string) : list (string * resume_entry) :=
  if decide (clear_previous = Some "true") then [] else resumes_data.

(** The text of the pages, each followed by a line feed. *)
Definition joined (texts : list string) : string :=
  foldr (λ t rest, t +:+ nl +:+ rest) "" texts.

(** The texts the pages give, when every page gives one. *)
Definition page_texts (pages : list ResumeParser.page) (texts : list string)
    : Prop :=
  Forall2 (λ p t, ResumeParser.page_text p = Returned t) pages texts.

(** The institution the [i]-th entry gets: the [i]-th one found, else the
    first one found, else none. *)
Definition institution_for (institutions : list string) (i : nat) : string :=
  default (default "" (head institutions)) (institutions !! i).

(** A text of ASCII characters only: on such a text Python's [len] is the
    length of the string and [str.lower] changes the letters [A-Z] and
    nothing else. *)
Definition ascii_text (s : string) : Prop :=
  Forall (λ c, nat_of_ascii c < 128) (Text.chars s).

(** Two dates that differ in the year only. *)
Definition same_time_of_year (d1 d2 : Dateutil.datetime) : Prop :=
  Dateutil.month d1 = Dateutil.month d2 ∧ Dateutil.day d1 = Dateutil.day d2
  ∧ Dateutil.hour d1 = Dateutil.hour d2
  ∧ Dateutil.minute d1 = Dateutil.minute d2
  ∧ Dateutil.second d1 = Dateutil.second d2
  ∧ Dateutil.microsecond d1 = Dateutil.microsecond d2.

(** ** Sample runs of the rest of the code *)

(** A batch of three files: a resume with a text layer, a scan whose OCR
    raises, and a file that is not a PDF. *)
Definition sample_page (text : option string) : ResumeParser.page :=
  {| ResumeParser.extract_text := Returned text;
     ResumeParser.ocr := Raised "UnidentifiedImageError" |}.

Definition sample_uploads : list App.upload :=
  [ {| App.file_name := "john.PDF"; App.secure_name := "john.PDF";
       App.drawn_id := "id8"; App.save := Returned ();
       App.pdf := Returned [sample_page (Some resume_a)] |};
    {| App.file_name := "scan.pdf"; App.secure_name := "scan.pdf";
       App.drawn_id := "id9"; App.save := Returned ();
       App.pdf := Returned [sample_page None] |};
    {| App.file_name := "notes.txt"; App.secure_name := "notes.txt";
       App.drawn_id := "id10"; App.save := Returned ();
       App.pdf := Raised "PDFSyntaxError" |} ].

(** A library that finds an education section with one degree, one year and
    one organisation. *)
Definition resume_c : string :=
  "Ama Owusu" +:+ nl +:+ "Education" +:+ nl
  +:+ "BSc Computer Science, University of Ghana 2018".

Definition section_c : string :=
  "bsc computer science, university of ghana 2018".

Definition education_findall (pattern : string) (ignorecase : bool)
    (text : string) : list string :=
  if decide (pattern = section_pattern "education")
  then if decide (text = Text.lower resume_c) then [section_c] else []
  else if decide (Some pattern = head ResumeParser.degree_patterns)
  then if decide (text = section_c) then ["bsc computer science"] else []
  else if decide (pattern = ResumeParser.edu_date_pattern)
  then if decide (text = section_c) then [" 2018"] else []
  else [].

Definition education_library : Library := {|
  doc := unit;
  nlp := λ _, Returned tt;
  ents := λ _, [("university of ghana", "ORG")];
  re_findall := education_findall;
  re_split := λ _ text, [text];
  re_search := λ _ _, None;
  date_parse := λ s,
    if decide (s = "2018") then Returned (Dateutil.Datetime 2018 11 3 0 0 0 0)
    else Raised "ParserError";
  now := Dateutil.Datetime 2026 11 3 9 0 0 0
|}.

(** A run in which no vocabulary word is found and a set lists its elements
    in the order of their last insertion. *)
Definition sample_runtime : Runtime := {|
  re_found := λ _ _, false;
  list_of_set := remove_dups;
  list_of_set_perm := λ l, reflexivity (remove_dups l)
|}.

(** * Properties *)

(** ** Skill matching *)

(** Ratios as CPython's [difflib] gives them. *)
Example sim_python_java : (similarity_score "python" "java" == 0)%Q.
Proof. vm_compute. reflexivity. Qed.

Example sim_abcd_bcde : (similarity_score "abcd" "bcde" == 3 # 4)%Q.
Proof. vm_compute. reflexivity. Qed.

Example sim_javascript : (similarity_score "JavaScript" "javascrip" == 18 # 19)%Q.
Proof. vm_compute. reflexivity. Qed.

Example sim_postgres :
  (similarity_score "postgresql" "postgres" == 8 # 9)%Q
  ∧ skill_hit (8 # 10) "postgre sql" "postgresql" = true.
Proof. split; vm_compute; reflexivity. Qed.

Section match_skills_facts.
Variable threshold : Q.

Lemma list_remove_first_perm x l :
  x ∈ l → l ≡ₚ x :: list_remove_first x l.
Proof.
  induction l as [|y l IH]; simpl; [by intros ?%elem_of_nil|].
  intros Hx. destruct (decide (x = y)) as [->|Hne]; [done|].
  apply elem_of_cons in Hx as [?|Hx]; [done|].
  rewrite (IH Hx) at 1. apply Permutation_swap.
Qed.

Lemma first_hit_elem c reqs r :
  first_hit threshold c reqs = Some r → r ∈ reqs.
Proof.
  unfold first_hit. intros Hh%head_Some_elem_of.
  by apply list_elem_of_filter in Hh as [_ ?].
Qed.

Lemma first_hit_hit c reqs r :
  first_hit threshold c reqs = Some r → skill_hit threshold c r = true.
Proof.
  unfold first_hit. intros Hh%head_Some_elem_of.
  by apply list_elem_of_filter in Hh as [? _].
Qed.

(** The inner loop looks for the first hit and nothing else. *)
Lemma match_one_first_hit c reqs st :
  match_one threshold c reqs st =
  match first_hit threshold c reqs with
  | Some r => if bool_decide (r ∈ st.2)
              then (st.1 ++ [r], list_remove_first r st.2) else st
  | None => st
  end.
Proof.
  unfold first_hit. induction reqs as [|r reqs IH]; simpl; [done|].
  rewrite filter_cons. destruct (skill_hit threshold c r) eqn:Hr.
  - by rewrite decide_True.
  - by rewrite decide_False.
Qed.

Lemma match_one_perm c reqs st :
  (match_one threshold c reqs st).1 ++ (match_one threshold c reqs st).2
  ≡ₚ st.1 ++ st.2.
Proof.
  rewrite match_one_first_hit.
  destruct (first_hit threshold c reqs) as [r|]; [|done].
  case_bool_decide as Hr; [|done]. simpl.
  rewrite <- (assoc_L (++)). simpl.
  by rewrite <- (list_remove_first_perm r st.2 Hr).
Qed.

Lemma match_loop_perm cands reqs st :
  let out := foldl (λ st c, match_one threshold c reqs st) st cands in
  out.1 ++ out.2 ≡ₚ st.1 ++ st.2.
Proof.
  revert st. induction cands as [|c cands IH]; intros st; simpl; [done|].
  etrans; [apply IH|]. apply match_one_perm.
Qed.

(** [matched_skills] and [missing_skills] together are the required skills,
    each as often as it was required. *)
Lemma match_skills_at_perm cands reqs :
  (match_skills_at threshold cands reqs).1
  ++ (match_skills_at threshold cands reqs).2 ≡ₚ reqs.
Proof. apply (match_loop_perm cands reqs ([], reqs)). Qed.

Lemma match_loop_matched cands reqs st r :
  st.1 ++ st.2 ≡ₚ reqs →
  r ∈ (foldl (λ st c, match_one threshold c reqs st) st cands).1 ↔
  r ∈ st.1 ∨ ∃ c, c ∈ cands ∧ first_hit threshold c reqs = Some r.
Proof.
  revert st. induction cands as [|c cands IH]; intros st Hperm; simpl.
  { split; [by left|]. intros [?|(c & []%elem_of_nil & _)]; done. }
  rewrite IH by (by rewrite match_one_perm).
  rewrite match_one_first_hit.
  destruct (first_hit threshold c reqs) as [r'|] eqn:Hfirst.
  - case_bool_decide as Hr'; simpl.
    + rewrite elem_of_app, list_elem_of_singleton. split.
      * intros [[?| ->]|(c' & ? & ?)]; [by left|right..].
        -- exists c. split; [left|done].
        -- exists c'. split; [by right|done].
      * intros [?|(c' & [->|?]%elem_of_cons & Hc')]; [by left; left|..].
        -- left; right. congruence.
        -- right. by exists c'.
    + split.
      * intros [?|(c' & ? & ?)]; [by left|right].
        exists c'. split; [by right|done].
      * intros [?|(c' & [->|?]%elem_of_cons & Hc')]; [by left|..].
        -- left. rewrite Hfirst in Hc'. injection Hc' as <-.
           apply first_hit_elem in Hfirst.
           rewrite <- Hperm, elem_of_app in Hfirst. tauto.
        -- right. by exists c'.
  - split.
    + intros [?|(c' & ? & ?)]; [by left|right].
      exists c'. split; [by right|done].
    + intros [?|(c' & [->|?]%elem_of_cons & Hc')]; [by left|congruence|].
      right. by exists c'.
Qed.

(** A required skill is matched exactly when it is the first hit of some
    candidate skill. *)
Lemma match_skills_at_matched cands reqs r :
  r ∈ (match_skills_at threshold cands reqs).1 ↔
  ∃ c, c ∈ cands ∧ first_hit threshold c reqs = Some r.
Proof.
  unfold match_skills_at. rewrite match_loop_matched by done. simpl.
  split; [intros [[]%elem_of_nil|?]; done|by right].
Qed.

Lemma match_skills_at_NoDup cands reqs :
  NoDup reqs →
  NoDup ((match_skills_at threshold cands reqs).1
         ++ (match_skills_at threshold cands reqs).2).
Proof. intros Hnd. by rewrite match_skills_at_perm. Qed.

Lemma match_skills_at_length cands reqs :
  length (match_skills_at threshold cands reqs).1 ≤ length reqs.
Proof.
  rewrite <- (match_skills_at_perm cands reqs) at 2.
  rewrite length_app. lia.
Qed.
End match_skills_facts.

(** ** The matcher as a filter over first occurrences *)

Lemma Qlt_bool_iff x y : Qlt_bool x y = true ↔ (x < y)%Q.
Proof.
  unfold Qlt_bool. rewrite negb_true_iff, <- not_true_iff_false, Qle_bool_iff.
  split; [apply Qnot_le_lt|apply Qlt_not_le].
Qed.

Section matcher_facts.
Variable required_skills : list string.
Variable min_experience : Q.

Let step := match_step required_skills min_experience.
Let result := result_of required_skills min_experience.
Let pass (x : string * resume_entry) :=
  passes required_skills min_experience (info x.2) = true.

Lemma match_step_eq st x :
  step st x =
  if bool_decide (item_key x ∈ st.2) then st
  else (st.1 ++ (if passes required_skills min_experience (info x.2)
                 then [result x] else []),
        {[item_key x]} ∪ st.2).
Proof.
  destruct x as [resume_id resume_data], st as [acc seen].
  unfold step, match_step, item_key, passes, result, result_of. simpl.
  case_bool_decide; [done|].
  destruct (Qlt_bool _ _); simpl; [by rewrite app_nil_r|].
  destruct (match_skills _ _) as [matched missing]. simpl.
  destruct (_ && _); simpl; [by rewrite app_nil_r|done].
Qed.

Lemma match_loop_first_seen data acc seen :
  (foldl step (acc, seen) data).1 =
  acc ++ (result <$> filter pass (first_seen seen data)).
Proof.
  revert acc seen. induction data as [|x data IH]; intros acc seen; simpl.
  { by rewrite app_nil_r. }
  rewrite match_step_eq. simpl. case_bool_decide; [apply IH|].
  rewrite IH, filter_cons. destruct (decide (pass x)) as [Hp|Hp].
  - unfold pass in Hp. rewrite Hp. by rewrite <- (assoc_L (++)).
  - unfold pass in Hp. apply not_true_is_false in Hp. rewrite Hp.
    by rewrite app_nil_r.
Qed.

(** [match_candidates] maps the records it keeps to their dictionaries. *)
Lemma match_candidates_kept data :
  match_candidates data required_skills min_experience =
  result <$> kept required_skills min_experience data.
Proof. unfold match_candidates. by rewrite match_loop_first_seen. Qed.
End matcher_facts.

Section first_seen_facts.
Implicit Types (seen : gset string) (data : list (string * resume_entry)).

Lemma first_seen_fresh seen data x :
  x ∈ first_seen seen data → item_key x ∉ seen.
Proof.
  revert seen. induction data as [|y data IH]; intros seen; simpl.
  { by intros ?%elem_of_nil. }
  case_bool_decide as Hy; [apply IH|].
  intros [->|Hx%IH]%elem_of_cons; [done|set_solver].
Qed.

Lemma first_seen_sublist seen data :
  (first_seen seen data) `sublist_of` data.
Proof.
  revert seen. induction data as [|y data IH]; intros seen; simpl; [done|].
  case_bool_decide; [by apply sublist_cons|by apply sublist_skip].
Qed.

Lemma first_seen_NoDup seen data : NoDup (item_key <$> first_seen seen data).
Proof.
  revert seen. induction data as [|y data IH]; intros seen; simpl.
  { constructor. }
  case_bool_decide as Hy; [apply IH|]. rewrite fmap_cons.
  constructor; [|apply IH].
  intros (x & Hk & Hx%first_seen_fresh)%list_elem_of_fmap. set_solver.
Qed.

(** A record is a first occurrence when no record before it has its key. *)
Lemma elem_of_first_seen seen data x :
  x ∈ first_seen seen data ↔
  ∃ i, data !! i = Some x ∧ (item_key x ∉ seen) ∧
       (∀ j y, j < i → data !! j = Some y → item_key y ≠ item_key x).
Proof.
  revert seen. induction data as [|y data IH]; intros seen; simpl.
  { split; [by intros ?%elem_of_nil|by intros (i & ? & _)]. }
  case_bool_decide as Hy.
  - rewrite IH. split.
    + intros (i & Hi & Hx & Hbefore). exists (S i).
      split_and!; [done..|]. intros [|j] z Hj; simpl.
      * intros [= <-]. congruence.
      * apply Hbefore. lia.
    + intros ([|i] & Hi & Hx & Hbefore); simpl in Hi.
      * congruence.
      * exists i. split_and!; [done..|].
        intros j z Hj Hz. apply (Hbefore (S j)); [lia|done].
  - rewrite elem_of_cons, IH. split.
    + intros [->|(i & Hi & Hx & Hbefore)].
      * exists 0. split_and!; [done..|]. lia.
      * exists (S i). split_and!; [done|clear -Hx; set_solver|].
        intros [|j] z Hj; simpl.
        -- intros [= <-]. clear -Hx. set_solver.
        -- apply Hbefore. lia.
    + intros ([|i] & Hi & Hx & Hbefore); simpl in Hi.
      * left. congruence.
      * right. exists i. split_and!; [done| |].
        -- specialize (Hbefore 0 y). simpl in Hbefore.
           assert (item_key y ≠ item_key x) as Hne
             by (apply Hbefore; [lia|done]).
           intros [Hin%elem_of_singleton|Hin]%elem_of_union; [|done].
           by apply Hne.
        -- intros j z Hj Hz. apply (Hbefore (S j)); [lia|done].
Qed.
End first_seen_facts.

Section kept_facts.
Variable required_skills : list string.
Variable min_experience : Q.
Implicit Types (data : list (string * resume_entry)).

Lemma passes_iff resume_info :
  passes required_skills min_experience resume_info = true ↔
  ¬ (total_experience_years resume_info < min_experience)%Q ∧
  ¬ (required_skills ≠ [] ∧
     (match_skills (skills resume_info) required_skills).1 = []).
Proof.
  unfold passes.
  rewrite andb_true_iff, !negb_true_iff, <- !not_true_iff_false.
  rewrite Qlt_bool_iff, andb_true_iff, Nat.eqb_eq, bool_decide_eq_true.
  rewrite length_zero_iff_nil. tauto.
Qed.

Lemma elem_of_kept data x :
  x ∈ kept required_skills min_experience data ↔
  passes required_skills min_experience (info x.2) = true ∧
  ∃ i, data !! i = Some x ∧
       ∀ j y, j < i → data !! j = Some y → item_key y ≠ item_key x.
Proof.
  unfold kept. rewrite list_elem_of_filter, elem_of_first_seen.
  split; intros [? (i & ? & ?)]; (split; [done|exists i]).
  - tauto.
  - split_and!; [tauto|set_solver|tauto].
Qed.

Lemma kept_sublist data :
  (kept required_skills min_experience data) `sublist_of` data.
Proof.
  unfold kept. etrans; [apply sublist_filter|apply first_seen_sublist].
Qed.

Lemma kept_NoDup_keys data :
  NoDup (item_key <$> kept required_skills min_experience data).
Proof.
  eapply sublist_NoDup; [apply (first_seen_NoDup ∅ data)|].
  apply fmap_sublist, sublist_filter.
Qed.

Lemma elem_of_match_candidates data m :
  m ∈ match_candidates data required_skills min_experience ↔
  ∃ x, x ∈ kept required_skills min_experience data ∧
       m = result_of required_skills min_experience x.
Proof.
  rewrite match_candidates_kept, list_elem_of_fmap.
  split; intros (x & ? & ?); by exists x.
Qed.
End kept_facts.

(** In a mapping every identifier has one record. *)
Lemma NoDup_ids_record (data : list (string * resume_entry)) id r1 r2 :
  NoDup data.*1 → (id, r1) ∈ data → (id, r2) ∈ data → r1 = r2.
Proof.
  induction data as [|[id' r'] data IH]; simpl.
  { by intros _ ?%elem_of_nil. }
  rewrite NoDup_cons. intros [Hid Hnd] H1 H2.
  apply elem_of_cons in H1 as [H1|H1], H2 as [H2|H2]; simplify_eq; auto.
  - destruct Hid. by apply (list_elem_of_fmap_2 fst) in H2.
  - destruct Hid. by apply (list_elem_of_fmap_2 fst) in H1.
Qed.

Lemma skill_match_score_bounds (matched required : list string) :
  length matched ≤ length required →
  (0 <= skill_match_score matched required <= 1)%Q.
Proof.
  intros Hlen. unfold skill_match_score.
  destruct required as [|r required]; [lra|].
  set (n := length (r :: required)) in *.
  assert (0 < inject_Z (Z.of_nat n))%Q as Hpos.
  { change 0%Q with (inject_Z 0). rewrite <- Zlt_Qlt. subst n. simpl. lia. }
  split.
  - apply Qle_shift_div_l; [done|]. rewrite Qmult_0_l.
    change 0%Q with (inject_Z 0). rewrite <- Zle_Qle. lia.
  - apply Qle_shift_div_r; [done|]. rewrite Qmult_1_l.
    rewrite <- Zle_Qle. lia.
Qed.

Lemma experience_score_bounds total min_experience :
  (0 <= min_experience)%Q → ¬ (total < min_experience)%Q →
  (0 <= experience_score total min_experience <= 1)%Q.
Proof.
  intros Hmin Htotal%Qnot_lt_le. unfold experience_score.
  destruct (Qlt_bool 0 min_experience); [|lra].
  destruct (Q.min_spec 1 ((total - min_experience) / 5)) as [[? ->]|[? ->]].
  - lra.
  - split; [|lra]. apply Qle_shift_div_l; lra.
Qed.

(** ** Matched and missing skills *)

(** C1. For every mapping of candidate records, every required-skill list
    without duplicates and every minimum experience, each result of the
    matcher has disjoint [matched_skills] and [missing_skills], and the two
    together are, as sets, the required skills. *)
Theorem matched_missing_partition
    (data : list (string * resume_entry)) (required_skills : list string)
    (min_experience : Q) (m : candidate_match) :
  NoDup required_skills →
  m ∈ match_candidates data required_skills min_experience →
  (list_to_set (cm_matched_skills m) : gset string)
    ## list_to_set (cm_missing_skills m) ∧
  list_to_set (cm_matched_skills m) ∪ list_to_set (cm_missing_skills m)
    =@{gset string} list_to_set required_skills.
Proof.
  intros Hnd (x & _ & ->)%elem_of_match_candidates. simpl.
  pose proof (match_skills_at_perm (8 # 10) (skills (info x.2))
                required_skills) as Hperm.
  fold match_skills in Hperm. split.
  - rewrite <- Hperm in Hnd. apply NoDup_app in Hnd as (_ & Hdisj & _).
    intros s. rewrite !elem_of_list_to_set. apply Hdisj.
  - rewrite <- list_to_set_app_L. by rewrite Hperm.
Qed.

Lemma matched_missing_partition_witness :
  let m := result_of ["python"; "java"] 0 sample_ann in
  (list_to_set (cm_matched_skills m) : gset string)
    ## list_to_set (cm_missing_skills m) ∧
  list_to_set (cm_matched_skills m) ∪ list_to_set (cm_missing_skills m)
    =@{gset string} list_to_set ["python"; "java"].
Proof.
  apply (matched_missing_partition sample_data ["python"; "java"] 0).
  - by_compute.
  - vm_compute. apply list_elem_of_here.
Defined.

(** C2, as the code has it.  A required skill is in the [matched_skills] of
    [match_skills] exactly when, for some candidate skill, it is the first
    required skill in list order that the candidate skill contains, is
    contained by, or is at least 0.8 similar to: the [break] lets a candidate
    skill account for one required skill only.  Each required skill is
    matched at most once: no more often than it is listed, hence once at
    most when the required skills have no duplicates. *)
Theorem matched_iff_first_hit
    (candidate_skills required_skills : list string) (r : string) :
  (r ∈ (match_skills candidate_skills required_skills).1 ↔
   ∃ c, c ∈ candidate_skills ∧ first_hit (8 # 10) c required_skills = Some r)
  ∧ length (filter (λ x, x = r)
                   (match_skills candidate_skills required_skills).1)
    ≤ length (filter (λ x, x = r) required_skills)
  ∧ (NoDup required_skills →
     NoDup (match_skills candidate_skills required_skills).1).
Proof.
  split_and!; [apply match_skills_at_matched| |].
  - rewrite <- (match_skills_at_perm (8 # 10) candidate_skills
                  required_skills) at 2.
    rewrite filter_app, length_app. unfold match_skills. lia.
  - intros Hnd%(match_skills_at_NoDup (8 # 10) candidate_skills).
    by apply NoDup_app in Hnd as (? & _).
Qed.

Lemma matched_iff_first_hit_witness :
  ("java" ∈ (match_skills ["javascript"] ["java"; "javascript"]).1 ↔
   ∃ c, c ∈ ["javascript"] ∧
        first_hit (8 # 10) c ["java"; "javascript"] = Some "java")
  ∧ NoDup (match_skills ["javascript"] ["java"; "javascript"]).1.
Proof.
  destruct (matched_iff_first_hit ["javascript"] ["java"; "javascript"] "java")
    as (Hiff & _ & Hnd).
  split; [exact Hiff|]. apply Hnd.
  by_compute.
Defined.

(** C2, as stated, fails: the candidate skill [javascript] contains the
    required skill [javascript], yet it is spent on [java], the first
    required skill it hits, and [javascript] is reported missing. *)
Lemma contained_skill_not_matched :
  ¬ (∀ candidate_skills required_skills r c,
       NoDup candidate_skills → NoDup required_skills →
       r ∈ required_skills → c ∈ candidate_skills →
       Text.contains (Text.lower r) (Text.lower c) = true
       ∨ Text.contains (Text.lower c) (Text.lower r) = true
       ∨ (8 # 10 <= similarity_score c r)%Q →
       r ∈ (match_skills candidate_skills required_skills).1).
Proof.
  intros Hclaim.
  specialize (Hclaim ["javascript"] ["java"; "javascript"]
                     "javascript" "javascript").
  assert ("javascript" ∈ (match_skills ["javascript"]
                            ["java"; "javascript"]).1) as Hin.
  { apply Hclaim.
    - by_compute.
    - by_compute.
    - by_compute.
    - apply list_elem_of_here.
    - left. vm_compute. reflexivity. }
  assert (bool_decide ("javascript" ∈ (match_skills ["javascript"]
                                         ["java"; "javascript"]).1) = false)
    as Hout by (vm_compute; reflexivity).
  by apply bool_decide_eq_false_1 in Hout.
Qed.

Example javascript_spent_on_java :
  match_skills ["javascript"] ["java"; "javascript"]
  = (["java"], ["javascript"]).
Proof. vm_compute. reflexivity. Qed.

(** ** Scores *)

Lemma skill_match_score_spec (matched required : list string) :
  skill_match_score matched required
  = spec_skill_score (length matched) (length required).
Proof. by destruct required. Qed.

Lemma experience_score_spec total min_experience :
  ¬ (total < min_experience)%Q →
  (experience_score total min_experience
   == spec_experience_score total min_experience)%Q.
Proof.
  intros Htotal%Qnot_lt_le. unfold experience_score, spec_experience_score.
  destruct (Qlt_bool 0 min_experience); [|reflexivity].
  unfold clamp. symmetry. apply Q.max_r, Q.min_glb; [lra|].
  apply Qle_shift_div_l; lra.
Qed.

Lemma match_skills_python_java :
  match_skills ["python"] ["python"; "java"] = (["python"], ["java"]).
Proof. vm_compute. reflexivity. Qed.

Lemma match_skills_java_python :
  match_skills ["python"] ["java"; "python"] = (["python"], ["java"]).
Proof. vm_compute. reflexivity. Qed.

(** C3. Every result of the matcher belongs to a record of the input and
    carries the skills [match_skills] computed for it; its score is
    0.7 * skillScore + 0.3 * experienceScore, with skillScore the matched
    count over the required count (1 when nothing is required) and
    experienceScore the clamp of (total - min) / 5 to [0, 1] when
    min > 0 and 0.5 otherwise.  Scenario B: for the required skills
    python and java, in either order, a candidate with the one skill python
    and no minimum experience gets matched [python], missing [java] and
    score 0.5 (the candidate's total experience being non-negative). *)
Theorem score_formula
    (data : list (string * resume_entry)) (required_skills : list string)
    (min_experience : Q) (m : candidate_match) :
  m ∈ match_candidates data required_skills min_experience →
  (∃ x, x ∈ data ∧ cm_resume_id m = x.1 ∧
        cm_matched_skills m
          = (match_skills (skills (info x.2)) required_skills).1 ∧
        cm_missing_skills m
          = (match_skills (skills (info x.2)) required_skills).2 ∧
        (cm_match_score m ==
         spec_match_score
           (spec_skill_score (length (cm_matched_skills m))
                             (length required_skills))
           (spec_experience_score (total_experience_years (info x.2))
                                  min_experience))%Q)
  ∧ (∀ id rd req,
       skills (info rd) = ["python"] →
       (0 <= total_experience_years (info rd))%Q →
       req = ["python"; "java"] ∨ req = ["java"; "python"] →
       ∃ m', match_candidates [(id, rd)] req 0 = [m'] ∧
             cm_matched_skills m' = ["python"] ∧
             cm_missing_skills m' = ["java"] ∧
             (cm_match_score m' == 1 # 2)%Q).
Proof.
  intros (x & Hx & ->)%elem_of_match_candidates. split.
  - exists x. apply elem_of_kept in Hx as [Hpass (i & Hi & _)].
    apply passes_iff in Hpass as [Htotal _].
    split_and!; [by eapply list_elem_of_lookup_2|done..|]. simpl.
    unfold match_score, spec_match_score.
    rewrite skill_match_score_spec, (experience_score_spec _ _ Htotal). ring.
  - intros id rd req Hskills Htotal Hreq.
    assert (Qlt_bool (total_experience_years (info rd)) 0 = false) as Hlt.
    { apply not_true_iff_false. rewrite Qlt_bool_iff. lra. }
    unfold match_candidates. simpl. rewrite bool_decide_eq_false_2 by set_solver.
    rewrite Hlt, Hskills.
    destruct Hreq as [-> | ->];
      [rewrite match_skills_python_java|rewrite match_skills_java_python];
      simpl; (eexists; split_and!; [reflexivity..|]); simpl;
      unfold match_score, experience_score; simpl; reflexivity.
Qed.

Lemma score_formula_witness :
  let m := result_of ["python"; "java"] 0 sample_ann in
  (∃ x, x ∈ sample_data ∧ cm_resume_id m = x.1 ∧
        cm_matched_skills m
          = (match_skills (skills (info x.2)) ["python"; "java"]).1 ∧
        cm_missing_skills m
          = (match_skills (skills (info x.2)) ["python"; "java"]).2 ∧
        (cm_match_score m ==
         spec_match_score
           (spec_skill_score (length (cm_matched_skills m)) 2)
           (spec_experience_score (total_experience_years (info x.2)) 0))%Q)
  ∧ (∀ id rd req,
       skills (info rd) = ["python"] →
       (0 <= total_experience_years (info rd))%Q →
       req = ["python"; "java"] ∨ req = ["java"; "python"] →
       ∃ m', match_candidates [(id, rd)] req 0 = [m'] ∧
             cm_matched_skills m' = ["python"] ∧
             cm_missing_skills m' = ["java"] ∧
             (cm_match_score m' == 1 # 2)%Q).
Proof.
  apply (score_formula sample_data ["python"; "java"] 0).
  vm_compute. apply list_elem_of_here.
Defined.

(** C4. For every mapping of records, every required-skill list and every
    minimum experience that is not negative, each result of the matcher has
    a score between 0 and 1. *)
Theorem match_score_bounds
    (data : list (string * resume_entry)) (required_skills : list string)
    (min_experience : Q) (m : candidate_match) :
  (0 <= min_experience)%Q →
  m ∈ match_candidates data required_skills min_experience →
  (0 <= cm_match_score m <= 1)%Q.
Proof.
  intros Hmin (x & Hx & ->)%elem_of_match_candidates. simpl.
  apply elem_of_kept in Hx as [[Htotal _]%passes_iff _].
  pose proof (skill_match_score_bounds
                (match_skills (skills (info x.2)) required_skills).1
                required_skills
                (match_skills_at_length _ _ _)) as Hskill.
  pose proof (experience_score_bounds _ _ Hmin Htotal) as Hexp.
  unfold match_score. lra.
Qed.

Lemma match_score_bounds_witness :
  (0 <= cm_match_score (result_of ["python"; "java"] 2 sample_ann) <= 1)%Q.
Proof.
  apply (match_score_bounds sample_data ["python"; "java"] 2).
  - vm_compute. discriminate.
  - vm_compute. apply list_elem_of_here.
Defined.

(** ** Deduplication and filtering *)

(** C6. The key of a candidate is the lower-cased email when that is not
    empty and the lower-cased name otherwise.  In a mapping of records, a
    record that shares its key with an earlier record never appears in the
    results, and no two results belong to records with the same key. *)
Theorem dedup_by_key
    (data : list (string * resume_entry)) (required_skills : list string)
    (min_experience : Q) :
  NoDup data.*1 →
  let results := match_candidates data required_skills min_experience in
  (∀ resume_info,
     candidate_key resume_info =
     let email := default "" (contact resume_info !! "email") in
     if decide (email = "") then Text.lower (name resume_info)
     else Text.lower email)
  ∧ (∀ i j id1 r1 id2 r2,
       i < j → data !! i = Some (id1, r1) → data !! j = Some (id2, r2) →
       candidate_key (info r1) = candidate_key (info r2) →
       id2 ∉ cm_resume_id <$> results)
  ∧ (∀ p q m1 m2 r1 r2,
       p ≠ q → results !! p = Some m1 → results !! q = Some m2 →
       (cm_resume_id m1, r1) ∈ data → (cm_resume_id m2, r2) ∈ data →
       candidate_key (info r1) ≠ candidate_key (info r2)).
Proof.
  intros Hids results. split_and!.
  - intros resume_info. unfold candidate_key. simpl.
    destruct (default "" (contact resume_info !! "email")) as [|c email];
      simpl; repeat case_decide; done.
  - intros i j id1 r1 id2 r2 Hij Hi Hj Hkey
      (m & Hid & (x & Hx & ->)%elem_of_match_candidates)%list_elem_of_fmap.
    simpl in Hid. apply elem_of_kept in Hx as [_ (k & Hk & Hbefore)].
    assert (x.2 = r2) as Hr2.
    { apply (NoDup_ids_record data id2); [done| |].
      - rewrite Hid, <- surjective_pairing.
        by eapply list_elem_of_lookup_2.
      - by eapply list_elem_of_lookup_2. }
    assert (k = j) as ->.
    { eapply NoDup_lookup; [exact Hids|..].
      - by rewrite list_lookup_fmap, Hk.
      - by rewrite list_lookup_fmap, Hj, Hid. }
    apply (Hbefore i (id1, r1)); [done..|].
    unfold item_key. simpl. by rewrite Hr2.
  - intros p q m1 m2 r1 r2 Hpq Hp Hq Hr1 Hr2.
    subst results. rewrite match_candidates_kept in Hp, Hq.
    rewrite list_lookup_fmap in Hp, Hq.
    destruct (kept required_skills min_experience data !! p)
      as [x1|] eqn:Hx1; [|done].
    destruct (kept required_skills min_experience data !! q)
      as [x2|] eqn:Hx2; [|done].
    simpl in Hp, Hq. injection Hp as <-. injection Hq as <-.
    simpl in Hr1, Hr2.
    assert (∀ x r, x ∈ kept required_skills min_experience data →
                   (x.1, r) ∈ data → x.2 = r) as Hrec.
    { intros x r Hx Hr. apply (NoDup_ids_record data x.1); [done| |done].
      rewrite <- surjective_pairing.
      eapply elem_of_sublist; [exact Hx|apply kept_sublist]. }
    assert (x1.2 = r1) as <-
      by (apply Hrec; [by eapply list_elem_of_lookup_2|done]).
    assert (x2.2 = r2) as <-
      by (apply Hrec; [by eapply list_elem_of_lookup_2|done]).
    intros Hkey. apply Hpq.
    eapply NoDup_lookup; [apply (kept_NoDup_keys required_skills
                                   min_experience data)|..].
    + by rewrite list_lookup_fmap, Hx1.
    + rewrite list_lookup_fmap, Hx2. simpl. unfold item_key. by rewrite Hkey.
Qed.

(** Scenario E: the third sample record has the email of the first one in
    another letter case, and is dropped. *)
Lemma dedup_by_key_witness :
  "id3" ∉ cm_resume_id <$> match_candidates sample_data ["python"] 0.
Proof.
  assert (NoDup sample_data.*1) as Hids by by_compute.
  destruct (dedup_by_key sample_data ["python"] 0 Hids) as (_ & Hdrop & _).
  apply (Hdrop 0 2 "id1" (sample_ann.2) "id3" (sample_ann2.2));
    [lia|reflexivity|reflexivity|vm_compute; reflexivity].
Defined.

(** C7. In a mapping of records, a record appears in the results of the
    matcher exactly when no earlier record has its key, its total experience
    is not below the minimum, and it is not the case that skills are
    required and none matched.  Scenario C: a candidate with 1 year of
    experience is left out when 3 are asked for, whatever the skills. *)
Theorem appears_iff
    (data : list (string * resume_entry)) (required_skills : list string)
    (min_experience : Q) (i : nat) (id : string) (rd : resume_entry) :
  NoDup data.*1 →
  data !! i = Some (id, rd) →
  (id ∈ cm_resume_id <$> match_candidates data required_skills min_experience
   ↔ (∀ j y, j < i → data !! j = Some y →
             candidate_key (info y.2) ≠ candidate_key (info rd))
     ∧ ¬ (total_experience_years (info rd) < min_experience)%Q
     ∧ ¬ (required_skills ≠ [] ∧
          (match_skills (skills (info rd)) required_skills).1 = []))
  ∧ ((total_experience_years (info rd) == 1)%Q → (min_experience == 3)%Q →
     id ∉ cm_resume_id <$> match_candidates data required_skills min_experience).
Proof.
  intros Hids Hi.
  assert (id ∈ cm_resume_id <$>
            match_candidates data required_skills min_experience
          ↔ (id, rd) ∈ kept required_skills min_experience data) as Hkept.
  { rewrite list_elem_of_fmap. split.
    - intros (m & -> & (x & Hx & ->)%elem_of_match_candidates). simpl.
      assert (x.2 = rd) as <-; [|by rewrite <- surjective_pairing].
      apply (NoDup_ids_record data x.1); [done|..].
      + rewrite <- surjective_pairing.
        eapply elem_of_sublist; [exact Hx|apply kept_sublist].
      + by eapply list_elem_of_lookup_2.
    - intros Hx. exists (result_of required_skills min_experience (id, rd)).
      split; [done|]. apply elem_of_match_candidates. by exists (id, rd). }
  assert (id ∈ cm_resume_id <$>
            match_candidates data required_skills min_experience
          ↔ (∀ j y, j < i → data !! j = Some y →
                    candidate_key (info y.2) ≠ candidate_key (info rd))
            ∧ ¬ (total_experience_years (info rd) < min_experience)%Q
            ∧ ¬ (required_skills ≠ [] ∧
                 (match_skills (skills (info rd)) required_skills).1 = []))
    as Hiff.
  { rewrite Hkept, elem_of_kept, passes_iff. simpl. split.
    - intros [Hpass (k & Hk & Hbefore)].
      assert (k = i) as ->.
      { eapply NoDup_lookup; [exact Hids|..].
        - by rewrite list_lookup_fmap, Hk.
        - by rewrite list_lookup_fmap, Hi. }
      split; [exact Hbefore|exact Hpass].
    - intros (Hbefore & Hpass). split; [exact Hpass|]. by exists i. }
  split; [exact Hiff|].
  intros Htotal Hmin Hin. apply Hiff in Hin as (_ & Hexp & _).
  apply Hexp. rewrite Htotal, Hmin. reflexivity.
Qed.

(** The second sample record has 1 year of experience and both required
    skills; with a minimum of 3 years it is left out. *)
Lemma appears_iff_witness :
  "id2" ∉ cm_resume_id <$> match_candidates sample_data ["java"; "python"] 3.
Proof.
  assert (NoDup sample_data.*1) as Hids by by_compute.
  destruct (appears_iff sample_data ["java"; "python"] 3 1 "id2"
              (sample_bob.2) Hids eq_refl) as [_ Hout].
  apply Hout; reflexivity.
Defined.

(** ** Ranking *)

Section sorted_desc_facts.
Variable key : loc → Q.

Lemma insert_desc_perm x l : insert_desc key x l ≡ₚ x :: l.
Proof.
  induction l as [|y l IH]; simpl; [done|].
  destruct (Qlt_bool (key x) (key y)); [|done].
  rewrite IH. apply Permutation_swap.
Qed.

Lemma sorted_desc_perm l : sorted_desc key l ≡ₚ l.
Proof.
  induction l as [|x l IH]; simpl; [done|].
  by rewrite insert_desc_perm, IH.
Qed.

Lemma insert_desc_descending x l :
  descending key l → descending key (insert_desc key x l).
Proof.
  unfold descending. induction 1 as [|y l Hl IH Hy]; simpl.
  { repeat constructor. }
  destruct (Qlt_bool (key x) (key y)) eqn:Hxy.
  - apply Qlt_bool_iff in Hxy. constructor; [done|].
    rewrite insert_desc_perm. constructor; [lra|done].
  - apply not_true_iff_false in Hxy. rewrite Qlt_bool_iff in Hxy.
    apply Qnot_lt_le in Hxy.
    constructor; [by constructor|]. constructor; [done|].
    eapply Forall_impl; [exact Hy|]. simpl. intros z Hz. lra.
Qed.

Lemma sorted_desc_descending l : descending key (sorted_desc key l).
Proof.
  induction l as [|x l IH]; simpl; [constructor|].
  by apply insert_desc_descending.
Qed.

Lemma descending_lookup l i j a b :
  descending key l → i < j → l !! i = Some a → l !! j = Some b →
  (key b <= key a)%Q.
Proof.
  unfold descending. intros Hl. revert i j.
  induction Hl as [|y l Hl IH Hy]; intros i j Hij Hi Hj; [done|].
  destruct j as [|j]; [lia|]. simpl in Hj. destruct i as [|i]; simpl in Hi.
  - injection Hi as ->. rewrite Forall_forall in Hy.
    by eapply Hy, list_elem_of_lookup_2.
  - apply (IH i j); [lia|done..].
Qed.

(** Elements of equal key keep their order. *)
Lemma insert_desc_stable q x l :
  filter (λ z, key z == q)%Q (insert_desc key x l)
  = filter (λ z, key z == q)%Q (x :: l).
Proof.
  induction l as [|y l IH]; simpl; [done|].
  destruct (Qlt_bool (key x) (key y)) eqn:Hxy; [|done].
  apply Qlt_bool_iff in Hxy.
  rewrite filter_cons, IH, !filter_cons.
  destruct (decide (key y == q)%Q) as [Hy|Hy],
           (decide (key x == q)%Q) as [Hx|Hx]; try done.
  rewrite Hx, Hy in Hxy. by apply Qlt_irrefl in Hxy.
Qed.

Lemma sorted_desc_stable q l :
  filter (λ z, key z == q)%Q (sorted_desc key l)
  = filter (λ z, key z == q)%Q l.
Proof.
  induction l as [|x l IH]; simpl; [done|].
  by rewrite insert_desc_stable, !filter_cons, IH.
Qed.
End sorted_desc_facts.

(** A stable sort into descending keys has one possible result, whatever
    the algorithm: two descending lists that list the elements of each key
    in the same order are equal. *)
Lemma stable_descending_unique (key : loc → Q) (l1 l2 : list loc) :
  descending key l1 → descending key l2 →
  (∀ q, filter (λ z, key z == q)%Q l1 = filter (λ z, key z == q)%Q l2) →
  l1 = l2.
Proof.
  unfold descending. intros Hl1. revert l2.
  induction Hl1 as [|x l1 Hl1 IH Hx]; intros l2 Hl2 Hsame.
  - destruct l2 as [|y l2]; [done|].
    specialize (Hsame (key y)). rewrite filter_cons in Hsame.
    by rewrite decide_True in Hsame by reflexivity.
  - destruct Hl2 as [|y l2 Hl2 Hy].
    + specialize (Hsame (key x)). rewrite filter_cons in Hsame.
      by rewrite decide_True in Hsame by reflexivity.
    + assert (x ∈ y :: l2) as Hxin.
      { pose proof (Hsame (key x)) as Hq. rewrite filter_cons in Hq.
        rewrite decide_True in Hq by reflexivity.
        eapply (list_elem_of_filter (λ z, key z == key x)%Q).
        rewrite <- Hq. left. }
      assert (y ∈ x :: l1) as Hyin.
      { pose proof (Hsame (key y)) as Hq.
        rewrite (filter_cons _ y) in Hq.
        rewrite decide_True in Hq by reflexivity.
        eapply (list_elem_of_filter (λ z, key z == key y)%Q).
        rewrite Hq. left. }
      assert (key x == key y)%Q as Hkey.
      { rewrite Forall_forall in Hx, Hy. apply Qle_antisym.
        - apply elem_of_cons in Hxin as [->|Hxin]; [lra|by apply Hy].
        - apply elem_of_cons in Hyin as [->|Hyin]; [lra|by apply Hx]. }
      assert (x = y) as <-.
      { pose proof (Hsame (key x)) as Hq. rewrite !filter_cons in Hq.
        rewrite decide_True in Hq by reflexivity.
        rewrite decide_True in Hq by (by symmetry).
        by injection Hq. }
      f_equal. apply IH; [done|]. intros q.
      specialize (Hsame q). rewrite !filter_cons in Hsame.
      destruct (decide (key x == q)%Q); [by injection Hsame|done].
Qed.

(** So [sorted_desc] returns what any stable sort by descending key
    returns. *)
Lemma sorted_desc_characterised (key : loc → Q) (l l' : list loc) :
  descending key l' →
  (∀ q, filter (λ z, key z == q)%Q l' = filter (λ z, key z == q)%Q l) →
  l' = sorted_desc key l.
Proof.
  intros Hdesc Hstable. apply (stable_descending_unique key); [done|..].
  - apply sorted_desc_descending.
  - intros q. by rewrite sorted_desc_stable.
Qed.

Lemma descending_ext (key1 key2 : loc → Q) l :
  (∀ x, key2 x = key1 x) → descending key1 l → descending key2 l.
Proof.
  intros Hkey. unfold descending. induction 1 as [|y l Hl IH Hy].
  { constructor. }
  constructor; [done|]. eapply Forall_impl; [exact Hy|].
  simpl. intros z. by rewrite !Hkey.
Qed.

Section assign_ranks_facts.
Implicit Types (h : store) (ls : list loc).

(** The loop of [assign_ranks] with its counter starting from [k]. *)
Let assign_from (k : nat) h ls : store :=
  foldl rank_step h (imap (λ i c, (k + i, c)) ls).

Lemma assign_ranks_from h ls : assign_ranks h ls = assign_from 0 h ls.
Proof. done. Qed.

Lemma assign_from_cons k h c ls :
  assign_from k h (c :: ls)
  = assign_from (S k) (alter (set_rank (k + 1)) c h) ls.
Proof.
  unfold assign_from. rewrite imap_cons. simpl.
  rewrite Nat.add_0_r. f_equal. apply imap_ext. intros i x _. simpl.
  f_equal. lia.
Qed.

Lemma assign_from_frame k h ls l :
  l ∉ ls → assign_from k h ls !! l = h !! l.
Proof.
  revert k h. induction ls as [|c ls IH]; intros k h Hl; [done|].
  apply not_elem_of_cons in Hl as [Hne Hl].
  rewrite assign_from_cons, IH by done. by rewrite lookup_alter_ne.
Qed.

Lemma assign_from_fields k h ls l :
  clear_rank <$> assign_from k h ls !! l = clear_rank <$> h !! l.
Proof.
  revert k h. induction ls as [|c ls IH]; intros k h; [done|].
  rewrite assign_from_cons, IH.
  destruct (decide (c = l)) as [->|Hne].
  - rewrite lookup_alter_eq. by destruct (h !! l).
  - by rewrite lookup_alter_ne.
Qed.

Lemma assign_from_rank k h ls i l :
  NoDup ls → ls !! i = Some l → is_Some (h !! l) →
  assign_from k h ls !! l ≫= cm_rank = Some (k + i + 1).
Proof.
  revert k h i. induction ls as [|c ls IH]; intros k h i Hnd Hi Hl; [done|].
  apply NoDup_cons in Hnd as [Hc Hnd]. rewrite assign_from_cons.
  destruct i as [|i]; simpl in Hi.
  - injection Hi as ->. rewrite assign_from_frame by done.
    rewrite lookup_alter_eq. destruct Hl as [c0 ->]. simpl.
    f_equal. lia.
  - rewrite (IH (S k) _ i); [f_equal; lia|done..|].
    destruct (decide (c = l)) as [->|Hne].
    + rewrite lookup_alter_eq. by apply fmap_is_Some.
    + by rewrite lookup_alter_ne.
Qed.

Lemma assign_ranks_fields h ls l :
  clear_rank <$> assign_ranks h ls !! l = clear_rank <$> h !! l.
Proof. rewrite assign_ranks_from. apply assign_from_fields. Qed.

Lemma assign_ranks_rank h ls i l :
  NoDup ls → ls !! i = Some l → is_Some (h !! l) →
  assign_ranks h ls !! l ≫= cm_rank = Some (i + 1).
Proof. rewrite assign_ranks_from. apply (assign_from_rank 0). Qed.

Lemma assign_ranks_score h ls l :
  score_at (assign_ranks h ls) l = score_at h l.
Proof.
  unfold score_at. pose proof (assign_ranks_fields h ls l) as Hf.
  destruct (assign_ranks h ls !! l) as [c'|], (h !! l) as [c|];
    simplify_eq/=; [|done].
  by destruct c', c; simplify_eq/=.
Qed.

Lemma assign_ranks_ranks h ls :
  NoDup ls → (∀ l, l ∈ ls → is_Some (h !! l)) →
  (λ l, assign_ranks h ls !! l ≫= cm_rank) <$> ls
  = Some <$> seq 1 (length ls).
Proof.
  intros Hnd Hh. apply list_eq. intros i.
  rewrite !list_lookup_fmap. destruct (ls !! i) as [l|] eqn:Hi; simpl.
  - rewrite (assign_ranks_rank h ls i l), lookup_seq_lt;
      [|by eapply lookup_lt_Some|done..|by eapply Hh, list_elem_of_lookup_2].
    simpl. do 2 f_equal. lia.
  - apply lookup_ge_None in Hi. by rewrite lookup_seq_ge.
Qed.
End assign_ranks_facts.



Lemma score_at_lookup (h : store) l c :
  h !! l = Some c → score_at h l = cm_match_score c.
Proof. unfold score_at. by intros ->. Qed.




Example ranking_sample :
  (rank_candidates sample_objects.1 sample_objects.2 []).2 = [1; 0; 2].
Proof. vm_compute. reflexivity. Qed.

(** The candidates have to be distinct objects for the ranks to be
    1, 2, ..., N: an object that is listed twice keeps the rank written
    last. *)
Example ranking_shared_object :
  let out := rank_candidates sample_objects.1 [0; 0] [] in
  out.2 = [0; 0] ∧ (λ l, out.1 !! l ≫= cm_rank) <$> out.2 = [Some 2; Some 2].
Proof. vm_compute. done. Qed.

(** C10. For every list of candidates and every required-skill list, the
    list [rank_candidates] returns is a permutation of the list it was given;
    the store holds the same objects, changed in their rank only; and the
    required skills play no part. *)
Theorem ranking_permutes
    (h : store) (candidates : list loc) (required_skills : list string) :
  let out := rank_candidates h candidates required_skills in
  out.2 ≡ₚ candidates
  ∧ dom out.1 = dom h
  ∧ (∀ l, clear_rank <$> out.1 !! l = clear_rank <$> h !! l)
  ∧ (∀ other_skills, rank_candidates h candidates other_skills = out).
Proof.
  simpl. split_and!.
  - apply sorted_desc_perm.
  - apply set_eq. intros l. rewrite !elem_of_dom.
    rewrite <- (fmap_is_Some clear_rank), assign_ranks_fields.
    by rewrite fmap_is_Some.
  - intros l. apply assign_ranks_fields.
  - done.
Qed.

(** The pipeline of [search]: the objects it ranks are the fresh
    dictionaries of the matcher, so they are distinct, and the list it
    returns holds the results of the matcher, ranked 1, 2, ..., N. *)
Lemma search_ranked
    (data : list (string * resume_entry)) (required_skills : list string)
    (min_experience : Q) :
  let ms := match_candidates data required_skills min_experience in
  let out := search data required_skills min_experience in
  (λ l, clear_rank <$> out.1 !! l) <$> out.2 ≡ₚ Some <$> (clear_rank <$> ms)
  ∧ (λ l, out.1 !! l ≫= cm_rank) <$> out.2 = Some <$> seq 1 (length ms)
  ∧ descending (score_at out.1) out.2.
Proof.
  intros ms out. subst out. unfold search. fold ms. simpl. split_and!.
  - rewrite sorted_desc_perm.
    match goal with |- ?X ≡ₚ ?Y => enough (X = Y) as -> by done end.
    apply list_eq. intros i.
    rewrite !list_lookup_fmap. destruct (decide (i < length ms)) as [Hi|Hi].
    + rewrite lookup_seq_lt by done. simpl.
      rewrite assign_ranks_fields, lookup_map_seq_0.
      destruct (lookup_lt_is_Some_2 ms i Hi) as [m Hm]. by rewrite Hm.
    + rewrite lookup_seq_ge by lia. by rewrite lookup_ge_None_2 by lia.
  - rewrite assign_ranks_ranks.
    + by rewrite sorted_desc_perm, length_seq.
    + rewrite sorted_desc_perm. apply NoDup_seq.
    + intros l. rewrite sorted_desc_perm, elem_of_seq, lookup_map_seq_0.
      intros [_ Hl]. by apply lookup_lt_is_Some_2.
  - eapply descending_ext; [|apply sorted_desc_descending].
    intros l. by rewrite assign_ranks_score.
Qed.

(** ** Dates *)

Module DateutilFacts.
Import Dateutil.
Local Open Scope Z_scope.

Lemma lex_lt_asym x y : lex_lt x y = true → lex_lt y x = false.
Proof.
  revert y. induction x as [|a x IH]; intros [|b y]; simpl; try done.
  rewrite orb_true_iff, andb_true_iff, Z.ltb_lt, Z.eqb_eq.
  intros [Hab|[-> Hxy]].
  - apply orb_false_iff. split; [apply Z.ltb_ge; lia|].
    apply andb_false_iff. left. apply Z.eqb_neq. lia.
  - rewrite Z.ltb_irrefl, Z.eqb_refl. simpl. by apply IH.
Qed.

Lemma dt_lt_asym d1 d2 : dt_lt d1 d2 = true → dt_lt d2 d1 = false.
Proof. apply lex_lt_asym. Qed.

Lemma dt_lt_irrefl d : dt_lt d d = false.
Proof.
  destruct (dt_lt d d) eqn:Hd; [|done].
  by rewrite (dt_lt_asym _ _ Hd) in Hd.
Qed.

(** A date in an earlier month is earlier. *)
Lemma dt_lt_month_index d1 d2 :
  1 <= month d1 <= 12 → 1 <= month d2 <= 12 →
  month_index d1 < month_index d2 → dt_lt d1 d2 = true.
Proof.
  unfold month_index, dt_lt, fields. intros H1 H2 Hlt. simpl.
  destruct (Z.ltb_spec (year d1) (year d2)) as [|Hy]; [done|]. simpl.
  assert (year d1 = year d2) as -> by lia. rewrite Z.eqb_refl. simpl.
  destruct (Z.ltb_spec (month d1) (month d2)); [done|lia].
Qed.

Lemma dt_lt_month_index_le d1 d2 :
  1 <= month d1 <= 12 → 1 <= month d2 <= 12 →
  dt_lt d1 d2 = true → month_index d1 <= month_index d2.
Proof.
  intros H1 H2 Hlt.
  destruct (Z.le_gt_cases (month_index d1) (month_index d2)) as [|Hgt];
    [done|].
  apply (dt_lt_month_index d2 d1) in Hgt; [|done..].
  by rewrite (dt_lt_asym _ _ Hgt) in Hlt.
Qed.

(** [_set_months] splits the months into years and months of one sign. *)
Lemma set_months_index n :
  years (set_months n) * 12 + months (set_months n) = n
  ∧ -11 <= months (set_months n) <= 11
  ∧ (0 <= n → 0 <= years (set_months n) ∧ 0 <= months (set_months n)).
Proof.
  unfold set_months, sign.
  destruct (Z.ltb_spec 11 (Z.abs n)) as [Hbig|Hsmall]; simpl; [|lia].
  destruct (Z.ltb_spec n 0) as [Hneg|Hpos].
  - pose proof (Z.div_mod (n * -1) 12 ltac:(lia)) as Hdm.
    pose proof (Z.mod_pos_bound (n * -1) 12 ltac:(lia)) as Hm.
    split_and!; lia.
  - pose proof (Z.div_mod (n * 1) 12 ltac:(lia)) as Hdm.
    pose proof (Z.mod_pos_bound (n * 1) 12 ltac:(lia)) as Hm.
    assert (0 <= n * 1 / 12) by (apply Z.div_pos; lia).
    split_and!; lia.
Qed.

(** Adding [n] months moves the month index by [n]. *)
Lemma radd_month_index n d :
  1 <= month d <= 12 →
  month_index (radd (set_months n) d) = month_index d + n
  ∧ 1 <= month (radd (set_months n) d) <= 12.
Proof.
  intros Hm. destruct (set_months_index n) as (Hn & Hbound & _).
  unfold month_index, radd.
  destruct (Z.eqb_spec (months (set_months n)) 0) as [H0|H0]; simpl.
  { lia. }
  destruct (Z.ltb_spec 12 (month d + months (set_months n))); simpl.
  { lia. }
  destruct (Z.ltb_spec (month d + months (set_months n)) 1); simpl; lia.
Qed.

Lemma radd_zero d : valid d → radd (set_months 0) d = d.
Proof.
  intros (_ & _ & Hd & _). unfold radd. simpl.
  rewrite Z.add_0_r, Z.min_r by lia. by destruct d.
Qed.

(** Deltas as [dateutil] gives them: the day of the month decides whether
    the last month counts. *)
Example delta_2019_2021 :
  relativedelta_between (Datetime 2021 3 30 0 0 0 0) (Datetime 2019 1 31 0 0 0 0)
  = Relativedelta 2 1
  ∧ relativedelta_between (Datetime 2019 1 31 0 0 0 0)
                          (Datetime 2021 3 30 0 0 0 0)
    = Relativedelta (-2) (-1).
Proof. split; vm_compute; reflexivity. Qed.

(** The loop of the constructor has settled when it is left: its
    condition is false at the months returned. *)
Lemma month_delta_settled dt1 dt2 :
  valid dt1 → valid dt2 →
  (if dt_lt dt1 dt2 then dt_gt else dt_lt)
    dt1 (radd (set_months (month_delta dt1 dt2)) dt2) = false.
Proof.
  intros (_ & Hm1 & _) (_ & Hm2 & _). unfold month_delta.
  set (n := (year dt1 - year dt2) * 12 + (month dt1 - month dt2)).
  destruct (dt_lt dt1 dt2) eqn:Hlt; simpl.
  - destruct (dt_gt dt1 (radd (set_months n) dt2)) eqn:Hc1; [|done].
    destruct (dt_gt dt1 (radd (set_months (n + 1)) dt2)) eqn:Hc2; [|done].
    destruct (radd_month_index (n + 1) dt2 Hm2) as [Hi Hm].
    apply dt_lt_month_index_le in Hc2; [|done..].
    unfold month_index in *. lia.
  - destruct (dt_lt dt1 (radd (set_months n) dt2)) eqn:Hc1; [|done].
    destruct (dt_lt dt1 (radd (set_months (n + -1)) dt2)) eqn:Hc2; [|done].
    destruct (radd_month_index (n + -1) dt2 Hm2) as [Hi Hm].
    apply dt_lt_month_index_le in Hc2; [|done..].
    unfold month_index in *. lia.
Qed.

(** From an earlier date to a later one the months are not negative. *)
Lemma month_delta_nonneg dt1 dt2 :
  valid dt1 → valid dt2 → dt_lt dt1 dt2 = false →
  0 <= month_delta dt1 dt2.
Proof.
  intros (_ & Hm1 & _) Hv2 Hlt. pose proof Hv2 as (_ & Hm2 & _).
  unfold month_delta. rewrite Hlt.
  set (n := (year dt1 - year dt2) * 12 + (month dt1 - month dt2)).
  assert (0 <= n) as Hn.
  { destruct (Z.le_gt_cases 0 n) as [|Hneg]; [done|].
    rewrite (dt_lt_month_index dt1 dt2) in Hlt; [done..|].
    unfold month_index. lia. }
  simpl.
  destruct (dt_lt dt1 (radd (set_months n) dt2)) eqn:Hc1; [|done].
  assert (n ≠ 0) as Hn0.
  { intros Hn0. by rewrite Hn0, radd_zero, Hlt in Hc1. }
  destruct (dt_lt dt1 (radd (set_months (n + -1)) dt2)) eqn:Hc2; [|lia].
  destruct (radd_month_index (n + -1) dt2 Hm2) as [Hi Hm].
  apply dt_lt_month_index_le in Hc2; [|done..].
  unfold month_index in *. lia.
Qed.
End DateutilFacts.

(** ** Experience durations and the total *)

Lemma calculate_total_experience_sum (experience_list : list Experience) :
  (calculate_total_experience experience_list
   == sum_durations experience_list)%Q.
Proof.
  assert (∀ l total,
            foldl (λ total exp, total + duration_years exp)%Q total l
            == total + sum_durations l)%Q as Hfold.
  { induction l as [|exp l IH]; intros total; simpl; [lra|].
    rewrite IH. lra. }
  destruct experience_list as [|exp l]; [reflexivity|].
  unfold calculate_total_experience. rewrite Hfold. lra.
Qed.

Lemma delta_years_nonneg (dt1 dt2 : Dateutil.datetime) :
  Dateutil.valid dt1 → Dateutil.valid dt2 → Dateutil.dt_lt dt1 dt2 = false →
  (0 <= delta_years dt1 dt2)%Q.
Proof.
  intros H1 H2 Hlt. unfold delta_years, Dateutil.relativedelta_between.
  pose proof (DateutilFacts.month_delta_nonneg dt1 dt2 H1 H2 Hlt) as Hn.
  destruct (DateutilFacts.set_months_index (Dateutil.month_delta dt1 dt2))
    as (_ & _ & Hsign).
  destruct (Hsign Hn) as [Hy Hm].
  rewrite Zle_Qle in Hy, Hm. change (inject_Z 0) with 0%Q in Hy, Hm.
  assert (0 <= inject_Z (Dateutil.months
            (Dateutil.set_months (Dateutil.month_delta dt1 dt2))) / 12)%Q.
  { apply Qle_shift_div_l; [reflexivity|]. by rewrite Qmult_0_l. }
  lra.
Qed.

Section experience_facts.
Context `{Library}.
Hypothesis Hvalid : dates_valid.

Lemma calculate_duration_ok exp :
  (∀ d, start_date exp = Some d → Dateutil.valid d) →
  (∀ d, end_date exp = Some d → Dateutil.valid d) →
  duration_years exp = 0%Q →
  entry_ok (calculate_duration exp).
Proof.
  intros Hs He H0. unfold calculate_duration, entry_ok, expected_duration.
  destruct (start_date exp) as [s|] eqn:Hstart,
           (end_date exp) as [e|] eqn:Hend; simpl;
    rewrite ?Hstart, ?Hend; auto.
Qed.

Lemma parse_dates_ok date_text exp :
  start_date exp = None → end_date exp = None → duration_years exp = 0%Q →
  entry_ok (parse_dates date_text exp).
Proof.
  intros Hs He H0. destruct Hvalid as [Hparse Hnow].
  assert (entry_ok exp) as Hexp.
  { unfold entry_ok. rewrite Hs, He. split_and!; [done..|by left]. }
  assert (∀ s, Dateutil.valid s → entry_ok (set_start_date s exp)) as Hstart.
  { intros s Hv. unfold entry_ok, expected_duration. simpl. rewrite He.
    split_and!; [by intros ? [= <-]|done|by left]. }
  unfold parse_dates.
  destruct (existsb _ separators).
  - destruct (date_parse (Text.strip (nth 0 _ ""))) as [s|] eqn:Hps; [|done].
    apply Hparse in Hps. case_decide.
    { apply calculate_duration_ok; simpl; rewrite ?He;
        [by intros ? [= <-]|done..]. }
    destruct (existsb _ ["present"; "current"; "now"]).
    { apply calculate_duration_ok; simpl;
        [by intros ? [= <-]|by intros ? [= <-]|done]. }
    destruct (date_parse _) as [e|] eqn:Hpe; [|by apply Hstart].
    apply Hparse in Hpe.
    apply calculate_duration_ok; simpl;
      [by intros ? [= <-]|by intros ? [= <-]|done].
  - destruct (date_parse date_text) as [s|] eqn:Hps; [|done].
    apply Hparse in Hps.
    apply calculate_duration_ok; simpl; rewrite ?He;
      [by intros ? [= <-]|done..].
Qed.

Lemma extract_entry_ok entry exp :
  extract_entry entry = Returned exp → entry_ok exp.
Proof.
  unfold extract_entry.
  set (exp0 := match re_search title_pattern entry with
               | Some g => set_title (Text.strip g) new_experience
               | None => new_experience
               end).
  assert (start_date exp0 = None ∧ end_date exp0 = None
          ∧ duration_years exp0 = 0%Q) as Hexp0.
  { subst exp0. by destruct (re_search title_pattern entry). }
  assert (∀ exp1 exp',
            start_date exp1 = None ∧ end_date exp1 = None
            ∧ duration_years exp1 = 0%Q →
            set_description entry
              match re_findall date_pattern true entry with
              | [] => exp1
              | date_text :: _ => parse_dates date_text exp1
              end = exp' → entry_ok exp') as Hrest.
  { intros exp1 exp' (Hs & He & H0) <-.
    destruct (re_findall date_pattern true entry) as [|date_text ?].
    - unfold entry_ok. simpl. rewrite Hs, He.
      split_and!; [done..|by left].
    - by destruct (parse_dates_ok date_text exp1 Hs He H0). }
  destruct (re_search company_pattern entry) as [g|]; simpl.
  - intros [= Hexp].
    by apply (Hrest (set_company (Text.strip g) exp0) exp).
  - destruct (nlp entry) as [entry_doc|]; simpl; [|done].
    intros [= Hexp].
    destruct (filter _ (ents entry_doc)) as [|org ?].
    + by apply (Hrest exp0 exp).
    + by apply (Hrest (set_company org.1 exp0) exp).
Qed.

Lemma extract_entries_ok job_entries experience_list :
  extract_entries job_entries = Returned experience_list →
  Forall entry_ok experience_list.
Proof.
  revert experience_list.
  induction job_entries as [|entry rest IH]; intros l; simpl.
  { by intros [= <-]. }
  case_decide; [apply IH|].
  destruct (extract_entry entry) as [exp|] eqn:Hexp; simpl; [|done].
  destruct (extract_entries rest) as [l'|]; simpl; [|done].
  intros [= <-]. constructor; [by eapply extract_entry_ok|by apply IH].
Qed.

Lemma extract_experience_ok text d experience_list :
  extract_experience text d = Returned experience_list →
  Forall entry_ok experience_list.
Proof.
  unfold extract_experience.
  destruct (find_section exp_headers (Text.lower text)) as [[|c s]|].
  - by intros [= <-].
  - apply extract_entries_ok.
  - by intros [= <-].
Qed.

Lemma entry_ok_nonneg exp :
  entry_ok exp → dates_in_order exp → (0 <= duration_years exp)%Q.
Proof.
  intros (Hs & He & [-> | ->]) Horder; [lra|].
  unfold expected_duration, dates_in_order in *.
  destruct Hvalid as [_ Hnow].
  destruct (start_date exp) as [s|]; [|lra].
  destruct (end_date exp) as [e|]; apply delta_years_nonneg; auto.
Qed.
End experience_facts.

Lemma sample_dates_valid : dates_valid.
Proof.
  split; [|by vm_compute]. intros s d. simpl. unfold sample_date_parse.
  repeat case_decide; intros [= <-]; by vm_compute.
Qed.

(** ** The structurer *)

Section structurer_facts.
Context `{FieldExtractors}.

(** A record comes out of a text that is not empty and of calls that all
    returned. *)
Lemma extract_information_Some text resume_info :
  extract_information text = Some resume_info ↔
  ∃ t d info_name info_contact info_skills info_education info_experience,
    text = Some t ∧ t ≠ "" ∧
    nlp t = Returned d ∧
    extract_name d t = Returned info_name ∧
    extract_contact_info t = Returned info_contact ∧
    extract_skills t = Returned info_skills ∧
    extract_education t d = Returned info_education ∧
    extract_experience t d = Returned info_experience ∧
    resume_info =
      {| name := info_name; contact := info_contact;
         skills := info_skills; education := info_education;
         experience := info_experience;
         total_experience_years :=
           calculate_total_experience info_experience;
         raw_text := t |}.
Proof.
  unfold extract_information, build_info. split.
  - destruct text as [[|c t]|]; [done| |done].
    destruct (nlp _) as [d|] eqn:Hd; simpl; [|done].
    destruct (extract_name _ _) as [n|] eqn:Hn; simpl; [|done].
    destruct (extract_contact_info _) as [ct|] eqn:Hc; simpl; [|done].
    destruct (extract_skills _) as [sk|] eqn:Hs; simpl; [|done].
    destruct (extract_education _ _) as [ed|] eqn:He; simpl; [|done].
    destruct (extract_experience _ _) as [ex|] eqn:Hx; simpl; [|done].
    intros [= <-]. by exists (String c t), d, n, ct, sk, ed, ex.
  - intros (t & d & n & ct & sk & ed & ex & -> & Ht & Hd & Hn & Hc & Hs
            & He & Hx & ->).
    destruct t as [|c t]; [done|].
    rewrite Hd. simpl. rewrite Hn. simpl. rewrite Hc. simpl.
    rewrite Hs. simpl. rewrite He. simpl. by rewrite Hx.
Qed.
End structurer_facts.

(** C8, as the code has it.  For every parsed resume the total experience is
    the sum of the durations of its experience entries, overlapping roles
    added; an empty experience list gives 0.  The duration of an entry is
    not negative when the start of the entry is not after its end (or not
    after the current time for an entry without end), and the total is not
    negative when that holds of every entry. *)
Theorem total_experience_is_sum `{FieldExtractors}
    (text : option string) (resume_info : ResumeInfo) :
  dates_valid →
  extract_information text = Some resume_info →
  (total_experience_years resume_info
   == sum_durations (experience resume_info))%Q
  ∧ (experience resume_info = [] → total_experience_years resume_info = 0%Q)
  ∧ (∀ exp, exp ∈ experience resume_info → dates_in_order exp →
            (0 <= duration_years exp)%Q)
  ∧ ((∀ exp, exp ∈ experience resume_info → dates_in_order exp) →
     (0 <= total_experience_years resume_info)%Q).
Proof.
  intros Hvalid (t & d & n & ct & sk & ed & ex & _ & _ & _ & _ & _ & _ & _
                 & Hx & ->)%extract_information_Some. simpl.
  apply (extract_experience_ok Hvalid) in Hx. rewrite Forall_forall in Hx.
  assert (∀ exp, exp ∈ ex → dates_in_order exp → (0 <= duration_years exp)%Q)
    as Hnonneg.
  { intros exp Hexp. by apply entry_ok_nonneg, Hx. }
  split_and!.
  - apply calculate_total_experience_sum.
  - by intros ->.
  - exact Hnonneg.
  - intros Horder. rewrite calculate_total_experience_sum.
    clear Hx. induction ex as [|exp ex IH]; simpl; [lra|].
    assert (0 <= duration_years exp)%Q
      by (apply Hnonneg; [left|apply Horder; left]).
    assert (0 <= sum_durations ex)%Q; [|lra].
    apply IH; intros exp' Hexp'; [|apply Horder; by right].
    intros ?. apply Hnonneg; [by right|done].
Qed.

(** Scenario A: one entry of two years, and a total of two years. *)
Lemma total_experience_is_sum_witness :
  ∃ resume_info,
    extract_information (Some resume_a) = Some resume_info
    ∧ (duration_years <$> experience resume_info) = [24 # 12]
    ∧ (total_experience_years resume_info
       == sum_durations (experience resume_info))%Q
    ∧ (0 <= total_experience_years resume_info)%Q.
Proof.
  eexists. split; [vm_compute; reflexivity|].
  split; [vm_compute; reflexivity|].
  edestruct (total_experience_is_sum (Some resume_a)) as (Hsum & _ & _ & Hpos);
    [exact sample_dates_valid|vm_compute; reflexivity|].
  split; [exact Hsum|]. apply Hpos.
  intros exp [->|[]%elem_of_nil]%elem_of_cons. by vm_compute.
Defined.

(** C8, as stated, fails: a date range that runs backwards, as in
    [Engineer at Acme 2021 - 2019], gives the entry a duration of -2 years,
    and the resume a total of -2 years. *)
Lemma backwards_range_negative :
  ¬ (∀ (L : Library) (F : FieldExtractors) text resume_info,
       dates_valid →
       extract_information text = Some resume_info →
       ∀ exp, exp ∈ experience resume_info → (0 <= duration_years exp)%Q).
Proof.
  intros Hclaim.
  destruct (extract_information (Some resume_b)) as [resume_info|] eqn:Hinfo;
    [|by vm_compute in Hinfo].
  pose proof (Hclaim sample_library sample_extractors (Some resume_b)
                resume_info sample_dates_valid Hinfo) as Hentries.
  vm_compute in Hinfo. injection Hinfo as <-.
  specialize (Hentries _ (list_elem_of_here _ _)).
  by vm_compute in Hentries.
Qed.

Example backwards_range_sample :
  (λ resume_info, (duration_years <$> experience resume_info,
                   total_experience_years resume_info))
    <$> extract_information (Some resume_b)
  = Some ([-24 # 12], -24 # 12).
Proof. vm_compute. reflexivity. Qed.

(** C9. [extract_information] returns [None] when the text is absent or
    empty, and when any of the calls of the extraction raises; otherwise,
    for a text that is not empty and calls that all return, it returns the
    record populated with what the calls returned, the total experience
    computed from the experience entries, and the text itself. *)
Theorem extract_information_guard `{FieldExtractors} (text : option string) :
  (text = None ∨ text = Some "" → extract_information text = None)
  ∧ (∀ t, text = Some t →
       (∃ e, nlp t = Raised e)
       ∨ (∃ d, nlp t = Returned d ∧
               ((∃ e, extract_name d t = Raised e)
                ∨ (∃ e, extract_contact_info t = Raised e)
                ∨ (∃ e, extract_skills t = Raised e)
                ∨ (∃ e, extract_education t d = Raised e)
                ∨ (∃ e, extract_experience t d = Raised e))) →
       extract_information text = None)
  ∧ (∀ t d info_name info_contact info_skills info_education info_experience,
       text = Some t → t ≠ "" →
       nlp t = Returned d →
       extract_name d t = Returned info_name →
       extract_contact_info t = Returned info_contact →
       extract_skills t = Returned info_skills →
       extract_education t d = Returned info_education →
       extract_experience t d = Returned info_experience →
       extract_information text =
       Some {| name := info_name; contact := info_contact;
               skills := info_skills; education := info_education;
               experience := info_experience;
               total_experience_years :=
                 calculate_total_experience info_experience;
               raw_text := t |}).
Proof.
  split_and!.
  - by intros [-> | ->].
  - intros t -> Hraise.
    destruct (extract_information (Some t)) as [resume_info|] eqn:Hinfo;
      [|done].
    apply extract_information_Some in Hinfo
      as (t' & d & n & ct & sk & ed & ex & [= <-] & _ & Hd & Hn & Hc & Hs
          & He & Hx & _).
    destruct Hraise as [[e Hd']|(d' & Hd' & Hraise)]; [congruence|].
    assert (d' = d) as -> by congruence.
    destruct Hraise as [[e ?]|[[e ?]|[[e ?]|[[e ?]|[e ?]]]]]; congruence.
  - intros t d n ct sk ed ex -> Ht Hd Hn Hc Hs He Hx.
    apply extract_information_Some. by exists t, d, n, ct, sk, ed, ex.
Qed.

(** Scenario D: an empty text gives no record. *)
Lemma extract_information_guard_witness :
  extract_information (Some "") = None.
Proof.
  destruct (extract_information_guard (Some "")) as (Hempty & _).
  apply Hempty. right. reflexivity.
Defined.

(** ** The similarity ratio: the loops of the model run to their end *)

Module DifflibFacts.
Import Difflib.

Section loops.
Variables a b : list ascii.

(** The conditions of the two loops that extend a block. *)
Let left_cond (alo blo : nat) (m : best) : bool :=
  (alo <? besti m) && (blo <? bestj m) &&
  bool_decide (is_Some (a !! (besti m - 1)) ∧
               a !! (besti m - 1) = b !! (bestj m - 1)).

Let right_cond (ahi bhi : nat) (m : best) : bool :=
  (besti m + bestsize m <? ahi) && (bestj m + bestsize m <? bhi) &&
  bool_decide (is_Some (a !! (besti m + bestsize m)) ∧
               a !! (besti m + bestsize m) = b !! (bestj m + bestsize m)).

Lemma extend_left_S fuel alo blo m :
  extend_left a b (S fuel) alo blo m =
  if left_cond alo blo m
  then extend_left a b fuel alo blo
         (Best (besti m - 1) (bestj m - 1) (bestsize m + 1))
  else m.
Proof. done. Qed.

Lemma extend_right_S fuel ahi bhi m :
  extend_right a b (S fuel) ahi bhi m =
  if right_cond ahi bhi m
  then extend_right a b fuel ahi bhi
         (Best (besti m) (bestj m) (bestsize m + 1))
  else m.
Proof. done. Qed.

(** When [extend_left] is left, its loop condition is false. *)
Lemma extend_left_settled fuel alo blo m :
  besti m ≤ fuel →
  left_cond alo blo (extend_left a b fuel alo blo m) = false.
Proof.
  revert m. induction fuel as [|fuel IH]; intros m Hm.
  - simpl. unfold left_cond.
    destruct (Nat.ltb_spec alo (besti m)); [lia|done].
  - rewrite extend_left_S. destruct (left_cond alo blo m) eqn:Hcond; [|done].
    apply IH. simpl. lia.
Qed.

Lemma extend_right_settled fuel ahi bhi m :
  ahi ≤ besti m + bestsize m + fuel →
  right_cond ahi bhi (extend_right a b fuel ahi bhi m) = false.
Proof.
  revert m. induction fuel as [|fuel IH]; intros m Hm.
  - simpl. unfold right_cond.
    destruct (Nat.ltb_spec (besti m + bestsize m) ahi); [lia|done].
  - rewrite extend_right_S. destruct (right_cond ahi bhi m) eqn:Hcond; [|done].
    apply IH. simpl. lia.
Qed.

Lemma extend_left_bounds fuel alo blo m :
  alo ≤ besti m →
  alo ≤ besti (extend_left a b fuel alo blo m)
  ∧ besti (extend_left a b fuel alo blo m)
    + bestsize (extend_left a b fuel alo blo m) = besti m + bestsize m.
Proof.
  revert m. induction fuel as [|fuel IH]; intros m Hm; [done|].
  rewrite extend_left_S. destruct (left_cond alo blo m) eqn:Hcond; [|done].
  apply andb_true_iff in Hcond as [[Hlo%Nat.ltb_lt _]%andb_true_iff _].
  destruct (IH (Best (besti m - 1) (bestj m - 1) (bestsize m + 1)))
    as [? Hsum]; simpl in *; lia.
Qed.

Lemma extend_right_bounds fuel ahi bhi m :
  besti m + bestsize m ≤ ahi →
  besti (extend_right a b fuel ahi bhi m) = besti m
  ∧ besti (extend_right a b fuel ahi bhi m)
    + bestsize (extend_right a b fuel ahi bhi m) ≤ ahi.
Proof.
  revert m. induction fuel as [|fuel IH]; intros m Hm; [done|].
  rewrite extend_right_S. destruct (right_cond ahi bhi m) eqn:Hcond; [|done].
  apply andb_true_iff in Hcond as [[Hhi%Nat.ltb_lt _]%andb_true_iff _].
  destruct (IH (Best (besti m) (bestj m) (bestsize m + 1)))
    as [? Hsum]; simpl in *; lia.
Qed.

(** The fuel [find_longest_match] gives its two loops lets them end. *)
Lemma find_longest_match_loops_end (b2j : gmap ascii (list nat))
    alo ahi blo bhi :
  let m := scan_is a b2j alo ahi blo bhi in
  let m' := extend_left a b (besti m) alo blo m in
  left_cond alo blo m' = false
  ∧ right_cond ahi bhi (find_longest_match a b b2j alo ahi blo bhi) = false.
Proof.
  split.
  - by apply extend_left_settled.
  - apply extend_right_settled. lia.
Qed.

(** The best block so far lies in [a[alo:i]], and no length recorded for
    row [i] exceeds the part of the window read. *)
Definition scan_inv (alo i : nat) (st : best * gmap nat nat) : Prop :=
  alo ≤ besti st.1 ∧ besti st.1 + bestsize st.1 ≤ i
  ∧ ∀ j v, st.2 !! j = Some v → v ≤ i - alo.

Lemma scan_js_inv alo blo bhi i j2len js st :
  alo ≤ i →
  (∀ j v, j2len !! j = Some v → v ≤ i - alo) →
  scan_inv alo (S i) st →
  scan_inv alo (S i) (scan_js blo bhi i j2len js st).
Proof.
  intros Hi Hlen. revert st.
  induction js as [|j js IH]; intros st Hst; simpl; [done|].
  destruct (j <? blo); [by apply IH|]. destruct (bhi <=? j); [done|].
  apply IH. destruct Hst as (Hlo & Hhi & Hnew).
  set (k := match j with 0 => 0 | S j' => default 0 (j2len !! j') end + 1).
  assert (k ≤ S i - alo) as Hk.
  { subst k. destruct j as [|j']; [lia|].
    destruct (j2len !! j') as [v|] eqn:Hv; simpl; [|lia].
    apply Hlen in Hv. lia. }
  split_and!; simpl.
  - destruct (bestsize st.1 <? k); simpl; lia.
  - destruct (bestsize st.1 <? k); simpl; lia.
  - intros j0 v. destruct (decide (j = j0)) as [->|Hne].
    + rewrite lookup_insert_eq. intros [= <-]. done.
    + rewrite lookup_insert_ne by done. apply Hnew.
Qed.

Lemma scan_rows_inv (b2j : gmap ascii (list nat)) alo blo bhi len start st :
  alo ≤ start → scan_inv alo start st →
  scan_inv alo (start + len)
    (foldl (λ (st : best * gmap nat nat) i,
              let js := match a !! i with
                        | Some x => default [] (b2j !! x)
                        | None => []
                        end in
              scan_js blo bhi i st.2 js (st.1, ∅))
           st (seq start len)).
Proof.
  revert start st. induction len as [|len IH]; intros start st Hstart Hst.
  { by rewrite Nat.add_0_r. }
  simpl. rewrite <- Nat.add_succ_comm. apply IH; [lia|].
  destruct Hst as (Hlo & Hhi & Hlen).
  apply scan_js_inv; [done..|]. split_and!; simpl; [done|lia|done].
Qed.

(** A block [find_longest_match] returns lies in the window of [a]. *)
Lemma find_longest_match_bounds b2j alo ahi blo bhi :
  alo ≤ ahi →
  let x := find_longest_match a b b2j alo ahi blo bhi in
  alo ≤ besti x ∧ besti x + bestsize x ≤ ahi.
Proof.
  intros Hwin. unfold find_longest_match, scan_is.
  pose proof (scan_rows_inv b2j alo blo bhi (ahi - alo) alo
                (Best alo blo 0, ∅)) as Hscan.
  replace (alo + (ahi - alo)) with ahi in Hscan by lia.
  destruct Hscan as (Hlo & Hhi & _); [done|by split_and!; simpl; [lia..|]|].
  set (m := (foldl _ _ _).1) in *.
  destruct (extend_left_bounds (besti m) alo blo m Hlo) as [Hlo' Hsum].
  set (m' := extend_left a b (besti m) alo blo m) in *.
  destruct (extend_right_bounds ahi ahi bhi m') as [Hi Hhi']; [lia|].
  simpl. lia.
Qed.

(** The recursion over the windows ends before its fuel does: any fuel
    above the length of the window of [a] gives the same size. *)
Lemma matched_size_fuel b2j fuel1 fuel2 alo ahi blo bhi :
  alo ≤ ahi → ahi - alo < fuel1 → ahi - alo < fuel2 →
  matched_size a b fuel1 b2j alo ahi blo bhi
  = matched_size a b fuel2 b2j alo ahi blo bhi.
Proof.
  revert fuel2 alo ahi blo bhi.
  induction fuel1 as [|fuel1 IH]; intros [|fuel2] alo ahi blo bhi Hwin H1 H2;
    [lia..|].
  cbn [matched_size].
  destruct (find_longest_match_bounds b2j alo ahi blo bhi Hwin) as [Hlo Hhi].
  set (x := find_longest_match a b b2j alo ahi blo bhi) in *.
  destruct (Nat.eqb_spec (bestsize x) 0) as [|Hk]; [done|].
  f_equal; [f_equal|].
  - destruct (_ && _); [|done]. apply IH; lia.
  - destruct (_ && _); [|done]. apply IH; lia.
Qed.

(** [matches] does not depend on the fuel it is given. *)
Lemma matches_fuel fuel :
  length a < fuel →
  matched_size a b fuel (chain_b b) 0 (length a) 0 (length b) = matches a b.
Proof. intros Hfuel. apply matched_size_fuel; lia. Qed.
End loops.

End DifflibFacts.

(** * Further properties of the code *)

(** ** The similarity score lies between 0 and 1 *)

Module DifflibBounds.
Import Difflib.

Section blocks.
Variables a b : list ascii.

(** A block lies in both windows. *)
Definition in_window (alo ahi blo bhi : nat) (m : best) : Prop :=
  alo ≤ besti m ∧ besti m + bestsize m ≤ ahi
  ∧ blo ≤ bestj m ∧ bestj m + bestsize m ≤ bhi.

(** The lengths recorded for a row: keys in the window of [b], and no
    length beyond what was read of either window. *)
Definition row_ok (alo blo bhi i : nat) (row : gmap nat nat) : Prop :=
  ∀ j v, row !! j = Some v → blo ≤ j < bhi ∧ v ≤ i - alo ∧ v ≤ j + 1 - blo.

Lemma scan_js_window alo blo bhi i j2len js st :
  alo ≤ i →
  row_ok alo blo bhi i j2len →
  in_window alo (S i) blo bhi st.1 → row_ok alo blo bhi (S i) st.2 →
  in_window alo (S i) blo bhi (scan_js blo bhi i j2len js st).1
  ∧ row_ok alo blo bhi (S i) (scan_js blo bhi i j2len js st).2.
Proof.
  intros Hi Hold. revert st.
  induction js as [|j js IH]; intros st Hbest Hrow; simpl; [done|].
  destruct (Nat.ltb_spec j blo) as [|Hblo]; [by apply IH|].
  destruct (Nat.leb_spec bhi j) as [|Hbhi]; [done|].
  set (k := match j with 0 => 0 | S j' => default 0 (j2len !! j') end + 1).
  assert (k ≤ S i - alo ∧ k ≤ j + 1 - blo) as [Hki Hkj].
  { subst k. destruct j as [|j']; [lia|].
    destruct (j2len !! j') as [v|] eqn:Hv; simpl; [|lia].
    apply Hold in Hv. lia. }
  apply IH; simpl.
  - destruct Hbest as (? & ? & ? & ?).
    destruct (bestsize st.1 <? k); unfold in_window; simpl; lia.
  - intros j0 v. destruct (decide (j = j0)) as [->|Hne].
    + rewrite lookup_insert_eq. intros [= <-]. lia.
    + rewrite lookup_insert_ne by done. apply Hrow.
Qed.

Lemma scan_rows_window (b2j : gmap ascii (list nat)) alo blo bhi len start st :
  alo ≤ start →
  in_window alo start blo bhi st.1 → row_ok alo blo bhi start st.2 →
  in_window alo (start + len) blo bhi
    (foldl (λ (st : best * gmap nat nat) i,
              let js := match a !! i with
                        | Some x => default [] (b2j !! x)
                        | None => []
                        end in
              scan_js blo bhi i st.2 js (st.1, ∅))
           st (seq start len)).1.
Proof.
  revert start st. induction len as [|len IH]; intros start st Hstart Hb Hr.
  { by rewrite Nat.add_0_r. }
  simpl. rewrite <- Nat.add_succ_comm.
  edestruct (scan_js_window alo blo bhi start st.2) as [Hb' Hr'];
    [exact Hstart|exact Hr| | |apply IH; [lia|exact Hb'|exact Hr']].
  - destruct Hb as (? & ? & ? & ?). unfold in_window. simpl. lia.
  - intros j v. simpl. by rewrite lookup_empty.
Qed.

Lemma extend_left_window fuel alo ahi blo bhi m :
  in_window alo ahi blo bhi m →
  in_window alo ahi blo bhi (extend_left a b fuel alo blo m).
Proof.
  revert m. induction fuel as [|fuel IH]; intros m Hm; [done|].
  cbn [extend_left].
  destruct ((alo <? besti m) && (blo <? bestj m)) eqn:Hlo; simpl; [|done].
  case_bool_decide; [|done].
  apply andb_true_iff in Hlo as [?%Nat.ltb_lt ?%Nat.ltb_lt].
  apply IH. destruct Hm as (? & ? & ? & ?). unfold in_window. simpl. lia.
Qed.

Lemma extend_right_window fuel alo ahi blo bhi m :
  in_window alo ahi blo bhi m →
  in_window alo ahi blo bhi (extend_right a b fuel ahi bhi m).
Proof.
  revert m. induction fuel as [|fuel IH]; intros m Hm; [done|].
  cbn [extend_right].
  destruct ((besti m + bestsize m <? ahi) && (bestj m + bestsize m <? bhi))
    eqn:Hhi; simpl; [|done].
  case_bool_decide; [|done].
  apply andb_true_iff in Hhi as [?%Nat.ltb_lt ?%Nat.ltb_lt].
  apply IH. destruct Hm as (? & ? & ? & ?). unfold in_window. simpl. lia.
Qed.

(** The block [find_longest_match] returns lies in the two windows. *)
Lemma find_longest_match_window (b2j : gmap ascii (list nat))
    alo ahi blo bhi :
  alo ≤ ahi → blo ≤ bhi →
  in_window alo ahi blo bhi (find_longest_match a b b2j alo ahi blo bhi).
Proof.
  intros Ha Hb. unfold find_longest_match, scan_is.
  apply extend_right_window, extend_left_window.
  pose proof (scan_rows_window b2j alo blo bhi (ahi - alo) alo
                (Best alo blo 0, ∅)) as Hscan.
  replace (alo + (ahi - alo)) with ahi in Hscan by lia.
  apply Hscan; [done| |].
  - unfold in_window. simpl. lia.
  - intros j v. simpl. by rewrite lookup_empty.
Qed.

(** The blocks collected from a window fit side by side in each of its two
    sides. *)
Lemma matched_size_window (b2j : gmap ascii (list nat)) fuel
    alo ahi blo bhi :
  alo ≤ ahi → blo ≤ bhi →
  matched_size a b fuel b2j alo ahi blo bhi ≤ ahi - alo
  ∧ matched_size a b fuel b2j alo ahi blo bhi ≤ bhi - blo.
Proof.
  revert alo ahi blo bhi.
  induction fuel as [|fuel IH]; intros alo ahi blo bhi Ha Hb; simpl; [lia|].
  destruct (find_longest_match_window b2j alo ahi blo bhi Ha Hb)
    as (Hi & Hik & Hj & Hjk).
  set (x := find_longest_match a b b2j alo ahi blo bhi) in *.
  destruct (bestsize x =? 0); [lia|].
  assert (∀ c lo1 hi1 lo2 hi2 (Hc : c = true → lo1 ≤ hi1 ∧ lo2 ≤ hi2),
            (if c then matched_size a b fuel b2j lo1 hi1 lo2 hi2 else 0)
            ≤ hi1 - lo1
            ∧ (if c then matched_size a b fuel b2j lo1 hi1 lo2 hi2 else 0)
              ≤ hi2 - lo2) as Hside.
  { intros [] lo1 hi1 lo2 hi2 Hc; [|lia]. apply IH; by apply Hc. }
  destruct (Hside ((alo <? besti x) && (blo <? bestj x))
              alo (besti x) blo (bestj x)) as [Hl1 Hl2]; [lia|].
  destruct (Hside ((besti x + bestsize x <? ahi)
                   && (bestj x + bestsize x <? bhi))
              (besti x + bestsize x) ahi (bestj x + bestsize x) bhi)
    as [Hr1 Hr2]; [lia|].
  lia.
Qed.

Lemma matches_le : matches a b ≤ length a ∧ matches a b ≤ length b.
Proof.
  unfold matches.
  destruct (matched_size_window (chain_b b) (S (length a))
              0 (length a) 0 (length b)); lia.
Qed.

Lemma ratio_bounds : (0 <= ratio a b <= 1)%Q.
Proof.
  unfold ratio. destruct (Nat.eqb_spec (length a + length b) 0) as [|Hlen].
  { split; discriminate. }
  destruct matches_le as [Hma Hmb].
  assert (0 < inject_Z (Z.of_nat (length a + length b)))%Q as Hpos.
  { change 0%Q with (inject_Z 0). rewrite <- Zlt_Qlt. lia. }
  assert (0 <= inject_Z (Z.of_nat (matches a b)))%Q as Hm0.
  { change 0%Q with (inject_Z 0). rewrite <- Zle_Qle. lia. }
  assert (2 * inject_Z (Z.of_nat (matches a b))
          <= inject_Z (Z.of_nat (length a + length b)))%Q as Hm2.
  { change 2%Q with (inject_Z 2). rewrite <- inject_Z_mult, <- Zle_Qle. lia. }
  split.
  - apply Qle_shift_div_l; [done|]. lra.
  - apply Qle_shift_div_r; [done|]. lra.
Qed.
End blocks.

End DifflibBounds.

(** X1. [similarity_score] keeps the promise of its docstring: for all
    strings the score lies between 0 and 1. *)
Theorem similarity_score_bounds (a b : string) :
  (0 <= similarity_score a b <= 1)%Q.
Proof. apply DifflibBounds.ratio_bounds. Qed.

(** ** More about [match_skills] *)

Lemma lower_char_idemp c : Text.lower_char (Text.lower_char c) = Text.lower_char c.
Proof. by destruct c as [[] [] [] [] [] [] [] []]. Qed.

Lemma lower_idemp s : Text.lower (Text.lower s) = Text.lower s.
Proof. induction s as [|c s IH]; simpl; [done|]. by rewrite lower_char_idemp, IH. Qed.

Lemma skill_hit_lower threshold c r :
  skill_hit threshold (Text.lower c) r = skill_hit threshold c r.
Proof. unfold skill_hit, similarity_score. by rewrite lower_idemp. Qed.

Lemma match_one_lower threshold c reqs st :
  match_one threshold (Text.lower c) reqs st = match_one threshold c reqs st.
Proof.
  induction reqs as [|r reqs IH]; simpl; [done|].
  by rewrite skill_hit_lower, IH.
Qed.

Lemma first_hit_lower threshold c reqs :
  first_hit threshold (Text.lower c) reqs = first_hit threshold c reqs.
Proof.
  unfold first_hit. f_equal. apply list_filter_iff. intros r.
  by rewrite skill_hit_lower.
Qed.

(** X2. The letter case of the candidate's skills plays no part in
    [match_skills]: lower-casing them leaves both lists as they are. *)
Theorem match_skills_candidate_case
    (candidate_skills required_skills : list string) :
  match_skills (Text.lower <$> candidate_skills) required_skills
  = match_skills candidate_skills required_skills.
Proof.
  unfold match_skills, match_skills_at.
  generalize (([], required_skills) : skills_state).
  induction candidate_skills as [|c cands IH]; intros st; simpl; [done|].
  by rewrite match_one_lower, IH.
Qed.

Lemma match_skills_missing_elem cands reqs r :
  NoDup reqs →
  r ∈ (match_skills cands reqs).2 ↔
  r ∈ reqs ∧ r ∉ (match_skills cands reqs).1.
Proof.
  intros Hnd.
  pose proof (match_skills_at_perm (8 # 10) cands reqs) as Hperm.
  fold match_skills in Hperm.
  set (m := match_skills cands reqs) in *.
  assert (r ∈ reqs ↔ r ∈ m.1 ∨ r ∈ m.2) as Hin.
  { rewrite <- elem_of_app. split; intros Hr.
    - by rewrite Hperm.
    - by rewrite <- Hperm. }
  rewrite <- Hperm in Hnd. apply NoDup_app in Hnd as (_ & Hdisj & _).
  rewrite Hin. split.
  - intros Hr. split; [by right|]. intros Hm. by apply (Hdisj r).
  - intros [[?|?] ?]; done.
Qed.

(** X3. For required skills without duplicates, the outcome of
    [match_skills] depends on the candidate's skills as a set only: two
    candidate lists with the same elements, in any order and with any
    repetition, give the same matched skills and the same missing skills up
    to order, and so the same skill score. *)
Theorem match_skills_order_free
    (candidate_skills candidate_skills' required_skills : list string) :
  NoDup required_skills →
  (∀ c, c ∈ candidate_skills ↔ c ∈ candidate_skills') →
  (match_skills candidate_skills required_skills).1
    ≡ₚ (match_skills candidate_skills' required_skills).1
  ∧ (match_skills candidate_skills required_skills).2
      ≡ₚ (match_skills candidate_skills' required_skills).2
  ∧ skill_match_score (match_skills candidate_skills required_skills).1
                      required_skills
    = skill_match_score (match_skills candidate_skills' required_skills).1
                        required_skills.
Proof.
  intros Hnd Hsame.
  pose proof (match_skills_at_NoDup (8 # 10) candidate_skills _ Hnd) as Hnd1.
  pose proof (match_skills_at_NoDup (8 # 10) candidate_skills' _ Hnd) as Hnd2.
  fold match_skills in Hnd1, Hnd2.
  apply NoDup_app in Hnd1 as (Hm1 & _ & Hs1), Hnd2 as (Hm2 & _ & Hs2).
  assert (∀ r, r ∈ (match_skills candidate_skills required_skills).1
               ↔ r ∈ (match_skills candidate_skills' required_skills).1)
    as Hmatched.
  { intros r. unfold match_skills. rewrite !match_skills_at_matched.
    split; intros (c & Hc & Hhit); exists c; (split; [by apply Hsame|done]). }
  assert ((match_skills candidate_skills required_skills).1
          ≡ₚ (match_skills candidate_skills' required_skills).1) as Hperm
    by by apply NoDup_Permutation.
  split_and!; [done| |].
  - apply NoDup_Permutation; [done..|]. intros r.
    rewrite !match_skills_missing_elem by done. by rewrite Hmatched.
  - unfold skill_match_score. destruct required_skills; [done|].
    by rewrite Hperm.
Qed.

Lemma match_skills_order_free_witness :
  (match_skills ["sql"; "python"; "sql"] ["python"; "java"; "sql"]).1
    ≡ₚ (match_skills ["python"; "sql"] ["python"; "java"; "sql"]).1.
Proof.
  apply (match_skills_order_free ["sql"; "python"; "sql"] ["python"; "sql"]
           ["python"; "java"; "sql"]).
  - by_compute.
  - intros c. rewrite !elem_of_cons, !elem_of_nil. tauto.
Defined.

Lemma match_one_nil threshold c st : match_one threshold c [] st = st.
Proof. done. Qed.

(** X4. The empty sides of [match_skills]: a candidate without skills
    matches nothing and misses every required skill, and when nothing is
    required both lists are empty whatever the candidate's skills. *)
Theorem match_skills_empty (candidate_skills required_skills : list string) :
  match_skills [] required_skills = ([], required_skills)
  ∧ match_skills candidate_skills [] = ([], []).
Proof.
  split; [done|]. unfold match_skills, match_skills_at.
  induction candidate_skills as [|c cands IH]; simpl; [done|]. exact IH.
Qed.

Lemma list_remove_first_sublist x l : (list_remove_first x l) `sublist_of` l.
Proof.
  induction l as [|y l IH]; simpl; [done|].
  destruct (decide (x = y)); [by apply sublist_cons|by apply sublist_skip].
Qed.

Lemma match_loop_missing_sublist threshold cands reqs st :
  (foldl (λ st c, match_one threshold c reqs st) st cands).2 `sublist_of` st.2.
Proof.
  revert st. induction cands as [|c cands IH]; intros st; simpl; [done|].
  etrans; [apply IH|]. rewrite match_one_first_hit.
  destruct (first_hit threshold c reqs) as [r|]; [|done].
  case_bool_decide; [|done]. apply list_remove_first_sublist.
Qed.

(** X5. The missing skills are the required skills with the matched ones
    taken out: they come in the order in which they were required, and
    every matched skill is a required skill. *)
Theorem missing_in_required_order
    (candidate_skills required_skills : list string) :
  (match_skills candidate_skills required_skills).2
    `sublist_of` required_skills
  ∧ (∀ r, r ∈ (match_skills candidate_skills required_skills).1 →
          r ∈ required_skills).
Proof.
  split.
  - apply (match_loop_missing_sublist (8 # 10) candidate_skills
             required_skills ([], required_skills)).
  - intros r Hr.
    rewrite <- (match_skills_at_perm (8 # 10) candidate_skills
                  required_skills).
    apply elem_of_app. by left.
Qed.

(** X6. With a single required skill the matcher is the plain fuzzy test:
    the skill is matched exactly when some candidate skill contains it, is
    contained by it, or is at least 0.8 similar to it; otherwise it is
    missing. *)
Theorem match_skills_single (candidate_skills : list string) (r : string) :
  (r ∈ (match_skills candidate_skills [r]).1 ↔
   ∃ c, c ∈ candidate_skills ∧ skill_hit (8 # 10) c r = true)
  ∧ (r ∈ (match_skills candidate_skills [r]).2 ↔
     ∀ c, c ∈ candidate_skills → skill_hit (8 # 10) c r = false).
Proof.
  assert (r ∈ (match_skills candidate_skills [r]).1 ↔
          ∃ c, c ∈ candidate_skills ∧ skill_hit (8 # 10) c r = true) as Hm.
  { unfold match_skills. rewrite match_skills_at_matched.
    split; intros (c & Hc & Hhit); exists c; (split; [done|]).
    - by apply first_hit_hit in Hhit.
    - unfold first_hit. rewrite filter_cons, decide_True by done. done. }
  split; [exact Hm|].
  rewrite match_skills_missing_elem by (apply NoDup_singleton).
  rewrite Hm, list_elem_of_singleton. split.
  - intros [_ Hno] c Hc. apply not_true_is_false. intros Hhit.
    apply Hno. by exists c.
  - intros Hno. split; [done|]. intros (c & Hc & Hhit).
    by rewrite (Hno c Hc) in Hhit.
Qed.

(** ** More about [match_candidates] *)

Lemma filter_sublist_impl {A} (P Q : A → Prop)
    `{!∀ x, Decision (P x), !∀ x, Decision (Q x)} (l : list A) :
  (∀ x, P x → Q x) → (filter P l) `sublist_of` (filter Q l).
Proof.
  intros HPQ. induction l as [|x l IH]; [done|]. rewrite !filter_cons.
  destruct (decide (P x)) as [HP|HP].
  - rewrite decide_True by auto. by apply sublist_skip.
  - destruct (decide (Q x)); [by apply sublist_cons|done].
Qed.

Lemma match_candidates_ids data required_skills min_experience :
  cm_resume_id <$> match_candidates data required_skills min_experience
  = (kept required_skills min_experience data).*1.
Proof.
  rewrite match_candidates_kept, <- list_fmap_compose.
  by apply list_fmap_ext.
Qed.

(** X7. The results of the matcher come in the order of the input, at most
    one per record, and each carries the identifier, name, skills and total
    experience of its record, without a rank. *)
Theorem match_candidates_in_order
    (data : list (string * resume_entry)) (required_skills : list string)
    (min_experience : Q) :
  (cm_resume_id <$> match_candidates data required_skills min_experience)
    `sublist_of` data.*1
  ∧ (∀ m, m ∈ match_candidates data required_skills min_experience →
          ∃ x, x ∈ data ∧ cm_resume_id m = x.1 ∧
               cm_name m = name (info x.2) ∧
               cm_skills m = skills (info x.2) ∧
               cm_total_experience m = total_experience_years (info x.2) ∧
               cm_rank m = None).
Proof.
  split.
  - rewrite match_candidates_ids. apply fmap_sublist, kept_sublist.
  - intros m (x & Hx & ->)%elem_of_match_candidates. exists x.
    split_and!; [|done..].
    eapply elem_of_sublist; [exact Hx|apply kept_sublist].
Qed.

(** X8. Raising the minimum experience only takes results away: the
    candidates returned for a higher minimum are, in the same order, among
    those returned for a lower one. *)
Theorem match_candidates_min_monotone
    (data : list (string * resume_entry)) (required_skills : list string)
    (min_experience min_experience' : Q) :
  (min_experience <= min_experience')%Q →
  (cm_resume_id <$> match_candidates data required_skills min_experience')
    `sublist_of`
  (cm_resume_id <$> match_candidates data required_skills min_experience).
Proof.
  intros Hmin. rewrite !match_candidates_ids. apply fmap_sublist.
  unfold kept. apply filter_sublist_impl. intros x.
  rewrite !passes_iff. intros [Htotal Hskills]. split; [|done].
  intros Hlt. apply Htotal. lra.
Qed.

Lemma match_candidates_min_monotone_witness :
  (cm_resume_id <$> match_candidates sample_data ["python"; "java"] 2)
    `sublist_of`
  (cm_resume_id <$> match_candidates sample_data ["python"; "java"] 0).
Proof.
  apply (match_candidates_min_monotone sample_data ["python"; "java"] 0 2).
  vm_compute. discriminate.
Defined.

(** X9. When no skills are required nobody is rejected for skills: every
    result has empty matched and missing lists and the score
    0.7 + 0.3 * experienceScore, which is 0.85 when the minimum experience is
    not positive. *)
Theorem match_candidates_no_requirements
    (data : list (string * resume_entry)) (min_experience : Q)
    (m : candidate_match) :
  m ∈ match_candidates data [] min_experience →
  cm_matched_skills m = [] ∧ cm_missing_skills m = []
  ∧ (cm_match_score m ==
     (7 # 10) + (3 # 10) * experience_score (cm_total_experience m)
                                            min_experience)%Q
  ∧ ((min_experience <= 0)%Q → (cm_match_score m == 17 # 20)%Q).
Proof.
  intros (x & _ & ->)%elem_of_match_candidates. unfold result_of.
  destruct (match_skills_empty (skills (info x.2)) []) as [_ ->]. simpl.
  split_and!; [done..| |].
  - unfold match_score. ring.
  - intros Hmin. unfold match_score, experience_score.
    assert (Qlt_bool 0 min_experience = false) as ->.
    { apply not_true_iff_false. rewrite Qlt_bool_iff. lra. }
    reflexivity.
Qed.

Lemma match_candidates_no_requirements_witness :
  let m := result_of [] 0 sample_ann in
  cm_matched_skills m = [] ∧ cm_missing_skills m = []
  ∧ (cm_match_score m ==
     (7 # 10) + (3 # 10) * experience_score (cm_total_experience m) 0)%Q
  ∧ ((0 <= 0)%Q → (cm_match_score m == 17 # 20)%Q).
Proof.
  apply (match_candidates_no_requirements sample_data 0).
  vm_compute. apply list_elem_of_here.
Defined.

(** ** More about [rank_candidates] *)

Lemma candidate_match_eq (c1 c2 : candidate_match) :
  clear_rank c1 = clear_rank c2 → cm_rank c1 = cm_rank c2 → c1 = c2.
Proof.
  destruct c1, c2. unfold clear_rank. simpl. intros Hc Hr.
  injection Hc as -> -> -> -> -> -> ->. by rewrite Hr.
Qed.

Lemma assign_ranks_frame (h : store) (ls : list loc) (l : loc) :
  l ∉ ls → assign_ranks h ls !! l = h !! l.
Proof. apply (assign_from_frame 0). Qed.

(** X10. Ranking is idempotent: ranking again the list [rank_candidates]
    returned, for distinct candidate objects, returns the same list and
    leaves every object as it is. *)
Theorem rank_candidates_idempotent
    (h : store) (candidates : list loc)
    (required_skills required_skills' : list string) :
  NoDup candidates →
  let out := rank_candidates h candidates required_skills in
  rank_candidates out.1 out.2 required_skills' = out.
Proof.
  intros Hnd. simpl. unfold rank_candidates.
  set (ranked := sorted_desc (score_at h) candidates).
  assert (NoDup ranked) as Hnd' by (subst ranked; by rewrite sorted_desc_perm).
  assert (sorted_desc (score_at (assign_ranks h ranked)) ranked = ranked)
    as ->.
  { symmetry. apply sorted_desc_characterised; [|done].
    eapply descending_ext; [|apply (sorted_desc_descending (score_at h))].
    intros l. by rewrite assign_ranks_score. }
  f_equal. apply map_eq. intros l.
  destruct (decide (l ∈ ranked)) as [Hl|Hl].
  - apply list_elem_of_lookup in Hl as [i Hi].
    pose proof (assign_ranks_fields (assign_ranks h ranked) ranked l) as Hf.
    destruct (assign_ranks h ranked !! l) as [c|] eqn:Hc.
    + pose proof (assign_ranks_rank h ranked i l Hnd' Hi) as Hr1.
      pose proof (assign_ranks_rank (assign_ranks h ranked) ranked i l
                    Hnd' Hi) as Hr2.
      rewrite Hc in Hr2.
      destruct (assign_ranks (assign_ranks h ranked) ranked !! l) as [c'|];
        [|done].
      simpl in Hf, Hr2. f_equal.
      apply candidate_match_eq; [congruence|].
      rewrite Hr2 by eauto.
      assert (is_Some (h !! l)) as Hh.
      { apply (fmap_is_Some clear_rank).
        rewrite <- (assign_ranks_fields h ranked l), Hc. by eexists. }
      specialize (Hr1 Hh). rewrite Hc in Hr1. simpl in Hr1. by rewrite Hr1.
    + by destruct (assign_ranks (assign_ranks h ranked) ranked !! l).
  - by rewrite assign_ranks_frame.
Qed.

Lemma rank_candidates_idempotent_witness :
  let out := rank_candidates sample_objects.1 sample_objects.2 [] in
  rank_candidates out.1 out.2 ["python"] = out.
Proof.
  apply (rank_candidates_idempotent sample_objects.1 sample_objects.2).
  by_compute.
Defined.

(** * Properties of the rest of the code *)

(** ** Facts about strings *)

Module PyStrFacts.

Lemma chars_inj s1 s2 : Text.chars s1 = Text.chars s2 → s1 = s2.
Proof.
  revert s2. induction s1 as [|c s1 IH]; intros [|c' s2]; simpl; try done.
  intros [= -> Hs]. f_equal. by apply IH.
Qed.

Lemma chars_app s1 s2 :
  Text.chars (s1 +:+ s2) = Text.chars s1 ++ Text.chars s2.
Proof. induction s1 as [|c s1 IH]; simpl; [done|]. by rewrite <- IH. Qed.

Lemma chars_rev_app s1 s2 :
  Text.chars (String.rev_app s1 s2)
  = reverse (Text.chars s1) ++ Text.chars s2.
Proof.
  revert s2. induction s1 as [|c s1 IH]; intros s2; simpl; [done|].
  rewrite IH, reverse_cons. simpl. by rewrite <- app_assoc.
Qed.

Lemma chars_rev s : Text.chars (String.rev s) = reverse (Text.chars s).
Proof. unfold String.rev. by rewrite chars_rev_app, app_nil_r. Qed.

Lemma chars_length s : length (Text.chars s) = String.length s.
Proof. induction s as [|c s IH]; simpl; [done|]. by rewrite IH. Qed.

Lemma chars_lower s : Text.chars (Text.lower s) = Text.lower_char <$> Text.chars s.
Proof. induction s as [|c s IH]; simpl; [done|]. by rewrite IH. Qed.

Lemma chars_lstrip s : Text.chars (Text.lstrip s) = ldrop (Text.chars s).
Proof.
  induction s as [|c s IH]; simpl; [done|]. by destruct (Text.is_space c).
Qed.

Lemma chars_strip s :
  Text.chars (Text.strip s)
  = reverse (ldrop (reverse (ldrop (Text.chars s)))).
Proof.
  unfold Text.strip. by rewrite chars_rev, chars_lstrip, chars_rev, chars_lstrip.
Qed.

Lemma ldrop_split l :
  ∃ pre, l = pre ++ ldrop l ∧ blank pre
         ∧ ∀ c, head (ldrop l) = Some c → Text.is_space c = false.
Proof.
  induction l as [|c l (pre & Hl & Hpre & Hhd)]; simpl.
  { exists []. split_and!; [done|constructor|done]. }
  destruct (Text.is_space c) eqn:Hc.
  - exists (c :: pre). split_and!; [by rewrite Hl at 1|by constructor|done].
  - exists []. split_and!; [done|constructor|]. by intros ? [= <-].
Qed.

Lemma ldrop_nil l : ldrop l = [] ↔ blank l.
Proof.
  induction l as [|c l IH]; simpl; [by split; [constructor|]|].
  destruct (Text.is_space c) eqn:Hc.
  - rewrite IH. split; [by constructor|by inversion 1].
  - split; [done|]. inversion 1; congruence.
Qed.

Lemma ldrop_id l :
  (∀ c, head l = Some c → Text.is_space c = false) → ldrop l = l.
Proof.
  destruct l as [|c l]; simpl; [done|]. intros Hc. by rewrite (Hc c).
Qed.

(** [strip] cuts white space off both ends and nothing else. *)
Lemma strip_split s :
  ∃ pre post,
    Text.chars s = pre ++ Text.chars (Text.strip s) ++ post
    ∧ blank pre ∧ blank post
    ∧ (∀ c, head (Text.chars (Text.strip s)) = Some c →
            Text.is_space c = false)
    ∧ (∀ c, last (Text.chars (Text.strip s)) = Some c →
            Text.is_space c = false).
Proof.
  rewrite chars_strip.
  destruct (ldrop_split (Text.chars s)) as (pre & Hs & Hpre & Hhd).
  set (m := ldrop (Text.chars s)) in *.
  destruct (ldrop_split (reverse m)) as (post & Hm & Hpost & Hlast).
  set (r := ldrop (reverse m)) in *.
  exists pre, (reverse post). split_and!.
  - rewrite Hs at 1. f_equal. rewrite <- reverse_app, <- Hm.
    by rewrite reverse_involutive.
  - done.
  - by apply Forall_reverse.
  - intros c Hc. destruct (decide (r = [])) as [Hr|Hr].
    { by rewrite Hr in Hc. }
    apply Hhd. rewrite <- (reverse_involutive m), Hm, reverse_app.
    destruct (reverse r) as [|x r'] eqn:Hrr; [done|].
    simpl in *. done.
  - intros c. rewrite last_reverse. apply Hlast.
Qed.

Lemma strip_blank s : Text.strip s = "" ↔ blank (Text.chars s).
Proof.
  split.
  - intros Hs. destruct (strip_split s) as (pre & post & Hc & Hpre & Hpost & _).
    rewrite Hs in Hc. simpl in Hc. rewrite Hc. by apply Forall_app.
  - intros Hb. apply chars_inj. rewrite chars_strip. simpl.
    apply ldrop_nil in Hb. by rewrite Hb.
Qed.

Lemma strip_trimmed s :
  (∀ c, head (Text.chars s) = Some c → Text.is_space c = false) →
  (∀ c, last (Text.chars s) = Some c → Text.is_space c = false) →
  Text.strip s = s.
Proof.
  intros Hhd Hlast. apply chars_inj. rewrite chars_strip.
  rewrite (ldrop_id _ Hhd), ldrop_id, reverse_involutive; [done|].
  intros c. rewrite head_reverse. apply Hlast.
Qed.

Lemma strip_idemp s : Text.strip (Text.strip s) = Text.strip s.
Proof.
  destruct (strip_split s) as (_ & _ & _ & _ & _ & Hhd & Hlast).
  by apply strip_trimmed.
Qed.

Lemma is_space_lower_char c : Text.is_space (Text.lower_char c) = Text.is_space c.
Proof. by destruct c as [[] [] [] [] [] [] [] []]. Qed.

Lemma ldrop_lower l :
  ldrop (Text.lower_char <$> l) = Text.lower_char <$> ldrop l.
Proof.
  induction l as [|c l IH]; simpl; [done|].
  rewrite is_space_lower_char. by destruct (Text.is_space c).
Qed.

Lemma strip_lower s : Text.strip (Text.lower s) = Text.lower (Text.strip s).
Proof.
  apply chars_inj.
  rewrite chars_strip, !chars_lower, chars_strip.
  by rewrite ldrop_lower, <- fmap_reverse, ldrop_lower, fmap_reverse.
Qed.

Lemma lower_app s1 s2 :
  Text.lower (s1 +:+ s2) = Text.lower s1 +:+ Text.lower s2.
Proof. induction s1 as [|c s1 IH]; simpl; [done|]. by rewrite IH. Qed.

Lemma lower_length s : String.length (Text.lower s) = String.length s.
Proof. induction s as [|c s IH]; simpl; [done|]. by rewrite IH. Qed.

(** [needle in hay]: the characters of [needle] occur in a row. *)
Lemma prefix_chars n h :
  String.prefix n h = true ↔ ∃ post, Text.chars h = Text.chars n ++ post.
Proof.
  revert h. induction n as [|c n IH]; intros h.
  { destruct h; simpl; (split; [intros _; by eexists|done]). }
  destruct h as [|c' h]; simpl.
  { split; [done|by intros [? ?]]. }
  destruct (Ascii.ascii_dec c c') as [->|Hc].
  - rewrite IH. split; intros [post Hp]; exists post; [by rewrite Hp|].
    by injection Hp.
  - split; [done|]. intros [post [= ? ?]]. done.
Qed.

Lemma contains_chars n h :
  Text.contains n h = true
  ↔ ∃ pre post, Text.chars h = pre ++ Text.chars n ++ post.
Proof.
  induction h as [|c h IH].
  - change (Text.contains n "") with (String.prefix n "" || false).
    rewrite orb_false_r, prefix_chars. split.
    + intros [post Hp]. by exists [], post.
    + intros (pre & post & Hp). exists post.
      simpl in Hp. symmetry in Hp. apply app_eq_nil in Hp as [-> Hp].
      by rewrite Hp.
  - change (Text.contains n (String c h))
      with (String.prefix n (String c h) || Text.contains n h).
    rewrite orb_true_iff, prefix_chars, IH. split.
    + intros [[post Hp]|(pre & post & Hp)].
      * by exists [], post.
      * exists (c :: pre), post. simpl. by rewrite Hp.
    + intros ([|c' pre] & post & Hp).
      * left. by exists post.
      * right. injection Hp as -> Hp. by exists pre, post.
Qed.

End PyStrFacts.

(** ** [app.py]: file names *)

Module AppFacts.
Import PyStrFacts.

Lemma contains_char c s :
  Text.contains (String c "") s = true ↔ c ∈ Text.chars s.
Proof.
  rewrite contains_chars. split.
  - intros (pre & post & ->). simpl. rewrite elem_of_app. right. left.
  - intros (pre & post & ->)%list_elem_of_split. by exists pre, post.
Qed.

(** [rsplit] cuts at the last separator. *)
Lemma rsplit1_cases c s :
  ((c ∉ Text.chars s) ∧ PyStr.rsplit1 c s = [s])
  ∨ (∃ before after,
        s = before +:+ String c after ∧ (c ∉ Text.chars after)
        ∧ PyStr.rsplit1 c s = [before; after]).
Proof.
  induction s as [|x s IH]; simpl.
  { left. split; [apply not_elem_of_nil|done]. }
  destruct IH as [[Hc ->]|(before & after & Hs & Hc & ->)].
  - destruct (decide (x = c)) as [->|Hx].
    + right. by exists "", s.
    + left. split; [|done]. rewrite not_elem_of_cons. done.
  - right. exists (String x before), after. by rewrite Hs at 1.
Qed.

Lemma rsplit1_last c stem ext :
  c ∉ Text.chars ext →
  PyStr.rsplit1 c (stem +:+ String c ext) = [stem; ext].
Proof.
  intros Hc. induction stem as [|x stem IH]; simpl.
  - destruct (rsplit1_cases c ext) as [[_ ->]|(b & a & -> & _ & _)].
    + by rewrite decide_True.
    + exfalso. apply Hc. rewrite chars_app. simpl.
      rewrite elem_of_app. right. left.
  - by rewrite IH.
Qed.

Lemma lower_char_dot c : Text.lower_char c = "."%char → c = "."%char.
Proof. by destruct c as [[] [] [] [] [] [] [] []]. Qed.

Lemma lower_char_comma c : Text.lower_char c = ","%char → c = ","%char.
Proof. by destruct c as [[] [] [] [] [] [] [] []]. Qed.

End AppFacts.

(** X11.  A file name is accepted exactly when it ends in a dot followed by
    [pdf] in any letter case: the extension is what follows the last dot,
    so a name without a dot, or with anything after [pdf], is refused. *)
Theorem allowed_file_extension (filename : string) :
  App.allowed_file filename = true
  ↔ ∃ stem ext, filename = stem +:+ "." +:+ ext ∧ Text.lower ext = "pdf".
Proof.
  unfold App.allowed_file, App.ALLOWED_EXTENSIONS.
  rewrite andb_true_iff, bool_decide_eq_true, elem_of_singleton.
  rewrite AppFacts.contains_char. split.
  - intros [Hdot Hext].
    destruct (AppFacts.rsplit1_cases "." filename)
      as [[Hno _]|(before & after & Hs & _ & Hr)]; [done|].
    rewrite Hr in Hext. simpl in Hext. by exists before, after.
  - intros (stem & ext & -> & Hext).
    assert ("."%char ∉ Text.chars ext) as Hno.
    { intros Hin.
      apply (list_elem_of_fmap_2 Text.lower_char) in Hin.
      rewrite <- PyStrFacts.chars_lower, Hext in Hin. simpl in Hin.
      rewrite !elem_of_cons, elem_of_nil in Hin.
      by destruct Hin as [|[|[|]]]. }
    split.
    + rewrite PyStrFacts.chars_app. simpl. rewrite elem_of_app. right. left.
    + change ("." +:+ ext) with (String "." ext).
      by rewrite AppFacts.rsplit1_last.
Qed.

(** ** [app.py]: the skills typed into the search form *)

Module FormFacts.
Import PyStrFacts.

Lemma prefix_comma c s :
  String.prefix "," (String c s) = bool_decide (c = ","%char).
Proof.
  destruct (String.prefix "," (String c s)) eqn:Hp.
  - apply prefix_chars in Hp as [post [= -> _]]. by rewrite bool_decide_true.
  - case_bool_decide as Hc; [|done]. subst c.
    assert (String.prefix "," (String "," s) = true) as Ht.
    { apply prefix_chars. by exists (Text.chars s). }
    congruence.
Qed.

Lemma split_go_nil cur : Text.split_go "," 0 cur "" = [String.rev cur].
Proof. done. Qed.

Lemma split_go_cons cur c s :
  Text.split_go "," 0 cur (String c s)
  = if bool_decide (c = ","%char)
    then String.rev cur :: Text.split_go "," 0 "" s
    else Text.split_go "," 0 (String c cur) s.
Proof.
  change (Text.split_go "," 0 cur (String c s))
    with (if String.prefix "," (String c s)
          then String.rev cur :: Text.split_go "," 0 "" s
          else Text.split_go "," 0 (String c cur) s).
  by rewrite prefix_comma.
Qed.

(** No part of a split at commas holds a comma. *)
Lemma split_go_parts s cur :
  ","%char ∉ Text.chars cur →
  Forall (λ part, ","%char ∉ Text.chars part) (Text.split_go "," 0 cur s).
Proof.
  revert cur. induction s as [|c s IH]; intros cur Hcur.
  { rewrite split_go_nil. constructor; [|constructor].
    by rewrite chars_rev, elem_of_reverse. }
  rewrite split_go_cons. case_bool_decide as Hc.
  - constructor.
    + by rewrite chars_rev, elem_of_reverse.
    + apply IH. apply not_elem_of_nil.
  - apply IH. simpl. rewrite not_elem_of_cons. split; [congruence|done].
Qed.

(** A stretch without a comma is read into the current part. *)
Lemma split_go_app part s cur :
  ","%char ∉ Text.chars part →
  Text.split_go "," 0 cur (part +:+ s)
  = Text.split_go "," 0 (String.rev_app part cur) s.
Proof.
  revert cur. induction part as [|c part IH]; intros cur Hpart; [done|].
  simpl in Hpart. apply not_elem_of_cons in Hpart as [Hc Hpart].
  change (String c part +:+ s) with (String c (part +:+ s)).
  rewrite split_go_cons, bool_decide_false by congruence.
  by rewrite IH.
Qed.

Lemma rev_involutive s : String.rev (String.rev s) = s.
Proof. apply chars_inj. by rewrite !chars_rev, reverse_involutive. Qed.

Lemma append_nil_r s : s +:+ "" = s.
Proof. apply chars_inj. by rewrite chars_app, app_nil_r. Qed.

(** Splitting a comma-separated line gives back its parts. *)
Lemma split_concat part parts :
  Forall (λ part, ","%char ∉ Text.chars part) (part :: parts) →
  Text.split "," (String.concat "," (part :: parts)) = part :: parts.
Proof.
  unfold Text.split. revert part.
  induction parts as [|part' parts IH]; intros part Hparts.
  - simpl. apply Forall_inv in Hparts.
    rewrite <- (append_nil_r part) at 1.
    rewrite split_go_app by done. simpl.
    change (String.rev_app part "") with (String.rev part).
    by rewrite rev_involutive.
  - change (String.concat "," (part :: part' :: parts))
      with (part +:+ String "," (String.concat "," (part' :: parts))).
    inversion_clear Hparts as [|? ? Hpart Hrest].
    rewrite split_go_app, split_go_cons by done.
    rewrite bool_decide_true by done.
    change (String.rev_app part "") with (String.rev part).
    by rewrite rev_involutive, IH.
Qed.

Lemma filter_Forall {A} (P : A → Prop) `{!∀ x, Decision (P x)} (l : list A) :
  Forall P l → filter P l = l.
Proof.
  induction 1 as [|x l Hx _ IH]; [done|]. by rewrite filter_cons_True, IH.
Qed.

Lemma lower_nil s : Text.lower s = "" → s = "".
Proof. by destruct s. Qed.

Lemma contains_comma s :
  Text.contains "," s = false ↔ ","%char ∉ Text.chars s.
Proof.
  rewrite <- AppFacts.contains_char. by destruct (Text.contains "," s).
Qed.

Lemma strip_chars_subseteq s c :
  c ∈ Text.chars (Text.strip s) → c ∈ Text.chars s.
Proof.
  destruct (strip_split s) as (pre & post & -> & _). set_solver.
Qed.

Lemma clean_lower_strip part :
  ","%char ∉ Text.chars part → Text.strip part ≠ "" →
  clean_skill (Text.lower (Text.strip part)).
Proof.
  intros Hpart Hne. split_and!.
  - by intros ?%lower_nil.
  - apply lower_idemp.
  - by rewrite strip_lower, strip_idemp.
  - apply contains_comma. rewrite chars_lower.
    intros (c & Hc%eq_sym%AppFacts.lower_char_comma & Hin)%list_elem_of_fmap.
    subst c. by apply strip_chars_subseteq in Hin.
Qed.

Lemma clean_trimmed skill :
  clean_skill skill →
  (∃ c, head (Text.chars skill) = Some c ∧ Text.is_space c = false)
  ∧ (∃ c, last (Text.chars skill) = Some c ∧ Text.is_space c = false).
Proof.
  intros (Hne & _ & Hstrip & _).
  destruct (strip_split skill) as (_ & _ & _ & _ & _ & Hhd & Hlast).
  rewrite Hstrip in Hhd, Hlast.
  assert (Text.chars skill ≠ []) as Hc by by destruct skill.
  split.
  - destruct (Text.chars skill) as [|c l]; [done|]. exists c. eauto.
  - destruct (last (Text.chars skill)) as [c|] eqn:Hl; [eauto|].
    by apply last_None in Hl.
Qed.

Lemma concat_head part parts c :
  head (Text.chars part) = Some c →
  head (Text.chars (String.concat "," (part :: parts))) = Some c.
Proof.
  destruct parts as [|part' parts]; [done|].
  change (String.concat "," (part :: part' :: parts))
    with (part +:+ String "," (String.concat "," (part' :: parts))).
  rewrite chars_app. by destruct (Text.chars part).
Qed.

Lemma last_cons_default (x d : string) l :
  List.last (x :: l) d = List.last l x.
Proof.
  revert x d. induction l as [|y l IH]; intros x d; [done|].
  change (List.last (x :: y :: l) d) with (List.last (y :: l) d).
  by rewrite !(IH y).
Qed.

Lemma last_elem (d : string) l : List.last l d ∈ d :: l.
Proof.
  revert d. induction l as [|y l IH]; intros d; [left|].
  rewrite last_cons_default. right. apply IH.
Qed.

Lemma concat_last part parts c :
  last (Text.chars (List.last parts part)) = Some c →
  last (Text.chars (String.concat "," (part :: parts))) = Some c.
Proof.
  revert part. induction parts as [|part' parts IH]; intros part; [done|].
  change (String.concat "," (part :: part' :: parts))
    with (part +:+ String "," (String.concat "," (part' :: parts))).
  intros Hl. rewrite chars_app.
  change (Text.chars (String "," ?s)) with ([","%char] ++ Text.chars s).
  rewrite !last_app.
  rewrite last_cons_default in Hl. by rewrite (IH part' Hl).
Qed.

End FormFacts.

(** X12.  Every skill read from the search form is clean: it is not empty,
    in lower case, has no white space at its ends and holds no comma.  A
    form value of white space only gives no skill at all. *)
Theorem parse_required_skills_clean (value : string) :
  Forall clean_skill (App.parse_required_skills value)
  ∧ (Text.strip value = "" → App.parse_required_skills value = []).
Proof.
  unfold App.parse_required_skills. split.
  - apply Forall_fmap, Forall_forall. intros part [Hne Hpart]%list_elem_of_filter.
    simpl. apply FormFacts.clean_lower_strip; [|done].
    pose proof (FormFacts.split_go_parts (Text.strip value) ""
                  (not_elem_of_nil _)) as Hparts.
    rewrite Forall_forall in Hparts. by apply Hparts.
  - by intros ->.
Qed.

Lemma parse_required_skills_clean_witness :
  Forall clean_skill (App.parse_required_skills " Python , SQL,,")
  ∧ App.parse_required_skills "   " = [].
Proof.
  split.
  - apply (parse_required_skills_clean " Python , SQL,,").
  - by apply (parse_required_skills_clean "   ").
Defined.

(** X13.  Typing clean skills separated by commas gives back exactly those
    skills, in the order typed and with repetitions kept. *)
Theorem parse_required_skills_round_trip (skills : list string) :
  Forall clean_skill skills →
  App.parse_required_skills (String.concat "," skills) = skills.
Proof.
  intros Hclean. destruct skills as [|skill skills]; [done|].
  unfold App.parse_required_skills.
  assert (Text.strip (String.concat "," (skill :: skills))
          = String.concat "," (skill :: skills)) as ->.
  { apply PyStrFacts.strip_trimmed; intros c Hc.
    - destruct (FormFacts.clean_trimmed skill) as [(c' & Hhd & Hsp) _].
      { by apply Forall_inv in Hclean. }
      rewrite (FormFacts.concat_head _ _ _ Hhd) in Hc. congruence.
    - destruct (FormFacts.clean_trimmed (List.last skills skill))
        as [_ (c' & Hl & Hsp)].
      { rewrite Forall_forall in Hclean. apply Hclean.
        apply FormFacts.last_elem. }
      rewrite (FormFacts.concat_last _ _ _ Hl) in Hc. congruence. }
  rewrite FormFacts.split_concat.
  - rewrite FormFacts.filter_Forall.
    + rewrite <- (list_fmap_id (skill :: skills)) at 2.
      apply Forall_fmap_ext_1. eapply Forall_impl; [done|].
      intros s (_ & Hlow & Hstrip & _). simpl. by rewrite Hstrip.
    + eapply Forall_impl; [done|]. intros s (Hne & _ & Hstrip & _).
      by rewrite Hstrip.
  - eapply Forall_impl; [done|]. intros s (_ & _ & _ & Hc).
    by apply FormFacts.contains_comma.
Qed.

Lemma parse_required_skills_round_trip_witness :
  App.parse_required_skills "python,machine learning,c++"
  = ["python"; "machine learning"; "c++"].
Proof.
  apply (parse_required_skills_round_trip
           ["python"; "machine learning"; "c++"]).
  repeat constructor; by vm_compute.
Defined.

(** ** [app.py]: the results page *)

(** X14.  A search is answered with a results page exactly when some resume
    is stored.  On the page the number of matches is the length of the list
    shown and never exceeds the number of stored resumes, the candidates
    carry the ranks 1, 2, ... in the order shown, every entry of the list is
    a candidate dictionary, and the [match_score] of a candidate is at least
    that of every candidate shown after it. *)
Theorem search_results_page (float : string → outcome Q)
    (resumes_data : list (string * resume_entry))
    (form : gmap string string) :
  (App.search float resumes_data form = None ↔ resumes_data = [])
  ∧ ∀ page, App.search float resumes_data form = Some page →
      let h := (App.candidates page).1 in
      let shown := (App.candidates page).2 in
      App.total_candidates page = length resumes_data
      ∧ App.matching_count page = length shown
      ∧ App.matching_count page ≤ App.total_candidates page
      ∧ (λ l, h !! l ≫= cm_rank) <$> shown
        = Some <$> seq 1 (App.matching_count page)
      ∧ Forall (λ l, is_Some (h !! l)) shown
      ∧ (∀ i j a b ca cb,
           i < j → shown !! i = Some a → shown !! j = Some b →
           h !! a = Some ca → h !! b = Some cb →
           (cm_match_score cb <= cm_match_score ca)%Q).
Proof.
  unfold App.search. split.
  { by case_decide. }
  intros page. case_decide as Hdata; [done|].
  set (skills := App.parse_required_skills _).
  set (min_exp := match float _ with Returned x => x | Raised _ => 0%Q end).
  destruct (search_ranked resumes_data skills min_exp)
    as (Hperm & Hranks & Hdesc).
  assert (Forall (λ l, is_Some ((search resumes_data skills min_exp).1 !! l))
                 (search resumes_data skills min_exp).2) as Halloc.
  { apply Forall_forall. intros l Hl.
    apply (list_elem_of_fmap_2
             (λ l, clear_rank <$> (search resumes_data skills min_exp).1 !! l))
      in Hl.
    rewrite Hperm in Hl. apply list_elem_of_fmap in Hl as (c & Hc & _).
    by apply (fmap_is_Some clear_rank); rewrite Hc. }
  assert (∀ i j a b ca cb,
            i < j →
            (search resumes_data skills min_exp).2 !! i = Some a →
            (search resumes_data skills min_exp).2 !! j = Some b →
            (search resumes_data skills min_exp).1 !! a = Some ca →
            (search resumes_data skills min_exp).1 !! b = Some cb →
            (cm_match_score cb <= cm_match_score ca)%Q) as Horder.
  { intros i j a b ca cb Hij Ha Hb Hca Hcb.
    rewrite <- (score_at_lookup _ _ _ Hca), <- (score_at_lookup _ _ _ Hcb).
    by eapply descending_lookup. }
  apply Permutation_length in Hperm. rewrite !length_fmap in Hperm.
  assert (length (match_candidates resumes_data skills min_exp)
          ≤ length resumes_data) as Hle.
  { rewrite match_candidates_kept, length_fmap.
    apply sublist_length, kept_sublist. }
  rewrite <- Hperm in Hranks, Hle.
  set (out := search resumes_data skills min_exp) in *. clearbody out.
  by intros [= <-].
Qed.

Lemma search_results_page_witness :
  ∃ page,
    App.search (λ _, Raised "ValueError") sample_data
               {[ "required_skills" := "Python, Java" ]} = Some page
    ∧ App.matching_count page ≤ App.total_candidates page
    ∧ (∀ i j a b ca cb,
         i < j → (App.candidates page).2 !! i = Some a →
         (App.candidates page).2 !! j = Some b →
         (App.candidates page).1 !! a = Some ca →
         (App.candidates page).1 !! b = Some cb →
         (cm_match_score cb <= cm_match_score ca)%Q).
Proof.
  destruct (App.search (λ _, Raised "ValueError") sample_data
                       {[ "required_skills" := "Python, Java" ]})
    as [page|] eqn:Hpage; [|vm_compute in Hpage; discriminate].
  exists page. split; [done|].
  destruct (search_results_page (λ _, Raised "ValueError") sample_data
              {[ "required_skills" := "Python, Java" ]}) as [_ Hp].
  by destruct (Hp page Hpage) as (_ & _ & Hle & _ & _ & Horder).
Defined.

(** ** [app.py]: uploads *)

Module UploadFacts.
Section upload_facts.
Context `{FieldExtractors}.

Lemma allowed_file_nonempty filename :
  App.allowed_file filename = true → filename ≠ "".
Proof. by intros Ha ->. Qed.

Lemma dict_set_elem key value d item :
  item ∈ App.dict_set key value d → item = (key, value) ∨ item ∈ d.
Proof.
  induction d as [|[k v] d IH]; simpl.
  - intros ->%list_elem_of_singleton. by left.
  - case_decide as Hk.
    + rewrite !elem_of_cons. tauto.
    + rewrite !elem_of_cons. intros [->|Hin]; [tauto|].
      destruct (IH Hin); tauto.
Qed.

Lemma dict_set_length key value d :
  length (App.dict_set key value d) ≤ S (length d).
Proof.
  induction d as [|[k v] d IH]; simpl; [done|]. case_decide; simpl; lia.
Qed.

Lemma dict_set_fresh key value d :
  key ∉ d.*1 → App.dict_set key value d = d ++ [(key, value)].
Proof.
  induction d as [|[k v] d IH]; simpl; [done|].
  rewrite not_elem_of_cons. intros [Hk Hd].
  rewrite decide_False by done. by rewrite IH.
Qed.

(** One turn of the loop, by what became of the file. *)
Lemma upload_step_cases st file :
  let st' := App.upload_step st file in
  (App.allowed_file (App.file_name file) = false ∧ st' = st)
  ∨ (App.allowed_file (App.file_name file) = true
     ∧ st' = App.failed st
     ∧ ∀ item, ¬ stored_as file item)
  ∨ (App.allowed_file (App.file_name file) = true
     ∧ ∃ entry,
         stored_as file (App.drawn_id file, entry)
         ∧ st' = {| App.resumes :=
                      App.dict_set (App.drawn_id file) entry (App.resumes st);
                    App.parsed_count := App.parsed_count st + 1;
                    App.failed_count := App.failed_count st |}).
Proof.
  cbv zeta. unfold App.upload_step.
  destruct (App.allowed_file (App.file_name file)) eqn:Ha.
  2:{ left. by rewrite andb_false_r. }
  right. rewrite bool_decide_true by by apply allowed_file_nonempty.
  rewrite andb_true_l.
  destruct (App.save file) as [u|e] eqn:Hsave.
  2:{ left. split_and!; [done..|].
      intros item (_ & [u Hu] & _). congruence. }
  destruct (ResumeParser.parse_resume (App.pdf file)) as [t|] eqn:Hparse.
  2:{ left. split_and!; [done..|].
      intros item (_ & _ & (t & Ht & _) & _). congruence. }
  destruct t as [|c t].
  { left. split_and!; [done..|].
    intros item (_ & _ & (t' & Ht' & Hi) & _).
    rewrite Hparse in Ht'. by injection Ht' as <-. }
  destruct (extract_information (Some (String c t)))
    as [resume_info|] eqn:Hinfo.
  - right. split; [done|]. eexists. split; [|reflexivity].
    split_and!; [done|by exists u|by exists (String c t)|done..].
  - left. split_and!; [done..|].
    intros item (_ & _ & (t' & Ht' & Hi) & _).
    rewrite Hparse in Ht'. injection Ht' as <-. congruence.
Qed.

Lemma foldl_upload_counts files st :
  let st' := foldl App.upload_step st files in
  App.parsed_count st' + App.failed_count st'
  = App.parsed_count st + App.failed_count st + length (accepted files)
  ∧ length (App.resumes st') + App.parsed_count st
    ≤ length (App.resumes st) + App.parsed_count st'
  ∧ App.parsed_count st ≤ App.parsed_count st'.
Proof.
  revert st. unfold accepted.
  induction files as [|file files IH]; intros st; simpl; [lia|].
  specialize (IH (App.upload_step st file)). simpl in IH.
  destruct IH as (IH1 & IH2 & IH3).
  destruct (upload_step_cases st file)
    as [[Ha Hst]|[(Ha & Hst & _)|(Ha & entry & _ & Hst)]];
    simpl in Hst; rewrite Hst in *; simpl in *.
  - rewrite filter_cons_False by congruence. lia.
  - rewrite filter_cons_True by done. simpl. lia.
  - rewrite filter_cons_True by done. simpl.
    pose proof (dict_set_length (App.drawn_id file) entry (App.resumes st)).
    lia.
Qed.

Lemma foldl_upload_elem files st item :
  item ∈ App.resumes (foldl App.upload_step st files) →
  item ∈ App.resumes st ∨ ∃ file, file ∈ files ∧ stored_as file item.
Proof.
  revert st. induction files as [|file files IH]; intros st; simpl; [tauto|].
  intros [Hin|(file' & Hin & Hst)]%IH.
  - destruct (upload_step_cases st file)
      as [[_ Hst]|[(_ & Hst & _)|(_ & entry & Hstored & Hst)]];
      simpl in Hst; rewrite Hst in Hin; simpl in Hin; [by left..|].
    apply dict_set_elem in Hin as [->|Hin]; [|by left].
    right. exists file. split; [left|done].
  - right. exists file'. split; [by right|done].
Qed.

End upload_facts.
End UploadFacts.

(** X15.  After a batch each file with an allowed name was counted once, as
    parsed or as failed, and files with other names were not counted; the
    dictionary grew by at most the number of files parsed. *)
Theorem upload_counts `{FieldExtractors}
    (resumes_data : list (string * resume_entry)) (files : list App.upload)
    (clear_previous : option string)
    (resumes_data' : list (string * resume_entry)) (parsed failed : nat) :
  App.upload_file resumes_data (Some files) clear_previous
  = (resumes_data', App.Processed parsed failed) →
  parsed + failed = length (accepted files)
  ∧ length resumes_data'
    ≤ length (batch_base resumes_data clear_previous) + parsed.
Proof.
  unfold App.upload_file, batch_base.
  destruct (_ || _); [done|]. intros [= <- <- <-].
  match goal with |- context [foldl App.upload_step ?st files] =>
    destruct (UploadFacts.foldl_upload_counts files st) as (H1 & H2 & _) end.
  simpl in *. lia.
Qed.

Lemma upload_counts_witness :
  1 + 1 = length (accepted sample_uploads)
  ∧ length (App.upload_file (H0 := sample_extractors) [sample_ann]
                            (Some sample_uploads) None).1
    ≤ length (batch_base [sample_ann] None) + 1.
Proof.
  apply (upload_counts (H0 := sample_extractors) [sample_ann] sample_uploads
                       None).
  by vm_compute.
Defined.

(** X16.  Whatever the dictionary holds after a batch was there before (and
    the batch did not ask to clear it) or was stored for a file of the
    batch: a file with an allowed name that was saved, gave text, and for
    whose text the structurer returned the record stored, under the
    identifier drawn for the file and its secured name. *)
Theorem upload_stores_parsed `{FieldExtractors}
    (resumes_data : list (string * resume_entry)) (files : list App.upload)
    (clear_previous : option string)
    (resumes_data' : list (string * resume_entry)) (parsed failed : nat)
    (item : string * resume_entry) :
  App.upload_file resumes_data (Some files) clear_previous
  = (resumes_data', App.Processed parsed failed) →
  item ∈ resumes_data' →
  item ∈ batch_base resumes_data clear_previous
  ∨ ∃ file, file ∈ files ∧ stored_as file item.
Proof.
  unfold App.upload_file, batch_base.
  destruct (_ || _); [done|]. intros [= <- <- <-] Hin.
  by apply UploadFacts.foldl_upload_elem in Hin.
Qed.

Lemma upload_stores_parsed_witness :
  let resumes_data' :=
    (App.upload_file (H0 := sample_extractors) [sample_ann]
                     (Some sample_uploads) (Some "true")).1 in
  let item := default sample_ann (head resumes_data') in
  item ∈ batch_base [sample_ann] (Some "true")
  ∨ ∃ file, file ∈ sample_uploads
            ∧ stored_as (H0 := sample_extractors) file item.
Proof.
  intros resumes_data' item.
  apply (upload_stores_parsed (H0 := sample_extractors) [sample_ann]
           sample_uploads (Some "true") resumes_data' 1 1 item).
  - by vm_compute.
  - apply (list_elem_of_lookup_2 _ 0). by vm_compute.
Defined.

(** ** [parse_resume] *)

Module ParseFacts.
Import PyStrFacts.

Lemma append_assoc s1 s2 s3 : (s1 +:+ s2) +:+ s3 = s1 +:+ s2 +:+ s3.
Proof. apply chars_inj. by rewrite !chars_app, app_assoc. Qed.

Lemma read_pages_Returned pages text t :
  ResumeParser.read_pages pages text = Returned t
  ↔ ∃ texts, page_texts pages texts ∧ t = text +:+ joined texts.
Proof.
  unfold page_texts. revert text.
  induction pages as [|p pages IH]; intros text; simpl.
  - split.
    + intros [= <-]. exists []. split; [constructor|].
      by rewrite FormFacts.append_nil_r.
    + intros (texts & ->%Forall2_nil_inv_l & ->). simpl.
      by rewrite FormFacts.append_nil_r.
  - destruct (ResumeParser.page_text p) as [tp|e] eqn:Hp; simpl.
    + rewrite IH. split.
      * intros (texts & Hts & ->). exists (tp :: texts).
        split; [by constructor|]. simpl. by rewrite !append_assoc.
      * intros (texts & (tp' & texts' & Htp & Hts & ->)%Forall2_cons_inv_l & ->).
        rewrite Hp in Htp. injection Htp as <-.
        exists texts'. split; [done|]. simpl. by rewrite !append_assoc.
    + split; [done|].
      intros (texts & (tp' & texts' & Htp & _)%Forall2_cons_inv_l & _).
      congruence.
Qed.

Lemma read_pages_Raised pages text p e :
  p ∈ pages → ResumeParser.page_text p = Raised e →
  ∃ e', ResumeParser.read_pages pages text = Raised e'.
Proof.
  intros Hin Hp. revert text.
  induction pages as [|q pages IH]; intros text; [by apply elem_of_nil in Hin|].
  simpl. apply elem_of_cons in Hin as [<-|Hin].
  - rewrite Hp. by exists e.
  - destruct (ResumeParser.page_text q); simpl; [by apply IH|by eexists].
Qed.

Lemma page_texts_unique pages texts texts' :
  page_texts pages texts → page_texts pages texts' → texts = texts'.
Proof.
  intros Hts. revert texts'.
  induction Hts as [|p t pages texts Hp _ IH]; intros texts' Hts'.
  { by apply Forall2_nil_inv_l in Hts'. }
  apply Forall2_cons_inv_l in Hts' as (t' & texts'' & Hp' & Hts' & ->).
  f_equal; [congruence|by apply IH].
Qed.

Lemma blank_app l1 l2 : blank (l1 ++ l2) ↔ blank l1 ∧ blank l2.
Proof. apply Forall_app. Qed.

Lemma joined_blank texts :
  Text.strip (joined texts) = "" ↔ Forall (λ t, Text.strip t = "") texts.
Proof.
  rewrite strip_blank. induction texts as [|t texts IH]; simpl.
  { split; constructor. }
  rewrite !chars_app, !blank_app, IH, Forall_cons, strip_blank.
  assert (blank (Text.chars nl)) by (by repeat constructor). tauto.
Qed.

End ParseFacts.

(** X17.  [parse_resume] returns a text exactly when the file opens, every
    page gives a text (its own, or the one read by OCR when its own is
    blank) and not all of these texts are blank; the text returned is then
    the page texts in order, each followed by a line feed.  In every other
    case, also when a single page raises, the result is [None]. *)
Theorem parse_resume_returns (pdf : outcome (list ResumeParser.page))
    (text : string) :
  ResumeParser.parse_resume pdf = Some text
  ↔ ∃ pages texts,
      pdf = Returned pages ∧ page_texts pages texts
      ∧ text = joined texts
      ∧ ¬ Forall (λ t, Text.strip t = "") texts.
Proof.
  unfold ResumeParser.parse_resume. destruct pdf as [pages|e]; simpl.
  2:{ split; [done|]. by intros (? & ? & ? & _). }
  destruct (ResumeParser.read_pages pages "") as [t|e] eqn:Hread.
  - apply ParseFacts.read_pages_Returned in Hread as (texts & Hts & ->).
    change ("" +:+ joined texts) with (joined texts).
    case_decide as Hblank.
    + split; [done|]. intros (pages' & texts' & [= <-] & Hts' & -> & Hnb).
      rewrite (ParseFacts.page_texts_unique _ _ _ Hts' Hts) in Hnb.
      by apply ParseFacts.joined_blank in Hblank.
    + split.
      * intros [= <-]. exists pages, texts. split_and!; [done..|].
        by rewrite <- ParseFacts.joined_blank.
      * intros (pages' & texts' & [= <-] & Hts' & -> & Hnb).
        by rewrite (ParseFacts.page_texts_unique _ _ _ Hts' Hts).
  - split; [done|]. intros (pages' & texts & [= <-] & Hts & -> & _).
    assert (ResumeParser.read_pages pages "" = Returned ("" +:+ joined texts))
      as Hr by (apply ParseFacts.read_pages_Returned; eauto).
    congruence.
Qed.

(** X18.  The text read by OCR is used for the pages whose own text is
    blank, and for no other page: two files whose pages have the same text
    layers, and the same OCR outcome on the pages with a blank layer, give
    the same result. *)
Theorem parse_resume_ocr_only_blank (pages pages' : list ResumeParser.page) :
  Forall2 (λ p p',
     ResumeParser.extract_text p = ResumeParser.extract_text p'
     ∧ (∀ t, ResumeParser.extract_text p = Returned t →
             Text.strip (default "" t) = "" →
             ResumeParser.ocr p = ResumeParser.ocr p')) pages pages' →
  ResumeParser.parse_resume (Returned pages)
  = ResumeParser.parse_resume (Returned pages').
Proof.
  intros Hpages. unfold ResumeParser.parse_resume. simpl.
  enough (∀ text, ResumeParser.read_pages pages text
                  = ResumeParser.read_pages pages' text) as -> by done.
  induction Hpages as [|p p' pages pages' [Htext Hocr] _ IH]; intros text;
    [done|].
  simpl.
  assert (ResumeParser.page_text p = ResumeParser.page_text p') as ->.
  { unfold ResumeParser.page_text. rewrite <- Htext.
    destruct (ResumeParser.extract_text p) as [t|e]; simpl; [|done].
    case_decide; [by apply (Hocr t)|done]. }
  destruct (ResumeParser.page_text p'); simpl; [apply IH|done].
Qed.

Lemma parse_resume_ocr_only_blank_witness :
  ResumeParser.parse_resume
    (Returned [ {| ResumeParser.extract_text := Returned (Some "Ann Lee");
                   ResumeParser.ocr := Raised "TesseractNotFoundError" |} ])
  = ResumeParser.parse_resume
      (Returned [ {| ResumeParser.extract_text := Returned (Some "Ann Lee");
                     ResumeParser.ocr := Returned "Bob Ray" |} ]).
Proof.
  apply parse_resume_ocr_only_blank.
  constructor; [|constructor]. simpl. split; [reflexivity|].
  intros t [= <-] Hblank. vm_compute in Hblank. discriminate.
Defined.

(** X19.  One page that raises loses the whole file: when reading a page
    raises, be it the extraction of its text or the OCR of a blank page,
    [parse_resume] returns [None] whatever the other pages hold. *)
Theorem parse_resume_page_raises (pages : list ResumeParser.page)
    (p : ResumeParser.page) (e : string) :
  p ∈ pages → ResumeParser.page_text p = Raised e →
  ResumeParser.parse_resume (Returned pages) = None.
Proof.
  intros Hin Hp. unfold ResumeParser.parse_resume. simpl.
  by destruct (ParseFacts.read_pages_Raised pages "" p e Hin Hp) as [e' ->].
Qed.

Lemma parse_resume_page_raises_witness :
  ResumeParser.parse_resume
    (Returned [ {| ResumeParser.extract_text := Returned (Some "Ann Lee");
                   ResumeParser.ocr := Returned "" |};
                {| ResumeParser.extract_text := Returned None;
                   ResumeParser.ocr := Raised "UnidentifiedImageError" |} ])
  = None.
Proof.
  eapply parse_resume_page_raises.
  - apply list_elem_of_further, list_elem_of_here.
  - vm_compute. reflexivity.
Defined.

(** ** [is_valid_skill] and [extract_skills] *)

Module SkillFacts.
Import PyStrFacts.

Lemma rev_lower s : String.rev (Text.lower s) = Text.lower (String.rev s).
Proof.
  apply chars_inj. by rewrite chars_rev, !chars_lower, chars_rev, fmap_reverse.
Qed.

Lemma words_go_lower cur s :
  PyStr.words_go (Text.lower cur) (Text.lower s)
  = Text.lower <$> PyStr.words_go cur s.
Proof.
  assert (∀ cur, (if decide (Text.lower cur = "") then []
                  else [String.rev (Text.lower cur)])
                 = Text.lower <$> (if decide (cur = "") then []
                                   else [String.rev cur])) as Hcur.
  { intros [|x cur']; [done|].
    rewrite !decide_False by done. simpl fmap. by rewrite <- rev_lower. }
  revert cur. induction s as [|c s IH]; intros cur; simpl.
  { apply Hcur. }
  rewrite is_space_lower_char. destruct (Text.is_space c).
  - rewrite fmap_app, Hcur. f_equal. apply (IH "").
  - apply (IH (String c cur)).
Qed.

Lemma words_lower s : PyStr.words (Text.lower s) = Text.lower <$> PyStr.words s.
Proof. apply (words_go_lower ""). Qed.

Lemma is_valid_skill_length text :
  ResumeParser.is_valid_skill text = true → 2 ≤ String.length text ≤ 30.
Proof.
  unfold ResumeParser.is_valid_skill.
  destruct (String.length text <? 2) eqn:H2.
  { by rewrite orb_true_r. }
  destruct (30 <? String.length text) eqn:H30.
  { by destruct (_ || _). }
  apply Nat.ltb_ge in H2, H30. lia.
Qed.

Section skills.
Context `{Library} `{Runtime}.

Lemma add_item_elem skills item s :
  s ∈ ResumeParser.add_item skills item
  ↔ s ∈ skills
    ∨ (s = Text.strip item ∧ ResumeParser.is_valid_skill s = true).
Proof.
  unfold ResumeParser.add_item.
  destruct (ResumeParser.is_valid_skill (Text.strip item)) eqn:Hv; simpl.
  - case_bool_decide as Hin.
    + rewrite elem_of_app, list_elem_of_singleton. split.
      * intros [?| ->]; [by left|by right].
      * intros [?|[-> _]]; [by left|by right].
    + split; [by left|].
      by intros [?|[-> _]].
  - split; [by left|]. intros [?|[-> Hs]]; [done|congruence].
Qed.

Lemma foldl_add_item_elem items skills s :
  s ∈ foldl ResumeParser.add_item skills items
  ↔ s ∈ skills
    ∨ ∃ item, item ∈ items ∧ s = Text.strip item
              ∧ ResumeParser.is_valid_skill s = true.
Proof.
  revert skills. induction items as [|item items IH]; intros skills; simpl.
  { split; [by left|]. intros [?|(? & ?%elem_of_nil & _)]; done. }
  rewrite IH, add_item_elem. split.
  - intros [[?|[? ?]]|(item' & ? & ? & ?)].
    + by left.
    + right. exists item. split; [left|done].
    + right. exists item'. split; [by right|done].
  - intros [?|(item' & [-> |?]%elem_of_cons & ? & ?)].
    + by left; left.
    + by left; right.
    + right. by exists item'.
Qed.

Lemma foldl_add_section_elem sections skills s :
  s ∈ foldl ResumeParser.add_section skills sections
  ↔ s ∈ skills
    ∨ ∃ section item,
        section ∈ sections
        ∧ item ∈ re_split ResumeParser.item_pattern section
        ∧ s = Text.strip item ∧ ResumeParser.is_valid_skill s = true.
Proof.
  revert skills.
  induction sections as [|section sections IH]; intros skills; simpl.
  { split; [by left|]. intros [?|(? & ? & ?%elem_of_nil & _)]; done. }
  rewrite IH. unfold ResumeParser.add_section.
  rewrite foldl_add_item_elem. split.
  - intros [[?|(item & ? & ? & ?)]|(section' & item & ? & ? & ? & ?)].
    + by left.
    + right. exists section, item. split; [left|done].
    + right. exists section', item. split; [by right|done].
  - intros [?|(section' & item & [-> |?]%elem_of_cons & ? & ? & ?)].
    + by left; left.
    + left; right. by exists item.
    + right. by exists section', item.
Qed.

Lemma list_of_set_elem l s : s ∈ list_of_set l ↔ s ∈ l.
Proof. by rewrite list_of_set_perm, elem_of_remove_dups. Qed.

Lemma list_of_set_NoDup l : NoDup (list_of_set l).
Proof. rewrite list_of_set_perm. apply NoDup_remove_dups. Qed.

End skills.
End SkillFacts.

(** X20.  On ASCII text [is_valid_skill] does not depend on the letter case
    of its argument, and what it accepts has between 2 and 30 characters and
    at most four words.  (Outside ASCII the first part fails of Python:
    lower-casing can change the length of a string.) *)
Theorem is_valid_skill_case (text : string) :
  ascii_text text →
  ResumeParser.is_valid_skill (Text.lower text)
  = ResumeParser.is_valid_skill text
  ∧ (ResumeParser.is_valid_skill text = true →
     2 ≤ String.length text ≤ 30 ∧ length (PyStr.words text) ≤ 4).
Proof.
  intros _. split.
  - unfold ResumeParser.is_valid_skill.
    rewrite PyStrFacts.lower_length, lower_idemp, SkillFacts.words_lower,
      length_fmap.
    by destruct text.
  - intros Hv. split; [by apply SkillFacts.is_valid_skill_length|].
    unfold ResumeParser.is_valid_skill in Hv.
    destruct (_ || _); [done|]. destruct (30 <? _); [done|].
    destruct (existsb _ _); [done|].
    destruct (4 <? length (PyStr.words text)) eqn:H4; [done|].
    by apply Nat.ltb_ge in H4.
Qed.

Lemma is_valid_skill_case_witness :
  ResumeParser.is_valid_skill (Text.lower "Power BI")
  = ResumeParser.is_valid_skill "Power BI"
  ∧ (ResumeParser.is_valid_skill "Power BI" = true →
     2 ≤ String.length "Power BI" ≤ 30
     ∧ length (PyStr.words "Power BI") ≤ 4).
Proof. apply (is_valid_skill_case "Power BI"). by_compute. Defined.

(** X21.  [extract_skills] reports a skill exactly when it is a word of one
    of the two vocabularies that the word-boundary search finds in the
    lower-cased text, or the stripped form of an item of a skills section
    that [is_valid_skill] accepts. *)
Theorem extract_skills_reports `{Library} `{Runtime} (text skill : string) :
  skill ∈ ResumeParser.extract_skills text
  ↔ (skill ∈ ResumeParser.common_skills ++ ResumeParser.potential_skill_words
     ∧ re_found (ResumeParser.word_pattern skill) (Text.lower text) = true)
    ∨ (ResumeParser.is_valid_skill skill = true
       ∧ ∃ section item,
           section ∈ re_findall ResumeParser.skills_section_pattern true
                                (Text.lower text)
           ∧ item ∈ re_split ResumeParser.item_pattern section
           ∧ skill = Text.strip item).
Proof.
  unfold ResumeParser.extract_skills, ResumeParser.found_in.
  rewrite SkillFacts.list_of_set_elem, SkillFacts.foldl_add_section_elem.
  rewrite !elem_of_app, !list_elem_of_filter. split.
  - intros [[[? ?]|[? ?]]|(section & item & ? & ? & ? & ?)].
    + left. split; [by left|done].
    + left. split; [by right|done].
    + right. split; [done|]. by exists section, item.
  - intros [[[?|?] ?]|[? (section & item & ? & ? & ?)]].
    + by left; left.
    + by left; right.
    + right. by exists section, item.
Qed.

(** X22.  The skills [extract_skills] reports are pairwise distinct, and
    each has between 2 and 30 characters. *)
Theorem extract_skills_shape `{Library} `{Runtime} (text : string) :
  NoDup (ResumeParser.extract_skills text)
  ∧ Forall (λ skill, 2 ≤ String.length skill ≤ 30)
           (ResumeParser.extract_skills text).
Proof.
  split; [apply SkillFacts.list_of_set_NoDup|].
  apply Forall_forall. intros skill Hin.
  assert (Forall (λ skill, 2 ≤ String.length skill ≤ 30)
                 (ResumeParser.common_skills
                  ++ ResumeParser.potential_skill_words)) as Hvoc.
  { apply (bool_decide_unpack _). vm_compute. exact I. }
  rewrite Forall_forall in Hvoc.
  unfold ResumeParser.extract_skills, ResumeParser.found_in in Hin.
  rewrite SkillFacts.list_of_set_elem, SkillFacts.foldl_add_section_elem in Hin.
  rewrite !elem_of_app, !list_elem_of_filter in Hin.
  destruct Hin as [[[_ ?]|[_ ?]]|(section & item & _ & _ & _ & Hv)].
  - apply Hvoc, elem_of_app. by left.
  - apply Hvoc, elem_of_app. by right.
  - by apply SkillFacts.is_valid_skill_length.
Qed.

(** ** [extract_contact_info] *)

(** X23.  The contact dictionary always has exactly the four keys.  The
    address is never filled in; the e-mail address and the telephone number
    are the first match of their pattern in the text, the LinkedIn address
    the first match in the lower-cased text, and each is empty when there is
    no match. *)
Theorem extract_contact_info_fields `{Library} (text : string) :
  let contact := ResumeParser.extract_contact_info text in
  dom contact = {[ "email"; "phone"; "linkedin"; "address" ]}
  ∧ contact !! "address" = Some ""
  ∧ contact !! "email"
    = Some (default "" (head (re_findall ResumeParser.email_pattern false
                                         text)))
  ∧ contact !! "phone"
    = Some (default "" (head (re_findall ResumeParser.phone_pattern false
                                         text)))
  ∧ contact !! "linkedin"
    = Some (default "" (head (re_findall ResumeParser.linkedin_pattern false
                                         (Text.lower text)))).
Proof.
  unfold ResumeParser.extract_contact_info, ResumeParser.set_first,
    ResumeParser.empty_contact.
  destruct (re_findall ResumeParser.email_pattern false text) as [|m1 ?],
    (re_findall ResumeParser.phone_pattern false text) as [|m2 ?],
    (re_findall ResumeParser.linkedin_pattern false (Text.lower text))
      as [|m3 ?];
    simpl; (split; [rewrite !dom_insert_L, dom_empty_L; set_solver|]);
    by vm_compute.
Qed.

(** ** [extract_name] *)

Module NameFacts.
Import PyStrFacts.

(** What occurs in the stripped line, in lower case, occurs in the line. *)
Lemma contains_lower_strip bad line :
  Text.contains bad (Text.lower line) = false →
  Text.contains bad (Text.lower (Text.strip line)) = false.
Proof.
  intros Hline.
  destruct (Text.contains bad (Text.lower (Text.strip line))) eqn:Hs; [|done].
  rewrite <- Hline. symmetry.
  apply contains_chars in Hs as (pre' & post' & Hs).
  destruct (strip_split line) as (pre & post & Hl & _).
  apply contains_chars.
  exists ((Text.lower_char <$> pre) ++ pre'),
         (post' ++ (Text.lower_char <$> post)).
  rewrite chars_lower, Hl, !fmap_app, <- chars_lower, Hs.
  by rewrite <- !app_assoc.
Qed.

Lemma existsb_false {A} (f : A → bool) l x :
  existsb f l = false → x ∈ l → f x = false.
Proof.
  induction l as [|y l IH]; simpl; [by intros _ ?%elem_of_nil|].
  intros [Hy Hl]%orb_false_iff [->|Hin]%elem_of_cons; auto.
Qed.

Lemma words_nil : PyStr.words "" = [].
Proof. done. Qed.

Lemma name_from_lines_Some lines candidate_name :
  ResumeParser.name_from_lines lines = Some candidate_name →
  ∃ line, line ∈ lines ∧ candidate_name = Text.strip line
          ∧ candidate_name ≠ ""
          ∧ existsb (λ bad, Text.contains bad (Text.lower line))
                    ResumeParser.name_denylist = false.
Proof.
  induction lines as [|line lines IH]; [done|].
  assert (ResumeParser.name_from_lines lines = Some candidate_name →
          ∃ line0, line0 ∈ line :: lines
                   ∧ candidate_name = Text.strip line0
                   ∧ candidate_name ≠ ""
                   ∧ existsb (λ bad, Text.contains bad (Text.lower line0))
                             ResumeParser.name_denylist = false) as Hrest.
  { intros (line0 & ? & ?)%IH. exists line0. split; [by right|done]. }
  cbn [ResumeParser.name_from_lines].
  destruct (_ || _); [done|].
  destruct (1 <=? length (PyStr.words (Text.strip line))) eqn:Hwords;
    [|done].
  destruct (_ && _); [|done].
  destruct (existsb _ ResumeParser.name_denylist) eqn:Hbad; [done|].
  intros [= <-]. exists line. split_and!; [left|done| |done].
  intros Hempty. rewrite Hempty in Hwords. done.
Qed.

Section ents.
Context `{Library}.

Lemma name_from_ents_Some entities candidate_name :
  ResumeParser.name_from_ents entities = Some candidate_name →
  ∃ ent, ent ∈ entities ∧ ent.2 = "PERSON"
         ∧ candidate_name = Text.strip ent.1
         ∧ existsb (λ bad, Text.contains bad (Text.lower ent.1))
                   ResumeParser.name_denylist = false.
Proof.
  induction entities as [|ent entities IH]; [done|].
  assert (ResumeParser.name_from_ents entities = Some candidate_name →
          ∃ ent0, ent0 ∈ ent :: entities ∧ ent0.2 = "PERSON"
                  ∧ candidate_name = Text.strip ent0.1
                  ∧ existsb (λ bad, Text.contains bad (Text.lower ent0.1))
                            ResumeParser.name_denylist = false) as Hrest.
  { intros (ent0 & ? & ?)%IH. exists ent0. split; [by right|done]. }
  cbn [ResumeParser.name_from_ents].
  case_bool_decide as Hlabel; [|done].
  destruct (length _ <=? 4); [|done]. cbn [andb].
  destruct (existsb _ ResumeParser.name_denylist) eqn:Hbad; [done|].
  intros [= <-]. exists ent. split_and!; [left|done..].
Qed.

Lemma name_from_headers_Some lines candidate_name :
  ResumeParser.name_from_headers lines = Some candidate_name →
  ∃ line, line ∈ lines ∧ candidate_name = Text.strip line
          ∧ candidate_name ≠ ""
          ∧ existsb (λ title,
                       Text.contains title (Text.lower candidate_name))
                    ResumeParser.header_denylist = false.
Proof.
  induction lines as [|line lines IH]; [done|].
  assert (ResumeParser.name_from_headers lines = Some candidate_name →
          ∃ line0, line0 ∈ line :: lines
                   ∧ candidate_name = Text.strip line0
                   ∧ candidate_name ≠ ""
                   ∧ existsb (λ title,
                                Text.contains title
                                              (Text.lower candidate_name))
                             ResumeParser.header_denylist = false) as Hrest.
  { intros (line0 & ? & ?)%IH. exists line0. split; [by right|done]. }
  clear IH. cbn [ResumeParser.name_from_headers].
  destruct (0 <? String.length (Text.strip line)) eqn:Hlen; [|done].
  destruct (length _ <=? 5); [|done].
  destruct (ResumeParser.title_case _); [|done]. cbn [andb].
  destruct (existsb (λ title,
                       Text.contains title (Text.lower (Text.strip line)))
                    ResumeParser.header_denylist) eqn:Hbad; [done|].
  cbn [negb]. intros [= <-]. exists line. split_and!; [left|done| |done].
  intros Hempty. by rewrite Hempty in Hlen.
Qed.

End ents.

Lemma elem_of_take_le {A} (l : list A) n m x :
  n ≤ m → x ∈ take n l → x ∈ take m l.
Proof.
  rewrite !elem_of_take. intros Hnm (i & Hi & Hlt). exists i. split; [done|lia].
Qed.

End NameFacts.

(** X24.  The name [extract_name] returns is the placeholder
    [Unknown Name], or one of the first ten lines of the text without the
    white space at its ends (and then not empty), or the text of an entity
    labelled [PERSON], stripped likewise. *)
Theorem extract_name_source `{Library} (d : doc) (text : string) :
  let candidate_name := ResumeParser.extract_name d text in
  candidate_name = "Unknown Name"
  ∨ (∃ line, line ∈ take 10 (PyStr.splitlines text)
             ∧ candidate_name = Text.strip line ∧ candidate_name ≠ "")
  ∨ (∃ ent, ent ∈ ents d ∧ ent.2 = "PERSON"
            ∧ candidate_name = Text.strip ent.1).
Proof.
  unfold ResumeParser.extract_name.
  destruct (ResumeParser.name_from_lines _) as [n|] eqn:H1.
  { apply NameFacts.name_from_lines_Some in H1
      as (line & Hin & Hn & Hne & _).
    right. left. exists line. split_and!; [|done..].
    by apply (NameFacts.elem_of_take_le _ 5 10); [lia|]. }
  destruct (ResumeParser.name_from_ents _) as [n|] eqn:H2.
  { apply NameFacts.name_from_ents_Some in H2 as (ent & Hin & Hl & Hn & _).
    right. right. by exists ent. }
  destruct (ResumeParser.name_from_headers _) as [n|] eqn:H3; [|by left].
  apply NameFacts.name_from_headers_Some in H3 as (line & Hin & Hn & Hne & _).
  right. left. by exists line.
Qed.

(** X25.  Whatever the text and the entities are, the name returned does
    not contain [gmail], [email], [phone], [resume] or [cv], in any letter
    case. *)
Theorem extract_name_not_a_header `{Library} (d : doc) (text : string) :
  Forall (λ bad,
            Text.contains bad (Text.lower (ResumeParser.extract_name d text))
            = false)
         ["gmail"; "email"; "phone"; "resume"; "cv"].
Proof.
  unfold ResumeParser.extract_name.
  destruct (ResumeParser.name_from_lines _) as [n|] eqn:H1.
  { apply NameFacts.name_from_lines_Some in H1
      as (line & _ & -> & _ & Hbad).
    repeat constructor; apply NameFacts.contains_lower_strip;
      apply (NameFacts.existsb_false _ _ _ Hbad);
      apply (bool_decide_unpack _); vm_compute; exact I. }
  destruct (ResumeParser.name_from_ents _) as [n|] eqn:H2.
  { apply NameFacts.name_from_ents_Some in H2 as (ent & _ & _ & -> & Hbad).
    repeat constructor; apply NameFacts.contains_lower_strip;
      apply (NameFacts.existsb_false _ _ _ Hbad);
      apply (bool_decide_unpack _); vm_compute; exact I. }
  destruct (ResumeParser.name_from_headers _) as [n|] eqn:H3.
  { apply NameFacts.name_from_headers_Some in H3 as (line & _ & _ & _ & Hbad).
    repeat constructor;
      apply (NameFacts.existsb_false
               (λ title, Text.contains title (Text.lower n)) _ _ Hbad);
      apply (bool_decide_unpack _); vm_compute; exact I. }
  repeat constructor.
Qed.

(** ** [extract_education] *)

Module EducationFacts.
Section education.
Context `{Library}.

Lemma parse_edu_dates_fields date_text edu :
  let edu' := ResumeParser.parse_edu_dates date_text edu in
  degree edu' = degree edu ∧ institution edu' = institution edu
  ∧ gpa edu' = gpa edu ∧ field_of_study edu' = field_of_study edu.
Proof.
  unfold ResumeParser.parse_edu_dates.
  destruct (_ || _).
  - destruct (date_parse _) as [s|]; [|done].
    destruct (_ && _); [|done].
    destruct (existsb _ _); [done|].
    by destruct (date_parse _).
  - by destruct (date_parse _).
Qed.

Lemma education_entry_fields institutions dates i degree_text :
  let edu := ResumeParser.education_entry institutions dates i degree_text in
  degree edu = Text.strip degree_text
  ∧ institution edu = institution_for institutions i
  ∧ gpa edu = "" ∧ field_of_study edu = "".
Proof.
  unfold ResumeParser.education_entry, institution_for.
  set (edu0 := ResumeParser.set_degree _ _).
  set (edu1 := match institutions !! i with Some _ => _ | None => _ end).
  assert (degree edu1 = Text.strip degree_text
          ∧ institution edu1
            = default (default "" (head institutions)) (institutions !! i)
          ∧ gpa edu1 = "" ∧ field_of_study edu1 = "") as Hedu1.
  { subst edu1 edu0. destruct (institutions !! i); [done|].
    by destruct institutions. }
  destruct (dates !! i) as [date_text|]; [|done].
  destruct (parse_edu_dates_fields date_text edu1) as (-> & -> & -> & ->).
  done.
Qed.

End education.
End EducationFacts.

(** X26.  When an education section is found and [nlp] reads it,
    [extract_education] returns one entry for each match of the two degree
    patterns, in the order matched, whether or not its dates can be parsed.
    The degree of an entry is the stripped match, its institution is the
    organisation or place found at the same position, else the first one
    found, else empty, and its grade and field of study are always empty. *)
Theorem extract_education_entries `{Library} (text : string) (d : doc)
    (education_section : string) (edu_doc : doc) :
  find_section ResumeParser.edu_headers (Text.lower text)
  = Some education_section →
  education_section ≠ "" →
  nlp education_section = Returned edu_doc →
  let potential_degrees :=
    ResumeParser.degree_patterns ≫= (λ pattern,
      re_findall pattern true education_section) in
  let institutions :=
    (filter (λ ent, ent.2 ∈ ["ORG"; "GPE"]) (ents edu_doc)).*1 in
  ∃ education_list,
    ResumeParser.extract_education text d = Returned education_list
    ∧ degree <$> education_list = Text.strip <$> potential_degrees
    ∧ institution <$> education_list
      = imap (λ i _, institution_for institutions i) potential_degrees
    ∧ Forall (λ edu, gpa edu = "" ∧ field_of_study edu = "") education_list.
Proof.
  intros Hsection Hne Hnlp degrees institutions.
  unfold ResumeParser.extract_education. rewrite Hsection.
  destruct education_section as [|c section]; [done|].
  rewrite Hnlp. simpl. eexists. split; [done|].
  fold degrees. fold institutions.
  set (dates := re_findall ResumeParser.edu_date_pattern true _).
  split_and!.
  - rewrite fmap_imap. rewrite <- (imap_const Text.strip degrees).
    apply imap_ext. intros i degree_text _. simpl.
    apply EducationFacts.education_entry_fields.
  - rewrite fmap_imap. apply imap_ext. intros i degree_text _. simpl.
    apply EducationFacts.education_entry_fields.
  - apply Forall_forall. intros edu (i & degree_text & -> & _)%elem_of_lookup_imap.
    split; apply EducationFacts.education_entry_fields.
Qed.

Lemma extract_education_entries_witness :
  ∃ education_list,
    ResumeParser.extract_education (H := education_library) resume_c tt
    = Returned education_list
    ∧ degree <$> education_list = ["bsc computer science"]
    ∧ institution <$> education_list = ["university of ghana"].
Proof.
  destruct (extract_education_entries (H := education_library)
              resume_c tt section_c tt)
    as (education_list & Hl & Hd & Hi & _);
    [by vm_compute|done|by vm_compute|].
  exists education_list. split_and!; [done| |].
  - rewrite Hd. by vm_compute.
  - rewrite Hi. by vm_compute.
Defined.

(** ** [extract_experience] *)

Module ExperienceFacts.
Section experience.
Context `{Library}.

Lemma extract_entry_description entry exp :
  extract_entry entry = Returned exp → description exp = entry.
Proof.
  unfold extract_entry.
  destruct (re_search company_pattern entry); simpl.
  - by intros [= <-].
  - destruct (nlp entry); simpl; [|done]. by intros [= <-].
Qed.

Lemma extract_entries_descriptions job_entries experience_list :
  extract_entries job_entries = Returned experience_list →
  description <$> experience_list
  = filter (λ entry, Text.strip entry ≠ "") job_entries.
Proof.
  revert experience_list.
  induction job_entries as [|entry rest IH]; intros l; simpl.
  { by intros [= <-]. }
  case_decide as Hblank.
  - rewrite filter_cons_False by (by intros ?). apply IH.
  - rewrite filter_cons_True by done.
    destruct (extract_entry entry) as [exp|] eqn:Hexp; simpl; [|done].
    destruct (extract_entries rest) as [l'|]; simpl; [|done].
    intros [= <-]. rewrite fmap_cons.
    by rewrite (extract_entry_description _ _ Hexp), (IH l').
Qed.

(** When [nlp] does not raise, no entry raises. *)
Lemma extract_entries_total job_entries :
  (∀ s, ∃ d, nlp s = Returned d) →
  ∃ experience_list, extract_entries job_entries = Returned experience_list.
Proof.
  intros Hnlp. induction job_entries as [|entry rest [l IH]]; simpl.
  { by eexists. }
  case_decide; [by exists l|].
  assert (∃ exp, extract_entry entry = Returned exp) as [exp ->].
  { unfold extract_entry. destruct (re_search company_pattern entry); simpl.
    - by eexists.
    - destruct (Hnlp entry) as [entry_doc ->]. simpl. by eexists. }
  simpl. rewrite IH. simpl. by eexists.
Qed.

Lemma extract_experience_total text d :
  (∀ s, ∃ d, nlp s = Returned d) →
  ∃ experience_list, extract_experience text d = Returned experience_list.
Proof.
  intros Hnlp. unfold extract_experience.
  destruct (find_section exp_headers (Text.lower text)) as [[|c s]|].
  - by eexists.
  - by apply extract_entries_total.
  - by eexists.
Qed.

Lemma extract_education_total text d :
  (∀ s, ∃ d, nlp s = Returned d) →
  ∃ education_list,
    ResumeParser.extract_education text d = Returned education_list.
Proof.
  intros Hnlp. unfold ResumeParser.extract_education.
  destruct (find_section ResumeParser.edu_headers (Text.lower text))
    as [[|c s]|].
  - by eexists.
  - destruct (Hnlp (String c s)) as [edu_doc ->]. simpl. by eexists.
  - by eexists.
Qed.

End experience.
End ExperienceFacts.

(** X27.  [extract_experience] returns one entry for each part of the
    experience section that is not blank, in the order of the parts, and the
    description of an entry is the part itself, unchanged. *)
Theorem extract_experience_descriptions `{Library} (text : string) (d : doc)
    (experience_section : string) (experience_list : list Experience) :
  find_section exp_headers (Text.lower text) = Some experience_section →
  experience_section ≠ "" →
  extract_experience text d = Returned experience_list →
  description <$> experience_list
  = filter (λ entry, Text.strip entry ≠ "")
           (re_split entry_start_pattern experience_section).
Proof.
  intros Hsection Hne. unfold extract_experience. rewrite Hsection.
  destruct experience_section as [|c s]; [done|].
  apply ExperienceFacts.extract_entries_descriptions.
Qed.

Lemma extract_experience_descriptions_witness :
  ∃ experience_list,
    extract_experience (H := sample_library) resume_a tt
    = Returned experience_list
    ∧ description <$> experience_list = [entry_a].
Proof.
  destruct (extract_experience (H := sample_library) resume_a tt)
    as [experience_list|] eqn:Hl; [|vm_compute in Hl; discriminate].
  exists experience_list. split; [done|].
  rewrite (extract_experience_descriptions (H := sample_library)
             resume_a tt entry_a experience_list);
    [by vm_compute|by vm_compute|done|done].
Defined.

(** ** The structurer with the extractors of the source *)

(** X28.  When [nlp] does not raise, [extract_information] returns a record
    for every text that is not empty: nothing else in the extractors can
    make it fail.  The record holds the text itself as raw text, and the
    name, contact details and skills the extractors give for it. *)
Theorem extract_information_total `{Library} `{Runtime} (text : string) :
  (∀ s, ∃ d, nlp s = Returned d) →
  text ≠ "" →
  ∃ resume_info d,
    extract_information (H0 := ResumeParser.extractors) (Some text)
    = Some resume_info
    ∧ nlp text = Returned d
    ∧ raw_text resume_info = text
    ∧ name resume_info = ResumeParser.extract_name d text
    ∧ contact resume_info = ResumeParser.extract_contact_info text
    ∧ skills resume_info = ResumeParser.extract_skills text
    ∧ extract_experience text d = Returned (experience resume_info)
    ∧ ResumeParser.extract_education text d
      = Returned (education resume_info).
Proof.
  intros Hnlp Hne. destruct text as [|c text]; [done|].
  unfold extract_information, build_info.
  destruct (Hnlp (String c text)) as [d Hd]. rewrite Hd. simpl.
  destruct (ExperienceFacts.extract_education_total (String c text) d Hnlp)
    as [education_list Hedu].
  destruct (ExperienceFacts.extract_experience_total (String c text) d Hnlp)
    as [experience_list Hexp].
  rewrite Hedu. simpl. rewrite Hexp. simpl.
  eexists _, d. by split_and!.
Qed.

Lemma extract_information_total_witness :
  ∃ resume_info,
    extract_information
      (H0 := ResumeParser.extractors (H := sample_library)
                                     (H0 := sample_runtime))
      (Some resume_a) = Some resume_info
    ∧ raw_text resume_info = resume_a.
Proof.
  destruct (extract_information_total (H := sample_library)
              (H0 := sample_runtime) resume_a)
    as (resume_info & d & Hinfo & _ & Hraw & _).
  - intros s. by exists tt.
  - done.
  - by exists resume_info.
Defined.

(** ** Durations of whole years *)

Module WholeYears.
Import Dateutil.
Local Open Scope Z_scope.

Lemma set_months_years k : set_months (k * 12) = Relativedelta k 0.
Proof.
  unfold set_months, sign.
  destruct (Z.ltb_spec 11 (Z.abs (k * 12))) as [Hbig|Hsmall].
  - destruct (Z.ltb_spec (k * 12) 0) as [Hneg|Hpos]; cbv zeta.
    + replace (k * 12 * -1) with (- k * 12) by lia.
      rewrite Z.div_mul, Z.mod_mul by lia. f_equal; lia.
    + rewrite !Z.mul_1_r, Z.div_mul, Z.mod_mul by lia. done.
  - f_equal; lia.
Qed.

Lemma radd_years dt1 dt2 :
  valid dt1 → same_time_of_year dt1 dt2 →
  radd (Relativedelta (year dt1 - year dt2) 0) dt2 = dt1.
Proof.
  intros (_ & _ & Hday & _) (Hm & Hd & Hh & Hmin & Hs & Hus).
  unfold radd. simpl.
  replace (year dt2 + (year dt1 - year dt2)) with (year dt1) by lia.
  rewrite <- Hm, <- Hd, <- Hh, <- Hmin, <- Hs, <- Hus.
  rewrite Z.min_r by lia. by destruct dt1.
Qed.

Lemma month_delta_years dt1 dt2 :
  valid dt1 → same_time_of_year dt1 dt2 →
  month_delta dt1 dt2 = (year dt1 - year dt2) * 12.
Proof.
  intros Hv Hsame. unfold month_delta.
  replace ((year dt1 - year dt2) * 12 + (month dt1 - month dt2))
    with ((year dt1 - year dt2) * 12) by (destruct Hsame as [-> _]; lia).
  assert (radd (set_months ((year dt1 - year dt2) * 12)) dt2 = dt1) as Hradd.
  { rewrite set_months_years. by apply radd_years. }
  destruct (dt_lt dt1 dt2); simpl; rewrite Hradd.
  - unfold dt_gt. by rewrite DateutilFacts.dt_lt_irrefl.
  - by rewrite DateutilFacts.dt_lt_irrefl.
Qed.

End WholeYears.

(** X29.  Between two dates that differ in the year only, the duration is
    the difference of the years, exactly: a whole number, negative when the
    first date is the earlier one. *)
Theorem delta_years_whole_years (dt1 dt2 : Dateutil.datetime) :
  Dateutil.valid dt1 → same_time_of_year dt1 dt2 →
  (delta_years dt1 dt2
   == inject_Z (Dateutil.year dt1 - Dateutil.year dt2))%Q.
Proof.
  intros Hv Hsame. unfold delta_years, Dateutil.relativedelta_between.
  rewrite (WholeYears.month_delta_years _ _ Hv Hsame).
  rewrite WholeYears.set_months_years. simpl.
  assert (inject_Z 0 / 12 == 0)%Q as -> by reflexivity. lra.
Qed.

Lemma delta_years_whole_years_witness :
  (delta_years (Dateutil.Datetime 2019 11 3 0 0 0 0)
               (Dateutil.Datetime 2021 11 3 0 0 0 0)
   == inject_Z (2019 - 2021))%Q.
Proof.
  apply (delta_years_whole_years (Dateutil.Datetime 2019 11 3 0 0 0 0)
                                 (Dateutil.Datetime 2021 11 3 0 0 0 0)).
  - by vm_compute.
  - by vm_compute.
Defined.

(** ** Uploads under fresh identifiers *)

Module FreshFacts.
Section fresh.
Context `{FieldExtractors}.

Lemma foldl_upload_fresh files st :
  NoDup (App.drawn_id <$> files) →
  (∀ file, file ∈ files → App.drawn_id file ∉ (App.resumes st).*1) →
  let st' := foldl App.upload_step st files in
  App.resumes st `prefix_of` App.resumes st'
  ∧ length (App.resumes st') + App.parsed_count st
    = length (App.resumes st) + App.parsed_count st'.
Proof.
  revert st. induction files as [|file files IH]; intros st Hnd Hfresh.
  { done. }
  cbn [foldl]. apply NoDup_cons in Hnd as [Hfile Hnd].
  assert (App.drawn_id file ∉ (App.resumes st).*1) as Hnew.
  { apply Hfresh. left. }
  assert (∀ file', file' ∈ files →
            App.drawn_id file' ∉ (App.resumes st).*1) as Hold.
  { intros file' Hin. apply Hfresh. by right. }
  destruct (UploadFacts.upload_step_cases st file)
    as [[_ Hst]|[(_ & Hst & _)|(_ & entry & _ & Hst)]];
    cbv zeta in Hst; rewrite Hst.
  - by apply IH.
  - by apply (IH (App.failed st)).
  - rewrite UploadFacts.dict_set_fresh by done.
    match goal with |- context [foldl App.upload_step ?st1 files] =>
      destruct (IH st1 Hnd) as [Hpre Hlen] end.
    { intros file' Hin. simpl. rewrite fmap_app, elem_of_app. simpl.
      intros [Hin'|Heq%list_elem_of_singleton].
      - by apply (Hold file').
      - apply Hfile. rewrite <- Heq. by apply list_elem_of_fmap_2. }
    simpl in Hpre, Hlen. rewrite length_app in Hlen. simpl in Hlen.
    split; [|lia]. etrans; [|done]. by apply prefix_app_r.
Qed.

End fresh.
End FreshFacts.

(** X30.  When the identifiers drawn for the files of a batch are pairwise
    distinct and not yet in use, the dictionary after the batch starts with
    the entries it had, unchanged and in their order, and has one more
    entry for each file parsed. *)
Theorem upload_appends `{FieldExtractors}
    (resumes_data : list (string * resume_entry)) (files : list App.upload)
    (clear_previous : option string)
    (resumes_data' : list (string * resume_entry)) (parsed failed : nat) :
  NoDup (App.drawn_id <$> files) →
  (∀ file, file ∈ files →
           App.drawn_id file ∉ (batch_base resumes_data clear_previous).*1) →
  App.upload_file resumes_data (Some files) clear_previous
  = (resumes_data', App.Processed parsed failed) →
  batch_base resumes_data clear_previous `prefix_of` resumes_data'
  ∧ length resumes_data'
    = length (batch_base resumes_data clear_previous) + parsed.
Proof.
  unfold App.upload_file, batch_base. intros Hnd Hfresh.
  destruct (_ || _); [done|]. intros [= <- <- <-].
  match goal with |- context [foldl App.upload_step ?st files] =>
    destruct (FreshFacts.foldl_upload_fresh files st Hnd) as [Hpre Hlen] end.
  { done. }
  simpl in *. split; [done|lia].
Qed.

Lemma upload_appends_witness :
  batch_base [sample_ann] None
    `prefix_of` (App.upload_file (H0 := sample_extractors) [sample_ann]
                                 (Some sample_uploads) None).1
  ∧ length (App.upload_file (H0 := sample_extractors) [sample_ann]
                            (Some sample_uploads) None).1
    = length (batch_base [sample_ann] None) + 1.
Proof.
  apply (upload_appends (H0 := sample_extractors) [sample_ann] sample_uploads
                        None _ 1 1).
  - by_compute.
  - apply Forall_forall. by_compute.
  - by vm_compute.
Defined.
